(** * MboxParserStream: the message-boundary scanner of node-mbox

    A shallow embedding of [MboxParserStream] (the Transform stream that
    turns the raw bytes of an mbox file into message-boundary offsets) and
    the properties of its chunked scan.

    Bytes are [Byte.byte], a [Buffer] is a list of them.  Buffer positions
    and lengths are natural numbers; file offsets are integers, since
    [_transform] subtracts the tail length from a match position before it
    adds the absolute offset.  JavaScript numbers are exact on this range
    up to 2^53; the embedding does not bound them. *)

From Equations Require Import Equations.
From Stdlib Require Import Strings.Byte Strings.Ascii Strings.String.
From Stdlib Require Import List Arith ZArith Lia Bool Sorting.Sorted.
Import ListNotations.

Set Default Goal Selector "!".
Local Open Scope Z_scope.

(** ** Buffers *)

Module Buffer.

(** A Node [Buffer] is a finite sequence of bytes. *)
Definition t := list byte.

Definition eq_dec : forall a b : t, {a = b} + {a <> b} :=
  list_eq_dec Byte.byte_eq_dec.

(** [Buffer.from(str)] for an ASCII string. *)
Definition from (s : string) : t := list_byte_of_string s.

(** [Buffer.alloc(0)]. *)
Definition alloc0 : t := [].

(** [Buffer.concat([a, b])]. *)
Definition concat2 (a b : t) : t := a ++ b.

(** [a.equals(b)]. *)
Definition equals (a b : t) : bool := if eq_dec a b then true else false.

(** [buf.slice(start, end)] for [0 <= start] and [0 <= end]: the end is
    clamped to the length, and an empty range gives the empty buffer. *)
Definition slice (buf : t) (start fin : nat) : t :=
  firstn (fin - start) (skipn start buf).

(** [buf.slice(start)] for [0 <= start]. *)
Definition slice_from (buf : t) (start : nat) : t := skipn start buf.

(** Does [value] stand at position 0 of [buf]? *)
Fixpoint occurs_here (value buf : t) : bool :=
  match value, buf with
  | [], _ => true
  | _ :: _, [] => false
  | v :: value', b :: buf' => Byte.eqb v b && occurs_here value' buf'
  end.

(** The left-to-right search of [indexOf]; [pos] is the position of the
    head of [buf] in the buffer searched. *)
Fixpoint indexOf_scan (value buf : t) (pos : nat) : option nat :=
  if occurs_here value buf then Some pos
  else match buf with
       | [] => None
       | _ :: buf' => indexOf_scan value buf' (S pos)
       end.

(** [buf.indexOf(value, byteOffset)] for a non-empty [value] and
    [0 <= byteOffset]: the first position from [byteOffset] on where
    [value] stands; [None] is the result [-1]. *)
Definition indexOf (buf value : t) (byteOffset : nat) : option nat :=
  indexOf_scan value (skipn byteOffset buf) byteOffset.

End Buffer.

(** ** The parser *)

Definition nl : byte := x0a.

(** [MboxParserStream.DELIMITER = Buffer.from('\nFrom ')]. *)
Definition DELIMITER : Buffer.t := nl :: Buffer.from "From ".

(** [MboxParserStream.DELIMITER_START = Buffer.from('From ')]. *)
Definition DELIMITER_START : Buffer.t := Buffer.from "From ".

(** The private fields of an [MboxParserStream] instance. *)
Record MboxParserStream : Type := mkParser {
  absoluteOffset : Z;
  tail : Buffer.t;
  isFirstChunk : bool;
  strict : bool
}.

(** The one error the parser reports itself. *)
Inductive Error : Type :=
| MboxValidationError (message : string).

Definition dquote : string := String (ascii_of_nat 34) EmptyString.

(** [new MboxValidationError('File does not start with "From " line')]. *)
Definition not_from_line : Error :=
  MboxValidationError
    (String.append "File does not start with "
       (String.append dquote
          (String.append "From " (String.append dquote " line")))).

(** [new MboxParserStream({ strict })]; [strict] defaults to [false]. *)
Definition new_parser (options_strict : option bool) : MboxParserStream :=
  {| absoluteOffset := 0;
     tail := Buffer.alloc0;
     isFirstChunk := true;
     strict := match options_strict with Some b => b | None => false end |}.

(** [this.isFirstChunk = b]. *)
Definition set_isFirstChunk (this : MboxParserStream) (b : bool)
  : MboxParserStream :=
  {| absoluteOffset := absoluteOffset this;
     tail := tail this;
     isFirstChunk := b;
     strict := strict this |}.

(** [startsWithFromLine(buffer)]. *)
Definition startsWithFromLine (buffer : Buffer.t) : bool :=
  if (length buffer <? length DELIMITER_START)%nat then false
  else Buffer.equals (Buffer.slice buffer 0 (length DELIMITER_START))
                     DELIMITER_START.

Definition inspect {A : Type} (a : A) : {b : A | a = b} := exist _ a eq_refl.

(** The search loop of [_transform] (lines 78 to 100): from [searchIndex]
    on, each occurrence of the delimiter in [searchBuffer] is pushed as a
    file position, and the search resumes one byte after the match.  The
    loop ends because a match lies inside the buffer, at or after
    [searchIndex]. *)
Equations? search_loop (searchBuffer : Buffer.t) (tailLength : nat)
    (absOffset : Z) (searchIndex : nat) : list Z
    by wf (length searchBuffer - searchIndex)%nat lt :=
  search_loop searchBuffer tailLength absOffset searchIndex
    with inspect (Buffer.indexOf searchBuffer DELIMITER searchIndex) := {
    | exist _ None _ => []
    | exist _ (Some matchIndex) Hm =>
        let offsetInChunk := Z.of_nat matchIndex - Z.of_nat tailLength in
        let filePosition := absOffset + offsetInChunk + 1 in
        filePosition ::
          search_loop searchBuffer tailLength absOffset (matchIndex + 1)
    }.
Proof.
  assert (forall buf pos m,
             Buffer.indexOf_scan DELIMITER buf pos = Some m ->
             (pos <= m < pos + length buf)%nat) as Hscan.
  { induction buf as [|b buf IH]; intros pos m; [discriminate|].
    cbn [Buffer.indexOf_scan].
    destruct (Buffer.occurs_here DELIMITER (b :: buf)).
    - intros [= <-]. simpl; lia.
    - intros H. apply IH in H. simpl; lia. }
  apply Hscan in Hm. rewrite length_skipn in Hm. lia.
Qed.

(** What one call leaves behind: the parser's fields, the offsets handed to
    [this.push], in order, and the error handed to [callback], if any. *)
Record Outcome : Type := mkOutcome {
  after : MboxParserStream;
  pushed : list Z;
  failure : option Error
}.

(** Where the first-bytes check of [_transform] (lines 43 to 76) leaves
    control: it falls through to the search loop, possibly after one push,
    or it has called back with an error and returned. *)
Inductive FirstCheck : Type :=
| Continue (this : MboxParserStream) (out : list Z)
| Return (this : MboxParserStream) (e : Error).

Definition first_check (this : MboxParserStream) (searchBuffer : Buffer.t)
  : FirstCheck :=
  if isFirstChunk this then
    if (length DELIMITER_START <=? length searchBuffer)%nat then
      let this := set_isFirstChunk this false in
      if startsWithFromLine searchBuffer then Continue this [0]
      else if strict this then Return this not_from_line
      else Continue this []
    else
      let canStillMatch :=
        Buffer.equals
          (Buffer.slice DELIMITER_START 0 (length searchBuffer))
          searchBuffer in
      if negb canStillMatch then
        let this := set_isFirstChunk this false in
        if strict this then Return this not_from_line
        else Continue this []
      else Continue this []
  else Continue this [].

(** [_transform(chunk, _encoding, callback)]. *)
Definition _transform (this : MboxParserStream) (chunk : Buffer.t)
  : Outcome :=
  let searchBuffer := Buffer.concat2 (tail this) chunk in
  let tailLength := length (tail this) in
  match first_check this searchBuffer with
  | Return this e => {| after := this; pushed := []; failure := Some e |}
  | Continue this out =>
      let found :=
        search_loop searchBuffer tailLength (absoluteOffset this) 0 in
      let newTail :=
        if isFirstChunk this then
          Buffer.slice searchBuffer 0 (length DELIMITER_START)
        else
          let tailSize :=
            Nat.min (length DELIMITER - 1) (length searchBuffer) in
          Buffer.slice_from searchBuffer (length searchBuffer - tailSize) in
      {| after :=
           {| absoluteOffset :=
                absoluteOffset this + Z.of_nat (length chunk);
              tail := newTail;
              isFirstChunk := isFirstChunk this;
              strict := strict this |};
         pushed := out ++ found;
         failure := None |}
  end.

(** [_flush(callback)]: no final processing. *)
Definition _flush (this : MboxParserStream) : Outcome :=
  {| after := this; pushed := []; failure := None |}.

(** [reset()]. *)
Definition reset (this : MboxParserStream) : MboxParserStream :=
  {| absoluteOffset := 0;
     tail := Buffer.alloc0;
     isFirstChunk := true;
     strict := strict this |}.

(** The stream around the parser, while it is open: Node's [Transform]
    hands the written chunks to [_transform] one at a time and in order,
    collects what is pushed, and stops at the first error called back.
    What a stream that has been ended or destroyed does with a write is
    in [Transform.write] below. *)
Fixpoint write_all (this : MboxParserStream) (chunks : list Buffer.t)
  : Outcome :=
  match chunks with
  | [] => {| after := this; pushed := []; failure := None |}
  | chunk :: rest =>
      let r := _transform this chunk in
      match failure r with
      | Some _ => r
      | None =>
          let r' := write_all (after r) rest in
          {| after := after r';
             pushed := pushed r ++ pushed r';
             failure := failure r' |}
      end
  end.

(** Writing all the chunks and ending the stream: [_flush] runs once every
    chunk has gone through without an error. *)
Definition pipe (this : MboxParserStream) (chunks : list Buffer.t)
  : Outcome :=
  let r := write_all this chunks in
  match failure r with
  | Some _ => r
  | None =>
      let r' := _flush (after r) in
      {| after := after r';
         pushed := pushed r ++ pushed r';
         failure := failure r' |}
  end.

(** A scan of [chunks] by a freshly constructed parser: the offsets emitted
    and the error raised, if any. *)
Definition scan (strictMode : bool) (chunks : list Buffer.t)
  : list Z * option Error :=
  let r := pipe (new_parser (Some strictMode)) chunks in
  (pushed r, failure r).

(** ** The parser as a stream *)

Module Transform.

(** An instance of the class is a Node [Transform]: beside the fields of
    its own it carries the state of the stream it extends.  Of that state
    a write looks at two flags: [writableEnded], set by [end()], and
    [destroyed], set when an error destroys the stream, as every error
    does under [autoDestroy], the default, which the constructor leaves on
    (it passes [objectMode] only).  No line of the class assigns either
    flag.  That Node also destroys a stream that has ended and been read to
    its end changes nothing below: a write looks at [writableEnded]
    first. *)
Record t : Type := mk {
  fields : MboxParserStream;
  writableEnded : bool;
  destroyed : bool
}.

(** The errors a call on the stream reports: the one [_transform] called
    back, or Node's refusal of the write. *)
Inductive Failure : Type :=
| callback_error (e : Error)
| ERR_STREAM_WRITE_AFTER_END
| ERR_STREAM_DESTROYED.

(** What a call leaves behind: the instance, the offsets that reach the
    readable side, in order, and the error reported, if any. *)
Record Report : Type := mkReport {
  stream : t;
  data : list Z;
  error : option Failure
}.

(** [new MboxParserStream({ strict })]: a stream that is open. *)
Definition new (options_strict : option bool) : t :=
  {| fields := new_parser options_strict;
     writableEnded := false;
     destroyed := false |}.

(** [reset()] on the instance: the three assignments of the method, and
    nothing else. *)
Definition reset (this : t) : t :=
  {| fields := reset (fields this);
     writableEnded := writableEnded this;
     destroyed := destroyed this |}.

(** [write(chunk)]: an ended stream refuses the write and is destroyed by
    that error, a destroyed stream refuses it; neither calls
    [_transform].  On an open stream [_transform] runs, and an error it
    calls back destroys the stream. *)
Definition write (this : t) (chunk : Buffer.t) : Report :=
  if writableEnded this then
    {| stream := {| fields := fields this;
                    writableEnded := true;
                    destroyed := true |};
       data := [];
       error := Some ERR_STREAM_WRITE_AFTER_END |}
  else if destroyed this then
    {| stream := this; data := []; error := Some ERR_STREAM_DESTROYED |}
  else
    let r := _transform (fields this) chunk in
    match failure r with
    | Some e =>
        {| stream := {| fields := after r;
                        writableEnded := false;
                        destroyed := true |};
           data := pushed r;
           error := Some (callback_error e) |}
    | None =>
        {| stream := {| fields := after r;
                        writableEnded := false;
                        destroyed := false |};
           data := pushed r;
           error := None |}
    end.

(** [end()], without a chunk and without a callback: on an open stream
    [_flush] runs and the stream is ended; on an ended or destroyed stream
    the call does nothing. *)
Definition end_ (this : t) : Report :=
  if writableEnded this || destroyed this then
    {| stream := this; data := []; error := None |}
  else
    let r := _flush (fields this) in
    match failure r with
    | Some e =>
        {| stream := {| fields := after r;
                        writableEnded := true;
                        destroyed := true |};
           data := pushed r;
           error := Some (callback_error e) |}
    | None =>
        {| stream := {| fields := after r;
                        writableEnded := true;
                        destroyed := false |};
           data := pushed r;
           error := None |}
    end.

(** Writing the chunks in order, up to the first write that reports an
    error. *)
Fixpoint write_all (this : t) (chunks : list Buffer.t) : Report :=
  match chunks with
  | [] => {| stream := this; data := []; error := None |}
  | chunk :: rest =>
      let r := write this chunk in
      match error r with
      | Some _ => r
      | None =>
          let r' := write_all (stream r) rest in
          {| stream := stream r';
             data := data r ++ data r';
             error := error r' |}
      end
  end.

(** Writing all the chunks and ending the stream. *)
Definition pipe (this : t) (chunks : list Buffer.t) : Report :=
  let r := write_all this chunks in
  match error r with
  | Some _ => r
  | None =>
      let r' := end_ (stream r) in
      {| stream := stream r';
         data := data r ++ data r';
         error := error r' |}
  end.

End Transform.


(** ** Occurrences of the delimiter in a byte string *)

(** [occ bs p]: the six bytes of the delimiter stand at position [p] of
    [bs]. *)
Definition occ (bs : Buffer.t) (p : nat) : bool :=
  Buffer.occurs_here DELIMITER (skipn p bs).

(** The positions of [bs] from [i] on where the delimiter stands,
    ascending. *)
Definition matches_from (bs : Buffer.t) (i : nat) : list nat :=
  filter (occ bs) (seq i (length bs - i)).

Definition matches (bs : Buffer.t) : list nat := matches_from bs 0.

(** [m] holds the six bytes newline, [From ] somewhere. *)
Definition contains_delimiter (m : Buffer.t) : Prop :=
  exists pre post, m = pre ++ DELIMITER ++ post.

(** ** What a whole stream is to yield *)

(** The last [n] bytes of [bs] (all of it when it is shorter). *)
Definition last_bytes (n : nat) (bs : Buffer.t) : Buffer.t :=
  skipn (length bs - Nat.min n (length bs)) bs.

(** Fewer than five bytes, all of them agreeing with the start of the
    keyword: whether the stream begins with [From ] is still open. *)
Definition undecided (bs : Buffer.t) : bool :=
  (length bs <? length DELIMITER_START)%nat &&
  Buffer.equals (Buffer.slice DELIMITER_START 0 (length bs)) bs.

(** The mode is strict and the leading bytes evidently fail to be
    [From ]. *)
Definition rejected (strictMode : bool) (bs : Buffer.t) : bool :=
  strictMode && negb (undecided bs) && negb (startsWithFromLine bs).

(** The boundaries of a stream [bs]: offset 0 when it begins with the
    keyword, and the byte after each newline that the keyword follows. *)
Definition boundaries (bs : Buffer.t) : list Z :=
  (if startsWithFromLine bs then [0] else []) ++
  map (fun p => Z.of_nat p + 1) (matches bs).

Definition expected (strictMode : bool) (bs : Buffer.t)
  : list Z * option Error :=
  if rejected strictMode bs then ([], Some not_from_line)
  else (boundaries bs, None).

(** What ties a parser to the bytes [bs] it has consumed so far. *)
Record Inv (strictMode : bool) (bs : Buffer.t) (this : MboxParserStream)
  : Prop := mkInv {
  inv_offset : absoluteOffset this = Z.of_nat (length bs);
  inv_tail : tail this = last_bytes 5 bs;
  inv_first : isFirstChunk this = undecided bs;
  inv_strict : strict this = strictMode;
  inv_accepted : rejected strictMode bs = false
}.

(** ** The stream's leading bytes, in the specification's words *)

Definition is_prefix_of (a b : Buffer.t) : Prop := exists r, b = a ++ r.

(** The leading bytes fail to match [From ], evidently: five bytes are in,
    or the bytes so far are not a prefix of the keyword. *)
Definition mismatch_evident (bs : Buffer.t) : Prop :=
  firstn 5 bs <> DELIMITER_START /\
  ((5 <= length bs)%nat \/ ~ is_prefix_of bs DELIMITER_START).

(** ** Sample streams *)

Definition bytes_nl : Buffer.t := [nl].

Definition first_message : Buffer.t :=
  Buffer.from "From a@x Mon Jan 1" ++ bytes_nl ++
  Buffer.from "Subj: 1" ++ bytes_nl ++ bytes_nl ++
  Buffer.from "Body 1" ++ bytes_nl.

Definition second_message : Buffer.t :=
  Buffer.from "From b@x Mon Jan 2" ++ bytes_nl ++
  Buffer.from "Subj: 2" ++ bytes_nl.

(** ["From a@x Mon Jan 1\nSubj: 1\n\nBody 1\nFrom b@x Mon Jan 2\nSubj: 2\n"]. *)
Definition worked_example : Buffer.t := first_message ++ second_message.

(** ["Not an mbox\nFrom someone\n"]. *)
Definition not_an_mbox : Buffer.t :=
  Buffer.from "Not an mbox" ++ bytes_nl ++
  Buffer.from "From someone" ++ bytes_nl.

(** The escaped body line [">From someone\n"]. *)
Definition escaped_line : Buffer.t := Buffer.from ">From someone" ++ bytes_nl.

(** [bs] cut into pieces of [n] bytes (the last one may be shorter). *)
Fixpoint chunks_of (n : nat) (fuel : nat) (bs : Buffer.t) : list Buffer.t :=
  match fuel with
  | O => [bs]
  | S fuel' =>
      match bs with
      | [] => []
      | _ => firstn n bs :: chunks_of n fuel' (skipn n bs)
      end
  end.

(** ** Results of operations that may throw *)

(** [MboxState]. *)
Inductive MboxState : Type := INIT | INDEXING | READY | ERROR.

(** The reason given to [MessageNotFoundError]. *)
Inductive NotFoundReason : Type := out_of_bounds | deleted_message.

(** What the index layer throws or rejects with. *)
Inductive Exception : Type :=
| InvalidMessageIndex (index : Z)
| InvalidMessageOffset (offset : Z)
| InvalidMessageSize (size : Z)
| MboxNotReadyError (currentState : MboxState)
| MessageNotFoundError (index : Z) (reason : NotFoundReason)
| ParserError (e : Error)
| FileNotReadable
| RangeOutOfRange (start fin : Z).

Inductive Result (A : Type) : Type :=
| Ok (a : A)
| Throw (e : Exception).

Arguments Ok {A} a.
Arguments Throw {A} e.

(** [array.map(f)] for an [f] that may throw: left to right, stopping at
    the first throw. *)
Fixpoint map_throwing {A B : Type} (f : A -> Result B) (l : list A)
  : Result (list B) :=
  match l with
  | [] => Ok []
  | a :: rest =>
      match f a with
      | Throw e => Throw e
      | Ok b =>
          match map_throwing f rest with
          | Throw e => Throw e
          | Ok bs => Ok (b :: bs)
          end
      end
  end.

(** ** Message records *)

Module MboxMessage.

(** The fields of an [MboxMessage]; numbers are integers here. *)
Record t : Type := mk {
  index : Z;
  offset : Z;
  size : Z;
  _deleted : bool
}.

(** [new MboxMessage(index, offset, size, deleted)]. *)
Definition new (index offset size : Z) (deleted : bool) : Result t :=
  if index <? 0 then Throw (InvalidMessageIndex index)
  else if offset <? 0 then Throw (InvalidMessageOffset offset)
  else if size <? 0 then Throw (InvalidMessageSize size)
  else Ok (mk index offset size deleted).

(** [get deleted()]. *)
Definition deleted (this : t) : bool := _deleted this.

(** [markDeleted()]. *)
Definition markDeleted (this : t) : t :=
  mk (index this) (offset this) (size this) true.

(** [withSize(size)]. *)
Definition withSize (this : t) (size : Z) : Result t :=
  new (index this) (offset this) size (_deleted this).

(** [MboxMessageJSON]. *)
Record JSON : Type := mkJSON {
  json_index : Z;
  json_offset : Z;
  json_size : Z;
  json_deleted : bool
}.

(** [toJSON()]. *)
Definition toJSON (this : t) : JSON :=
  {| json_index := index this;
     json_offset := offset this;
     json_size := size this;
     json_deleted := _deleted this |}.

(** [MboxMessage.fromJSON(json)]. *)
Definition fromJSON (json : JSON) : Result t :=
  new (json_index json) (json_offset json) (json_size json)
      (json_deleted json).

(** [new MboxMessage(msg.index, msg.offset, msg.size, msg.deleted)], the
    copy that [Mbox] makes for its backup. *)
Definition copy (msg : t) : Result t :=
  new (index msg) (offset msg) (size msg) (deleted msg).

End MboxMessage.

(** ** The index over a file *)

Module Mbox.

(** The options of an [Mbox] after the constructor has filled in the
    defaults. *)
Record NormalizedMboxOptions : Type := mkOptions {
  debug : bool;
  bufferSize : Z;
  encoding : string;
  savedIndex : option (list MboxMessage.JSON);
  strict : bool
}.

(** The fields of an [Mbox] that its index operations read and write. *)
Record t : Type := mk {
  messages : list MboxMessage.t;
  originalMessages : list MboxMessage.t;
  state : MboxState;
  options : NormalizedMboxOptions
}.

(** What [get] resolves to: the decoded text, or the byte stream. *)
Inductive MessageContent (Text : Type) : Type :=
| content_string (text : Text)
| content_stream (bytes : Buffer.t).

Arguments content_string {Text} text.
Arguments content_stream {Text} bytes.

(** The events an [Mbox] emits. *)
Inductive Event (Text : Type) : Type :=
| init_event (success : bool) (err : option Exception)
| get_event (success : bool) (index : Z) (data : option Text)
| delete_event (success : bool) (index : Z)
| reset_event (success : bool)
| write_event (success : bool) (destination : string)
| error_event (err : Exception).

Arguments init_event {Text} success err.
Arguments get_event {Text} success index data.
Arguments delete_event {Text} success index.
Arguments reset_event {Text} success.
Arguments write_event {Text} success destination.
Arguments error_event {Text} err.

(** The defaults of the constructor: [options.x ?? default]. *)
Definition normalize_options (o_debug : option bool) (o_bufferSize : option Z)
    (o_encoding : option string)
    (o_savedIndex : option (list MboxMessage.JSON))
    (o_strict : option bool) : NormalizedMboxOptions :=
  {| debug := match o_debug with Some b => b | None => false end;
     bufferSize := match o_bufferSize with Some n => n | None => 65536 end;
     encoding := match o_encoding with Some e => e | None => "utf8" end;
     savedIndex := o_savedIndex;
     strict := match o_strict with Some b => b | None => false end |}.

(** The fields as the constructor sets them, before [initialize] runs. *)
Definition new (opts : NormalizedMboxOptions) : t :=
  {| messages := []; originalMessages := []; state := INIT;
     options := opts |}.

(** *** Operations on [this]: a state and exception monad *)

Definition Op (A : Type) : Type := t -> t * Result A.

Definition ret {A : Type} (a : A) : Op A := fun this => (this, Ok a).

Definition throw {A : Type} (e : Exception) : Op A :=
  fun this => (this, Throw e).

Definition lift {A : Type} (r : Result A) : Op A := fun this => (this, r).

Definition bind {A B : Type} (c : Op A) (k : A -> Op B) : Op B :=
  fun this =>
    match c this with
    | (this', Ok a) => k a this'
    | (this', Throw e) => (this', Throw e)
    end.

Notation "x <- c ;; k" := (bind c (fun x => k))
  (at level 61, c at next level, right associativity).

Notation "c ;;; k" := (bind c (fun _ => k))
  (at level 61, right associativity).

(** Reading [this]. *)
Definition self : Op t := fun this => (this, Ok this).

(** [this.state = s]. *)
Definition assign_state (s : MboxState) : Op unit :=
  fun this =>
    ({| messages := messages this;
        originalMessages := originalMessages this;
        state := s; options := options this |}, Ok tt).

(** [this.messages = ms]. *)
Definition assign_messages (ms : list MboxMessage.t) : Op unit :=
  fun this =>
    ({| messages := ms; originalMessages := originalMessages this;
        state := state this; options := options this |}, Ok tt).

(** [this.originalMessages = ms]. *)
Definition assign_originalMessages (ms : list MboxMessage.t) : Op unit :=
  fun this =>
    ({| messages := messages this; originalMessages := ms;
        state := state this; options := options this |}, Ok tt).

(** [array[array.length - 1] = x] on a non-empty array. *)
Definition set_last {A : Type} (l : list A) (x : A) : list A :=
  removelast l ++ [x].

(** [array[array.length - 1]], [None] for [undefined]. *)
Definition last_item {A : Type} (l : list A) : option A :=
  nth_error l (length l - 1).

(** [if (this.state !== MboxState.READY) throw new MboxNotReadyError(this.state)]. *)
Definition require_ready : Op unit :=
  this <- self ;;
  match state this with
  | READY => ret tt
  | s => throw (MboxNotReadyError s)
  end.

(** Closing the last message of the index at [limit]: the common part of
    the two handlers of [scanFile]. *)
Definition close_last (limit : Z) : Op unit :=
  this <- self ;;
  if (0 <? length (messages this))%nat then
    match last_item (messages this) with
    | Some prev =>
        newPrev <- lift (MboxMessage.withSize prev
                           (limit - MboxMessage.offset prev)) ;;
        assign_messages (set_last (messages this) newPrev)
    | None => ret tt
    end
  else ret tt.

(** The ['data'] handler of [scanFile]: a boundary closes the previous
    message and opens a new one of size 0. *)
Definition on_data (boundary_offset : Z) : Op unit :=
  close_last boundary_offset ;;;
  this <- self ;;
  newMessage <- lift (MboxMessage.new (Z.of_nat (length (messages this)))
                        boundary_offset 0 false) ;;
  assign_messages (messages this ++ [newMessage]).

(** [this.messages.map((msg) => new MboxMessage(msg.index, msg.offset,
    msg.size, msg.deleted))] stored as the backup. *)
Definition backup_messages : Op unit :=
  this <- self ;;
  backup <- lift (map_throwing MboxMessage.copy (messages this)) ;;
  assign_originalMessages backup.

(** The ['end'] handler of [scanFile]: the last message runs to the end of
    the file, whose size is [stat_size]; then the backup is taken. *)
Definition on_end (stat_size : Z) : Op unit :=
  close_last stat_size ;;;
  backup_messages.

(** The ['data'] events of one scan, in the order of the pushes. *)
Fixpoint on_data_all (offsets : list Z) : Op unit :=
  match offsets with
  | [] => ret tt
  | boundary_offset :: rest =>
      on_data boundary_offset ;;; on_data_all rest
  end.

(** [scanFile()]: the file, read as [chunks], is piped into a new
    [MboxParserStream]; each boundary pushed reaches the ['data'] handler;
    a parser error rejects; the end of the stream runs the ['end']
    handler. *)
Definition scanFile (chunks : list Buffer.t) (stat_size : Z) : Op unit :=
  this <- self ;;
  let r := pipe (new_parser (Some (strict (options this)))) chunks in
  on_data_all (pushed r) ;;;
  match failure r with
  | Some e => throw (ParserError e)
  | None => on_end stat_size
  end.

(** The [try] block of [initialize()]: [file] is the content of the file
    when it can be read, [chunks] the pieces in which the read stream
    delivers it. *)
Definition initialize_try (file : option Buffer.t) (chunks : list Buffer.t)
  : Op unit :=
  assign_state INDEXING ;;;
  match file with
  | None => throw FileNotReadable
  | Some content =>
      this <- self ;;
      match savedIndex (options this) with
      | Some saved =>
          restored <- lift (map_throwing MboxMessage.fromJSON saved) ;;
          assign_messages restored ;;;
          backup_messages ;;;
          assign_state READY
      | None =>
          scanFile chunks (Z.of_nat (length content)) ;;;
          assign_state READY
      end
  end.

(** [initialize()], with its [catch]; [error_listeners] is the number of
    listeners of the ['error'] event.  The result is what the [ready()]
    promise settles to. *)
Definition initialize {Text : Type} (file : option Buffer.t)
    (chunks : list Buffer.t) (error_listeners : nat) (this : t)
  : t * list (Event Text) * Result unit :=
  match initialize_try file chunks this with
  | (this', Ok _) => (this', [init_event true None], Ok tt)
  | (this', Throw err) =>
      (fst (assign_state ERROR this'),
       init_event false (Some err) ::
       (if (0 <? error_listeners)%nat then [error_event err] else []),
       Throw err)
  end.

(** [Mbox.create(filename, options)]: the constructor, then [ready()]. *)
Definition create {Text : Type} (opts : NormalizedMboxOptions)
    (file : option Buffer.t) (chunks : list Buffer.t)
    (error_listeners : nat) : Result t :=
  match @initialize Text file chunks error_listeners (new opts) with
  | (this, _, Ok _) => Ok this
  | (_, _, Throw err) => Throw err
  end.

(** [count()]. *)
Definition count (this : t) : nat :=
  length (filter (fun msg => negb (MboxMessage.deleted msg)) (messages this)).

(** [totalCount()]. *)
Definition totalCount (this : t) : nat := length (messages this).

(** [this.messages[index]] for an integer [index]; [None] for
    [undefined]. *)
Definition message_at (this : t) (index : Z) : option MboxMessage.t :=
  if index <? 0 then None else nth_error (messages this) (Z.to_nat index).

(** The checks that open [get] and [delete]: the state, the bounds, the
    deleted flag. *)
Definition lookup (index : Z) : Op MboxMessage.t :=
  require_ready ;;;
  this <- self ;;
  if (index <? 0) || (Z.of_nat (length (messages this)) <=? index)
  then throw (MessageNotFoundError index out_of_bounds)
  else match message_at this index with
       | None => throw (MessageNotFoundError index out_of_bounds)
       | Some msg =>
           if MboxMessage.deleted msg
           then throw (MessageNotFoundError index deleted_message)
           else ret msg
       end.

(** Node's [fs.createReadStream(path, { start, end })], read to its end on
    a file of content [file]: the bytes from [start] through [end],
    [end] included, as far as the file goes; a range with [end < start] is
    refused. *)
Definition read_range (file : Buffer.t) (start fin : Z) : Result Buffer.t :=
  if fin <? start then Throw (RangeOutOfRange start fin)
  else Ok (Buffer.slice file (Z.to_nat start) (Z.to_nat (fin + 1))).

(** The bytes of a message: what [get] and [write] read for it, from
    [msg.offset] through [msg.offset + msg.size - 1]. *)
Definition message_bytes (file : Buffer.t) (msg : MboxMessage.t)
  : Result Buffer.t :=
  read_range file (MboxMessage.offset msg)
             (MboxMessage.offset msg + MboxMessage.size msg - 1).

Section Get.

Variable Text : Type.

(** Decoding bytes to a string in a given encoding. *)
Variable decode : string -> Buffer.t -> Text.

(** The [try] block of [get]: the content and, for a string, the data of
    the event. *)
Definition get_try (file : Buffer.t) (index : Z) (asStream : bool)
    (options_encoding : option string)
  : Op (MessageContent Text * option Text) :=
  msg <- lookup index ;;
  bytes <- lift (message_bytes file msg) ;;
  this <- self ;;
  if asStream then ret (content_stream bytes, None)
  else
    let enc := match options_encoding with
               | Some e => e
               | None => encoding (options this)
               end in
    let content := decode enc bytes in
    ret (content_string content, Some content).

(** [get(index, options)]: the events emitted and the content resolved
    to, or the error thrown. *)
Definition get (file : Buffer.t) (index : Z) (asStream : bool)
    (options_encoding : option string) (this : t)
  : t * list (Event Text) * Result (MessageContent Text) :=
  match get_try file index asStream options_encoding this with
  | (this', Ok (content, data)) =>
      (this', [get_event true index data], Ok content)
  | (this', Throw err) => (this', [get_event false index None], Throw err)
  end.

End Get.

(** [msg.markDeleted()] on the message at position [i]. *)
Fixpoint mark_at (ms : list MboxMessage.t) (i : nat) : list MboxMessage.t :=
  match ms, i with
  | [], _ => []
  | msg :: rest, O => MboxMessage.markDeleted msg :: rest
  | msg :: rest, S i' => msg :: mark_at rest i'
  end.

(** The [try] block of [delete]. *)
Definition delete_try (index : Z) : Op unit :=
  lookup index ;;;
  this <- self ;;
  assign_messages (mark_at (messages this) (Z.to_nat index)).

(** [delete(index)]. *)
Definition delete {Text : Type} (index : Z) (this : t)
  : t * list (Event Text) * Result unit :=
  match delete_try index this with
  | (this', Ok _) => (this', [delete_event true index], Ok tt)
  | (this', Throw err) => (this', [delete_event false index], Throw err)
  end.

(** The [try] block of [reset]. *)
Definition reset_try : Op unit :=
  require_ready ;;;
  this <- self ;;
  restored <- lift (map_throwing MboxMessage.copy (originalMessages this)) ;;
  assign_messages restored.

(** [reset()]. *)
Definition reset {Text : Type} (this : t)
  : t * list (Event Text) * Result unit :=
  match reset_try this with
  | (this', Ok _) => (this', [reset_event true], Ok tt)
  | (this', Throw err) => (this', [reset_event false], Throw err)
  end.

(** The loop of [write]: each message that is not deleted is read from the
    file and appended to what was written so far; a failed read stops the
    loop. *)
Fixpoint write_loop (file : Buffer.t) (ms : list MboxMessage.t)
    (written : Buffer.t) : Buffer.t * Result unit :=
  match ms with
  | [] => (written, Ok tt)
  | msg :: rest =>
      if MboxMessage.deleted msg then write_loop file rest written
      else match message_bytes file msg with
           | Ok bytes => write_loop file rest (written ++ bytes)
           | Throw err => (written, Throw err)
           end
  end.

(** [write(destination)], for a destination other than the file read:
    the bytes written to the destination, if it was opened, the events
    emitted, and the outcome. *)
Definition write {Text : Type} (file : Buffer.t) (destination : string)
    (this : t) : option Buffer.t * list (Event Text) * Result unit :=
  match require_ready this with
  | (_, Throw err) => (None, [write_event false destination], Throw err)
  | (_, Ok _) =>
      match write_loop file (messages this) [] with
      | (written, Ok _) =>
          (Some written, [write_event true destination], Ok tt)
      | (written, Throw err) =>
          (Some written, [write_event false destination], Throw err)
      end
  end.

(** [exportIndex()]. *)
Definition exportIndex (this : t) : list MboxMessage.JSON :=
  map MboxMessage.toJSON (messages this).

(** [array.map((x, i) => f(x, i))], counting from [i]. *)
Fixpoint map_with_index {A B : Type} (f : A -> nat -> B) (l : list A)
    (i : nat) : list B :=
  match l with
  | [] => []
  | a :: rest => f a i :: map_with_index f rest (S i)
  end.

(** The indices that [extractAttachments] visits by default:
    [this.messages.map((msg, i) => (msg.deleted ? -1 : i)).filter((i) => i >= 0)]. *)
Definition default_indices (this : t) : list Z :=
  filter (fun i => 0 <=? i)
    (map_with_index
       (fun msg i => if MboxMessage.deleted msg then -1 else Z.of_nat i)
       (messages this) 0).

End Mbox.

(** ** What the index of a file is to be *)

(** The index that the boundaries [bounds] of a file of [total] bytes stand
    for, numbered from [i]: each message runs to the next boundary, the
    last one to the end of the file. *)
Fixpoint index_of_boundaries (i : nat) (bounds : list Z) (total : Z)
  : list MboxMessage.t :=
  match bounds with
  | [] => []
  | b :: rest =>
      MboxMessage.mk (Z.of_nat i) b (hd total rest - b) false ::
      index_of_boundaries (S i) rest total
  end.

(** The class invariant of [MboxMessage]: what its constructor checks. *)
Definition valid_message (msg : MboxMessage.t) : Prop :=
  0 <= MboxMessage.index msg /\ 0 <= MboxMessage.offset msg /\
  0 <= MboxMessage.size msg.

(** The state [this] with [ms] as its messages. *)
Definition with_messages (this : Mbox.t) (ms : list MboxMessage.t) : Mbox.t :=
  fst (Mbox.assign_messages ms this).

(** The state after a successful scan: the index and its backup. *)
Definition scanned (this : Mbox.t) (bounds : list Z) (total : Z) : Mbox.t :=
  {| Mbox.messages := index_of_boundaries 0 bounds total;
     Mbox.originalMessages := index_of_boundaries 0 bounds total;
     Mbox.state := Mbox.state this;
     Mbox.options := Mbox.options this |}.

(** The state of an [Mbox] that is ready, with index [ms] and backup
    [backup]. *)
Definition ready_with (opts : Mbox.NormalizedMboxOptions)
    (ms backup : list MboxMessage.t) : Mbox.t :=
  {| Mbox.messages := ms; Mbox.originalMessages := backup;
     Mbox.state := READY; Mbox.options := opts |}.

(** The index of a file of content [file]. *)
Definition file_index (file : Buffer.t) : list MboxMessage.t :=
  index_of_boundaries 0 (boundaries file) (Z.of_nat (length file)).

(** The byte range of a message in [file]: from its offset, [size]
    bytes. *)
Definition bytes_of (file : Buffer.t) (msg : MboxMessage.t) : Buffer.t :=
  Buffer.slice file (Z.to_nat (MboxMessage.offset msg))
    (Z.to_nat (MboxMessage.offset msg + MboxMessage.size msg)).

(** The messages that are not deleted. *)
Definition kept (ms : list MboxMessage.t) : list MboxMessage.t :=
  filter (fun msg => negb (MboxMessage.deleted msg)) ms.

(** A message record with its deleted flag cleared. *)
Definition unmark (msg : MboxMessage.t) : MboxMessage.t :=
  MboxMessage.mk (MboxMessage.index msg) (MboxMessage.offset msg)
    (MboxMessage.size msg) false.

(** The offsets at which the pieces of [segs] start when they are written
    one after the other from offset [from]. *)
Fixpoint offsets_of (segs : list Buffer.t) (from : Z) : list Z :=
  match segs with
  | [] => []
  | s :: rest => from :: offsets_of rest (from + Z.of_nat (length s))
  end.

Definition ends_with_newline (m : Buffer.t) : Prop :=
  exists front, m = front ++ bytes_nl.

(** A piece of a file that is one whole message: it begins with the
    keyword and holds no delimiter. *)
Definition whole_message (m : Buffer.t) : Prop :=
  firstn 5 m = DELIMITER_START /\ ~ contains_delimiter m.

(** The boundaries of [file] as positions. *)
Definition boundary_positions (file : Buffer.t) : list nat :=
  (if startsWithFromLine file then [0%nat] else []) ++ map S (matches file).

(** The pieces into which the positions [bounds] cut [file] up to
    [total]. *)
Fixpoint pieces (file : Buffer.t) (bounds : list nat) (total : nat)
  : list Buffer.t :=
  match bounds with
  | [] => []
  | b :: rest =>
      Buffer.slice file b (hd total rest) :: pieces file rest total
  end.

(** Every occurrence of the delimiter in [file] from position [lo] on is
    accounted for in [bounds], by the position after its newline. *)
Definition complete_from (file : Buffer.t) (lo : nat) (bounds : list nat)
  : Prop :=
  forall p, occ file p = true -> (lo <= p)%nat -> In (S p) bounds.

(** [bounds] cuts [file] at boundaries: ascending positions where the
    keyword stands, each but the first right after the newline of an
    occurrence of the delimiter. *)
Record Cut (file : Buffer.t) (bounds : list nat) : Prop := mkCut {
  cut_sorted : StronglySorted lt bounds;
  cut_keyword : forall b, In b bounds ->
                  firstn 5 (skipn b file) = DELIMITER_START;
  cut_newline : forall b, In b (tl bounds) ->
                  exists p, b = S p /\ occ file p = true
}.

(** A run of [delete] calls, whatever each one answers. *)
Fixpoint deletes (Text : Type) (indices : list Z) (this : Mbox.t) : Mbox.t :=
  match indices with
  | [] => this
  | index :: rest =>
      deletes Text rest (fst (fst (@Mbox.delete Text index this)))
  end.

(** [ms] is the index of [file], up to the deleted flags. *)
Definition indexes (file : Buffer.t) (ms : list MboxMessage.t) : Prop :=
  map unmark ms = file_index file.

(** ** The helpers of the parser's tests *)

(** [createChunkedStream(content, chunkSize)] for a positive chunk size:
    the chunks that [read()] pushes, from the closure's [offset] on, until
    it pushes [null]. *)
Equations? createChunkedStream (buffer : Buffer.t) (chunkSize : positive)
    (offset : nat) : list Buffer.t
    by wf (length buffer - offset)%nat lt :=
  createChunkedStream buffer chunkSize offset
    with inspect (length buffer <=? offset)%nat := {
    | exist _ true _ => []
    | exist _ false Hmore =>
        let chunk :=
          Buffer.slice buffer offset (offset + Pos.to_nat chunkSize) in
        chunk ::
          createChunkedStream buffer chunkSize
            (offset + Pos.to_nat chunkSize)
    }.
Proof.
  apply Nat.leb_gt in Hmore. lia.
Qed.

(** [createReadableStream(content)]: the content in one piece; a stream in
    byte mode delivers no empty chunk. *)
Definition createReadableStream (content : Buffer.t) : list Buffer.t :=
  match content with
  | [] => []
  | _ => [content]
  end.

(** [parseBoundaries(content, chunkSize)]: [chunkSize] is [None] when it is
    left out; 0 is as good as left out.  The promise resolves to the
    boundaries collected, or rejects with the parser's error. *)
Definition parseBoundaries (content : Buffer.t) (chunkSize : option N)
  : list Z + Error :=
  let stream :=
    match chunkSize with
    | Some (Npos size) => createChunkedStream content size 0
    | _ => createReadableStream content
    end in
  let r := pipe (new_parser None) stream in
  match failure r with
  | Some err => inr err
  | None => inl (pushed r)
  end.

(** ** The line-based parser *)

Module MboxParser.

(** A JavaScript string, as the list of its characters. *)
Definition text : Type := list ascii.

Definition newline : ascii := ascii_of_nat 10.

(** The string ["From "]. *)
Definition From_ : text := list_ascii_of_string "From ".

(** What [MboxParser] throws or rejects with. *)
Inductive Failure : Type :=
| File_not_found
| NOT_AN_MBOX_FILE_file
| NOT_AN_MBOX_FILE_stream.

(** [s.startsWith(prefix)]. *)
Fixpoint startsWith (prefix s : text) : bool :=
  match prefix, s with
  | [], _ => true
  | _ :: _, [] => false
  | p :: prefix', c :: s' => Ascii.eqb p c && startsWith prefix' s'
  end.

(** [s.split("\n")]: the pieces between the newlines; never empty. *)
Fixpoint split (s : text) : list text :=
  match s with
  | [] => [[]]
  | c :: rest =>
      if Ascii.eqb c newline then [] :: split rest
      else match split rest with
           | piece :: pieces => (c :: piece) :: pieces
           | [] => [[c]]
           end
  end.

(** The variables of the two parsing loops. *)
Record State : Type := mkState {
  messages : list text;
  currentMessage : list text;
  isFirstLine : bool;
  isValidMbox : bool
}.

Definition initial : State :=
  {| messages := []; currentMessage := [];
     isFirstLine := true; isValidMbox := false |}.

(** What follows the first-line check in both loops: a line of a valid
    mbox closes the current message when it is a [From ] line, and joins
    the current message. *)
Definition take_line (st : State) (line : text) (isFromLine : bool)
  : State :=
  if negb (isValidMbox st) then st
  else
    let st :=
      if isFromLine && (0 <? length (currentMessage st))%nat then
        {| messages := messages st ++ [concat (currentMessage st)];
           currentMessage := [];
           isFirstLine := isFirstLine st;
           isValidMbox := isValidMbox st |}
      else st in
    {| messages := messages st;
       currentMessage := currentMessage st ++ [line];
       isFirstLine := isFirstLine st;
       isValidMbox := isValidMbox st |}.

(** The first-line check and the rest of a loop body, for a line that is
    not skipped: [None] when strict mode refuses the first line. *)
Definition body (strict : bool) (st : State) (line : text) : option State :=
  let isFromLine := startsWith From_ line in
  if isFirstLine st then
    if isFromLine then
      Some (take_line
              {| messages := messages st;
                 currentMessage := currentMessage st;
                 isFirstLine := false;
                 isValidMbox := true |} line isFromLine)
    else if strict then None
    else Some {| messages := messages st;
                 currentMessage := currentMessage st;
                 isFirstLine := false;
                 isValidMbox := false |}
  else Some (take_line st line isFromLine).

(** The loop of [parseContent] from index [i] on: [lines] is what is left
    of the array; every line but the last gets its newline back, and an
    empty line is skipped. *)
Fixpoint content_loop (strict : bool) (lines : list text) (st : State)
  : State + Failure :=
  match lines with
  | [] => inl st
  | l :: rest =>
      let line := match rest with
                  | [] => l
                  | _ :: _ => l ++ [newline]
                  end in
      match line with
      | [] => content_loop strict rest st
      | _ :: _ =>
          match body strict st line with
          | None => inr NOT_AN_MBOX_FILE_file
          | Some st' => content_loop strict rest st'
          end
      end
  end.

(** The last message, added when the loop is over. *)
Definition finish (st : State) : list text :=
  if (0 <? length (currentMessage st))%nat
  then messages st ++ [concat (currentMessage st)]
  else messages st.

(** [parseContent(content)] on the text of the content. *)
Definition parseText (strict : bool) (content : text)
  : list text + Failure :=
  match content_loop strict (split content) initial with
  | inl st => inl (finish st)
  | inr e => inr e
  end.

Section Decoding.

(** [buffer.toString()]. *)
Variable toString : Buffer.t -> text.

(** [parseContent(content)] for a string or a [Buffer]. *)
Definition parseContent (strict : bool) (content : text + Buffer.t)
  : list text + Failure :=
  parseText strict
    (match content with
     | inl s => s
     | inr buffer => toString buffer
     end).

(** [parseFile(filePath)]: [file] is the content of the file, if it
    exists. *)
Definition parseFile (strict : bool) (file : option Buffer.t)
  : list text + Failure :=
  match file with
  | None => inr File_not_found
  | Some content => parseContent strict (inr content)
  end.

(** [getMessageCount(filePath)]. *)
Definition getMessageCount (strict : bool) (file : option Buffer.t)
  : nat + Failure :=
  match parseFile strict file with
  | inl msgs => inl (length msgs)
  | inr e => inr e
  end.

(** The state of [parseStream]: the loop variables, the text not yet cut
    into lines, and the rejection, once there is one. *)
Record Streaming : Type := mkStreaming {
  vars : State;
  buffer : text;
  rejected_with : option Failure
}.

(** The [for] loop of the ['data'] handler over the complete lines; the
    flag tells that strict mode has rejected and the handler has returned,
    leaving the lines that follow unread. *)
Fixpoint data_loop (strict : bool) (lines : list text) (st : State)
  : State * bool :=
  match lines with
  | [] => (st, false)
  | line :: rest =>
      let fullLine := line ++ [newline] in
      match body strict st fullLine with
      | None =>
          ({| messages := messages st;
              currentMessage := currentMessage st;
              isFirstLine := false;
              isValidMbox := isValidMbox st |}, true)
      | Some st' => data_loop strict rest st'
      end
  end.

(** The ['data'] handler. *)
Definition on_data (strict : bool) (s : Streaming) (chunk : Buffer.t)
  : Streaming :=
  let buffer := buffer s ++ toString chunk in
  let lines := split buffer in
  let buffer := last lines [] in
  let lines := removelast lines in
  let (st, rejected) := data_loop strict lines (vars s) in
  {| vars := st;
     buffer := buffer;
     rejected_with :=
       match rejected_with s with
       | Some e => Some e
       | None => if rejected then Some NOT_AN_MBOX_FILE_stream else None
       end |}.

(** The ['end'] handler: the messages it resolves with. *)
Definition on_end (s : Streaming) : list text :=
  let st := vars s in
  let st :=
    match buffer s with
    | [] => st
    | _ :: _ =>
        let isFromLine := startsWith From_ (buffer s) in
        let st :=
          if isFromLine && (0 <? length (currentMessage st))%nat then
            {| messages := messages st ++ [concat (currentMessage st)];
               currentMessage := [];
               isFirstLine := isFirstLine st;
               isValidMbox := isValidMbox st |}
          else st in
        {| messages := messages st;
           currentMessage := currentMessage st ++ [buffer s];
           isFirstLine := isFirstLine st;
           isValidMbox := isValidMbox st |}
    end in
  finish st.

(** [parseStream(stream)] for a stream that delivers [chunks] and ends:
    what the promise settles to; the first of reject and resolve wins. *)
Definition parseStream (strict : bool) (chunks : list Buffer.t)
  : list text + Failure :=
  let s := fold_left (on_data strict) chunks
             {| vars := initial; buffer := []; rejected_with := None |} in
  match rejected_with s with
  | Some e => inr e
  | None => inl (on_end s)
  end.

End Decoding.

End MboxParser.

(** The lines of a text as the loop of [parseContent] sees them: every
    piece but the last with its newline. *)
Fixpoint with_newlines (pieces : list MboxParser.text)
  : list MboxParser.text :=
  match pieces with
  | [] => []
  | l :: rest =>
      match rest with
      | [] => [l]
      | _ :: _ => (l ++ [MboxParser.newline]) :: with_newlines rest
      end
  end.

Definition lines_of (s : MboxParser.text) : list MboxParser.text :=
  with_newlines (MboxParser.split s).

(** The lines that begin with the keyword. *)
Definition From_lines (s : MboxParser.text) : list MboxParser.text :=
  filter (MboxParser.startsWith MboxParser.From_) (lines_of s).

Definition ends_with (c : ascii) (s : MboxParser.text) : Prop :=
  exists front, s = front ++ [c].

(** The decoded text of a chunked stream. *)
Definition decoded (toString : Buffer.t -> MboxParser.text)
    (chunks : list Buffer.t) : MboxParser.text :=
  concat (map toString chunks).

(** The loop of [parseContent] as a run over the lines. *)
Fixpoint run_lines (strict : bool) (lines : list MboxParser.text)
    (st : MboxParser.State) : MboxParser.State + MboxParser.Failure :=
  match lines with
  | [] => inl st
  | [] :: rest => run_lines strict rest st
  | line :: rest =>
      match MboxParser.body strict st line with
      | None => inr MboxParser.NOT_AN_MBOX_FILE_file
      | Some st' => run_lines strict rest st'
      end
  end.

(** The loop is past its first line, in a valid mbox, with a message
    open. *)
Definition in_message (st : MboxParser.State) : Prop :=
  MboxParser.isFirstLine st = false /\ MboxParser.isValidMbox st = true /\
  MboxParser.currentMessage st <> [].

(** The text that [parseContent] works on. *)
Definition text_of (toString : Buffer.t -> MboxParser.text)
    (content : MboxParser.text + Buffer.t) : MboxParser.text :=
  match content with
  | inl s => s
  | inr buffer => toString buffer
  end.

(** What [parseStream] settles to, read off the whole text [s]: the
    ['data'] loop over all the complete lines, then the ['end'] handler on
    what follows the last newline. *)
Definition stream_settles (strict : bool) (s : MboxParser.text)
  : list MboxParser.text + MboxParser.Failure :=
  let (st, refused) :=
    MboxParser.data_loop strict (removelast (MboxParser.split s))
      MboxParser.initial in
  if refused then inr MboxParser.NOT_AN_MBOX_FILE_stream
  else inl (MboxParser.on_end
              {| MboxParser.vars := st;
                 MboxParser.buffer := last (MboxParser.split s) [];
                 MboxParser.rejected_with := None |}).

(** What ties the state of [parseStream] to the text [s] decoded so
    far. *)
Definition Streamed (strict : bool) (s : MboxParser.text)
    (state : MboxParser.Streaming) : Prop :=
  MboxParser.buffer state = last (MboxParser.split s) [] /\
  MboxParser.vars state =
    fst (MboxParser.data_loop strict (removelast (MboxParser.split s))
           MboxParser.initial) /\
  MboxParser.rejected_with state =
    if snd (MboxParser.data_loop strict (removelast (MboxParser.split s))
              MboxParser.initial)
    then Some MboxParser.NOT_AN_MBOX_FILE_stream else None.

(** [chunk.toString()] on a chunk of ASCII bytes: one character per
    byte. *)
Definition toString_ascii (chunk : Buffer.t) : MboxParser.text :=
  map ascii_of_byte chunk.

(** What the ['end'] handler of [parseStream] resolves with when the
    first line was not a [From ] line or was never complete: what follows
    the last newline, as one message. *)
Definition unterminated_tail (s : MboxParser.text) : list MboxParser.text :=
  match last (MboxParser.split s) [] with
  | [] => []
  | c :: rest => [c :: rest]
  end.

(** The text holds a newline, so the stream parser sees a complete
    line. *)
Definition has_newline (s : MboxParser.text) : bool :=
  existsb (fun c => Ascii.eqb c MboxParser.newline) s.

(** ** Searching a buffer *)

Lemma indexOf_scan_bounds value buf pos m :
  Buffer.indexOf_scan value buf pos = Some m ->
  (pos <= m <= pos + length buf)%nat.
Proof.
  revert pos; induction buf as [|b buf IH]; intros pos; simpl.
  - destruct (Buffer.occurs_here value []); [|discriminate].
    intros [= <-]; lia.
  - destruct (Buffer.occurs_here value (b :: buf)).
    + intros [= <-]; lia.
    + intros H; apply IH in H; lia.
Qed.

Lemma occurs_here_length value buf :
  Buffer.occurs_here value buf = true -> (length value <= length buf)%nat.
Proof.
  revert buf; induction value as [|v value IH]; intros [|b buf]; simpl;
    try lia; try discriminate.
  intros H; apply andb_prop in H as [_ H]; apply IH in H; lia.
Qed.

Lemma indexOf_scan_fits value buf pos m :
  Buffer.indexOf_scan value buf pos = Some m ->
  (m + length value <= pos + length buf)%nat.
Proof.
  revert pos; induction buf as [|b buf IH]; intros pos; simpl.
  - destruct (Buffer.occurs_here value []) eqn:E; [|discriminate].
    apply occurs_here_length in E. intros [= <-]; simpl in E; lia.
  - destruct (Buffer.occurs_here value (b :: buf)) eqn:E.
    + apply occurs_here_length in E. intros [= <-]; simpl in E; lia.
    + intros H; apply IH in H; lia.
Qed.

Lemma indexOf_DELIMITER_lt buf i m :
  Buffer.indexOf buf DELIMITER i = Some m -> (i <= m < length buf)%nat.
Proof.
  unfold Buffer.indexOf; intros H.
  pose proof (indexOf_scan_bounds _ _ _ _ H) as Hb.
  pose proof (indexOf_scan_fits _ _ _ _ H) as Hf.
  rewrite length_skipn in Hb, Hf. change (length DELIMITER) with 6%nat in Hf.
  lia.
Qed.

Lemma byte_eqb_eq (x y : byte) : Byte.eqb x y = true <-> x = y.
Proof. split; [apply Byte.byte_dec_bl | apply Byte.byte_dec_lb]. Qed.

Lemma occurs_here_firstn value buf :
  Buffer.occurs_here value buf = true <-> firstn (length value) buf = value.
Proof.
  revert buf; induction value as [|v value IH]; intros [|b buf]; simpl;
    try (split; [reflexivity || discriminate | reflexivity || discriminate]).
  rewrite andb_true_iff, IH, byte_eqb_eq.
  split.
  - intros [-> ->]; reflexivity.
  - intros [= -> ->]; auto.
Qed.

Lemma occurs_here_app value buf rest :
  (length value <= length buf)%nat ->
  Buffer.occurs_here value (buf ++ rest) = Buffer.occurs_here value buf.
Proof.
  intros Hlen. apply eq_true_iff_eq.
  rewrite !occurs_here_firstn, firstn_app.
  replace (length value - length buf)%nat with 0%nat by lia.
  simpl; rewrite app_nil_r; reflexivity.
Qed.

Lemma occurs_here_short value buf :
  (length buf < length value)%nat -> Buffer.occurs_here value buf = false.
Proof.
  intros Hlen. destruct (Buffer.occurs_here value buf) eqn:E; [|reflexivity].
  apply occurs_here_length in E; lia.
Qed.

Lemma indexOf_scan_Some value buf pos m :
  Buffer.indexOf_scan value buf pos = Some m ->
  exists j, m = (pos + j)%nat /\
    Buffer.occurs_here value (skipn j buf) = true /\
    forall j', (j' < j)%nat -> Buffer.occurs_here value (skipn j' buf) = false.
Proof.
  revert pos; induction buf as [|b buf IH]; intros pos; simpl.
  - destruct (Buffer.occurs_here value []) eqn:E; [|discriminate].
    intros [= <-]. exists 0%nat. repeat split; [lia | exact E | lia].
  - destruct (Buffer.occurs_here value (b :: buf)) eqn:E.
    + intros [= <-]. exists 0%nat. repeat split; [lia | exact E | lia].
    + intros H. apply IH in H as (j & -> & Hj & Hlt).
      exists (S j). repeat split; [lia | exact Hj |].
      intros [|j'] Hj'; [exact E | apply Hlt; lia].
Qed.

Lemma indexOf_scan_None value buf pos :
  Buffer.indexOf_scan value buf pos = None ->
  forall j, Buffer.occurs_here value (skipn j buf) = false.
Proof.
  revert pos; induction buf as [|b buf IH]; intros pos; simpl.
  - destruct (Buffer.occurs_here value []) eqn:E; [discriminate|].
    intros _ j. rewrite skipn_nil. exact E.
  - destruct (Buffer.occurs_here value (b :: buf)) eqn:E; [discriminate|].
    intros H [|j]; [exact E | exact (IH _ H j)].
Qed.

Lemma indexOf_Some buf i m :
  Buffer.indexOf buf DELIMITER i = Some m ->
  (i <= m < length buf)%nat /\ occ buf m = true /\
  forall j, (i <= j < m)%nat -> occ buf j = false.
Proof.
  intros H. split; [exact (indexOf_DELIMITER_lt _ _ _ H)|].
  unfold Buffer.indexOf in H.
  apply indexOf_scan_Some in H as (j & -> & Hj & Hlt).
  unfold occ. rewrite skipn_skipn in Hj. split.
  - rewrite Nat.add_comm; exact Hj.
  - intros j' Hj'. specialize (Hlt (j' - i)%nat ltac:(lia)).
    rewrite skipn_skipn in Hlt.
    replace (j' - i + i)%nat with j' in Hlt by lia. exact Hlt.
Qed.

Lemma indexOf_None buf i :
  Buffer.indexOf buf DELIMITER i = None ->
  forall j, (i <= j)%nat -> occ buf j = false.
Proof.
  intros H j Hj. unfold Buffer.indexOf in H.
  pose proof (indexOf_scan_None _ _ _ H (j - i)%nat) as Hn.
  rewrite skipn_skipn in Hn.
  replace (j - i + i)%nat with j in Hn by lia. exact Hn.
Qed.

Lemma filter_seq_nil (f : nat -> bool) i n :
  (forall j, (i <= j < i + n)%nat -> f j = false) ->
  filter f (seq i n) = [].
Proof.
  revert i; induction n as [|n IH]; intros i Hf; simpl; [reflexivity|].
  rewrite (Hf i) by lia. apply IH. intros j Hj; apply Hf; lia.
Qed.

Lemma filter_seq_first (f : nat -> bool) i n m :
  (i <= m < i + n)%nat -> f m = true ->
  (forall j, (i <= j < m)%nat -> f j = false) ->
  filter f (seq i n) = m :: filter f (seq (m + 1) (i + n - (m + 1))).
Proof.
  intros Hm Ht Hf.
  replace n with ((m - i) + S (i + n - (m + 1)))%nat at 1 by lia.
  rewrite seq_app, filter_app, filter_seq_nil.
  - replace (i + (m - i))%nat with m by lia. simpl. rewrite Ht.
    replace (m + 1)%nat with (S m) by lia. reflexivity.
  - intros j Hj; apply Hf; lia.
Qed.

(** The loop pushes one file position per occurrence, left to right. *)
Lemma search_loop_matches searchBuffer tailLength absOffset searchIndex :
  search_loop searchBuffer tailLength absOffset searchIndex =
  map (fun m => absOffset + (Z.of_nat m - Z.of_nat tailLength) + 1)
      (matches_from searchBuffer searchIndex).
Proof.
  funelim (search_loop searchBuffer tailLength absOffset searchIndex).
  - match goal with Hm : Buffer.indexOf _ _ _ = Some _ |- _ =>
      destruct (indexOf_Some _ _ _ Hm) as (Hb & Ht & Hf) end.
    match goal with IH : search_loop _ _ _ _ = map _ _ |- _ =>
      rewrite IH end.
    unfold matches_from.
    rewrite (filter_seq_first _ searchIndex _ matchIndex) by (auto; lia).
    replace (searchIndex + (length searchBuffer - searchIndex) - (matchIndex + 1))%nat
      with (length searchBuffer - (matchIndex + 1))%nat by lia.
    reflexivity.
  - match goal with Hm : Buffer.indexOf _ _ _ = None |- _ =>
      pose proof (indexOf_None _ _ Hm) as Hf end.
    unfold matches_from.
    rewrite filter_seq_nil; [reflexivity|].
    intros j Hj. apply Hf; lia.
Qed.

(** ** The first-bytes decision *)

Lemma equals_iff a b : Buffer.equals a b = true <-> a = b.
Proof.
  unfold Buffer.equals. destruct (Buffer.eq_dec a b); split;
    congruence || discriminate.
Qed.

Lemma startsWithFromLine_occurs buffer :
  startsWithFromLine buffer = Buffer.occurs_here DELIMITER_START buffer.
Proof.
  unfold startsWithFromLine, Buffer.slice.
  destruct (Nat.ltb_spec (length buffer) (length DELIMITER_START)) as [Hlt|Hge].
  - symmetry; apply occurs_here_short; exact Hlt.
  - apply eq_true_iff_eq. rewrite equals_iff, occurs_here_firstn.
    rewrite Nat.sub_0_r, skipn_O. reflexivity.
Qed.

Lemma undecided_iff bs :
  undecided bs = true <->
  (length bs < 5)%nat /\ firstn (length bs) DELIMITER_START = bs.
Proof.
  unfold undecided, Buffer.slice.
  rewrite andb_true_iff, Nat.ltb_lt, equals_iff, Nat.sub_0_r, skipn_O.
  reflexivity.
Qed.

Lemma undecided_app bs c : undecided (bs ++ c) = true -> undecided bs = true.
Proof.
  rewrite !undecided_iff, length_app. intros [Hlen Heq]. split; [lia|].
  apply (f_equal (firstn (length bs))) in Heq.
  rewrite firstn_firstn, firstn_app, Nat.sub_diag, firstn_all in Heq.
  simpl in Heq. rewrite app_nil_r in Heq.
  rewrite <- Heq at 2. f_equal. lia.
Qed.

Lemma undecided_not_starts bs : undecided bs = true -> startsWithFromLine bs = false.
Proof.
  rewrite undecided_iff, startsWithFromLine_occurs. intros [Hlen _].
  apply occurs_here_short. exact Hlen.
Qed.

Lemma startsWithFromLine_app bs c :
  undecided bs = false ->
  startsWithFromLine (bs ++ c) = startsWithFromLine bs.
Proof.
  intros Hu. rewrite !startsWithFromLine_occurs.
  destruct (Nat.lt_ge_cases (length bs) 5) as [Hlt|Hge].
  - rewrite (occurs_here_short _ bs) by exact Hlt.
    destruct (Buffer.occurs_here DELIMITER_START (bs ++ c)) eqn:E;
      [|reflexivity].
    apply occurs_here_firstn in E.
    assert (undecided bs = true) as Hc; [|congruence].
    apply undecided_iff. split; [exact Hlt|].
    rewrite <- E at 1. change (length DELIMITER_START) with 5%nat.
    rewrite firstn_firstn, firstn_app.
    replace (Nat.min (length bs) 5) with (length bs) by lia.
    rewrite Nat.sub_diag, firstn_all. simpl. apply app_nil_r.
  - apply occurs_here_app. exact Hge.
Qed.

Lemma rejected_app strictMode bs c :
  rejected strictMode bs = true -> rejected strictMode (bs ++ c) = true.
Proof.
  unfold rejected. rewrite !andb_true_iff, !negb_true_iff.
  intros [[Hs Hu] Hn]. repeat split; [exact Hs | |].
  - destruct (undecided (bs ++ c)) eqn:E; [|reflexivity].
    apply undecided_app in E; congruence.
  - rewrite startsWithFromLine_app; assumption.
Qed.

(** ** Occurrences across a chunk boundary *)

Lemma seq_shift_by d n :
  seq d n = map (fun m => (m + d)%nat) (seq 0 n).
Proof.
  revert d; induction n as [|n IH]; intros d; simpl; [reflexivity|].
  f_equal. rewrite (IH (S d)), (IH 1%nat), map_map.
  apply map_ext. intros m; lia.
Qed.

Lemma filter_map_comm {A B : Type} (f : B -> bool) (g : A -> B) l :
  filter f (map g l) = map g (filter (fun x => f (g x)) l).
Proof.
  induction l as [|x l IH]; simpl; [reflexivity|].
  destruct (f (g x)); simpl; rewrite IH; reflexivity.
Qed.

Lemma length_last_bytes n bs : length (last_bytes n bs) = Nat.min n (length bs).
Proof. unfold last_bytes. rewrite length_skipn. lia. Qed.

Lemma skipn_app_le {A : Type} n (l1 l2 : list A) :
  (n <= length l1)%nat -> skipn n (l1 ++ l2) = skipn n l1 ++ l2.
Proof.
  intros H. rewrite skipn_app.
  replace (n - length l1)%nat with 0%nat by lia. reflexivity.
Qed.

Lemma skipn_app_ge {A : Type} n (l1 l2 : list A) :
  (length l1 <= n)%nat -> skipn n (l1 ++ l2) = skipn (n - length l1) l2.
Proof.
  intros H. rewrite skipn_app, skipn_all2 by exact H. reflexivity.
Qed.

(** An occurrence in [bs ++ c] lies in [bs], or it starts in the last five
    bytes of [bs] and ends in [c]. *)
Lemma matches_app_tail bs c :
  matches (bs ++ c) =
  matches bs ++
  map (fun m => (m + (length bs - Nat.min 5 (length bs)))%nat)
      (matches (last_bytes 5 bs ++ c)).
Proof.
  unfold matches, matches_from. rewrite !Nat.sub_0_r.
  rewrite !length_app, length_last_bytes.
  pose proof (length_last_bytes 5 bs) as HT.
  remember (Nat.min 5 (length bs)) as t eqn:Ht.
  remember (length bs - t)%nat as d eqn:Hd.
  assert (length bs = d + t)%nat as Hbs by lia.
  assert (t <= 5 /\ (d = 0 \/ t = 5))%nat as Ht5 by lia.
  assert (last_bytes 5 bs = skipn d bs) as HTd
    by (unfold last_bytes; rewrite <- Ht, <- Hd; reflexivity).
  clear Ht Hd. rewrite Hbs.
  rewrite <- Nat.add_assoc, (seq_app d (t + length c)), (seq_app d t).
  rewrite !filter_app, !Nat.add_0_l.
  rewrite (filter_seq_nil (occ bs) d).
  - rewrite app_nil_r. f_equal.
    + apply filter_ext_in. intros p Hp. apply in_seq in Hp.
      unfold occ. rewrite skipn_app_le by lia.
      apply occurs_here_app. rewrite length_skipn.
      change (length DELIMITER) with 6%nat. lia.
    + rewrite (seq_shift_by d), filter_map_comm. f_equal.
      apply filter_ext. intros m. unfold occ. rewrite HTd.
      rewrite <- skipn_skipn, skipn_app_le by lia.
      reflexivity.
  - intros j Hj. unfold occ. apply occurs_here_short.
    rewrite length_skipn. change (length DELIMITER) with 6%nat. lia.
Qed.

Lemma last_bytes_app n bs c :
  last_bytes n (last_bytes n bs ++ c) = last_bytes n (bs ++ c).
Proof.
  unfold last_bytes at 1 3. rewrite !length_app, length_last_bytes.
  unfold last_bytes.
  remember (length bs - Nat.min n (length bs))%nat as d eqn:Hd.
  remember (length bs + length c
            - Nat.min n (length bs + length c))%nat as e eqn:He.
  replace e with ((e - d) + d)%nat by lia.
  rewrite <- skipn_skipn, (skipn_app_le d bs c) by lia.
  f_equal. lia.
Qed.

(** ** One call, and a run of calls *)

Lemma last_bytes_short n bs : (length bs <= n)%nat -> last_bytes n bs = bs.
Proof.
  intros H. unfold last_bytes.
  replace (length bs - Nat.min n (length bs))%nat with 0%nat by lia.
  reflexivity.
Qed.

Lemma matches_short bs : (length bs < 6)%nat -> matches bs = [].
Proof.
  intros H. unfold matches, matches_from. apply filter_seq_nil.
  intros j _. unfold occ. apply occurs_here_short.
  rewrite length_skipn. change (length DELIMITER) with 6%nat. lia.
Qed.

Lemma undecided_length bs : undecided bs = true -> (length bs < 5)%nat.
Proof. intros H; apply undecided_iff in H; tauto. Qed.

Lemma boundaries_undecided bs : undecided bs = true -> boundaries bs = [].
Proof.
  intros H. unfold boundaries.
  rewrite (undecided_not_starts _ H), matches_short; [reflexivity|].
  apply undecided_length in H; lia.
Qed.

(** The first-bytes check settles the question in the call where the bytes
    seen so far stop being a proper prefix of the keyword. *)
Lemma first_check_spec this searchBuffer :
  first_check this searchBuffer =
  if isFirstChunk this && negb (undecided searchBuffer) then
    if startsWithFromLine searchBuffer
    then Continue (set_isFirstChunk this false) [0]
    else if strict this
         then Return (set_isFirstChunk this false) not_from_line
         else Continue (set_isFirstChunk this false) []
  else Continue this [].
Proof.
  unfold first_check, undecided, startsWithFromLine.
  destruct (isFirstChunk this); [|reflexivity].
  rewrite Nat.leb_antisym.
  destruct (length searchBuffer <? length DELIMITER_START)%nat;
    cbn [andb negb].
  - destruct (Buffer.equals _ searchBuffer); reflexivity.
  - reflexivity.
Qed.

Lemma Inv_new strictMode : Inv strictMode [] (new_parser (Some strictMode)).
Proof.
  constructor; try reflexivity.
  unfold rejected. rewrite andb_false_r. reflexivity.
Qed.

Lemma push_positions bs k (a : Z) (d : nat) :
  a + 1 = Z.of_nat d + Z.of_nat k + 1 ->
  map (fun m => a + (Z.of_nat m - Z.of_nat k) + 1) (matches bs) =
  map (fun p => Z.of_nat p + 1) (map (fun m => (m + d)%nat) (matches bs)).
Proof.
  intros H. rewrite map_map. apply map_ext. intros m. lia.
Qed.

Lemma open_positions bs chunk :
  search_loop (bs ++ chunk) (length bs) (Z.of_nat (length bs)) 0 =
  map (fun p => Z.of_nat p + 1) (matches (bs ++ chunk)).
Proof.
  rewrite search_loop_matches. fold (matches (bs ++ chunk)).
  apply map_ext. intros m; lia.
Qed.

Ltac proj_simpl :=
  cbn [after pushed failure absoluteOffset tail isFirstChunk strict
       set_isFirstChunk andb negb].

(** One call of [_transform] on a parser that has consumed [bs]. *)
Lemma _transform_step strictMode bs this chunk :
  Inv strictMode bs this ->
  if rejected strictMode (bs ++ chunk) then
    failure (_transform this chunk) = Some not_from_line /\
    pushed (_transform this chunk) = [] /\
    undecided bs = true /\
    tail (after (_transform this chunk)) = tail this
  else
    failure (_transform this chunk) = None /\
    Inv strictMode (bs ++ chunk) (after (_transform this chunk)) /\
    boundaries bs ++ pushed (_transform this chunk) =
      boundaries (bs ++ chunk).
Proof.
  destruct this as [abs tl first st].
  intros [Hoff Htail Hfirst Hstrict Hacc]; cbn [absoluteOffset tail isFirstChunk strict] in *.
  subst abs tl first st.
  unfold _transform, Buffer.concat2. rewrite first_check_spec. proj_simpl.
  destruct (undecided bs) eqn:Hu; proj_simpl.
  - (* the question was open: the tail is all of [bs] *)
    pose proof (undecided_length _ Hu) as Hlen.
    rewrite last_bytes_short by lia.
    rewrite (boundaries_undecided _ Hu).
    unfold rejected at 1, boundaries.
    destruct (undecided (bs ++ chunk)) eqn:Hu'; proj_simpl.
    + (* still open after this chunk *)
      rewrite andb_false_r, (undecided_not_starts _ Hu'). cbn [andb app].
      split; [reflexivity|]. split; [|apply open_positions].
      constructor; proj_simpl.
      * rewrite length_app; lia.
      * apply undecided_length in Hu'.
        change (length DELIMITER_START) with 5%nat.
        unfold Buffer.slice. rewrite skipn_O, firstn_all2 by lia.
        symmetry; apply last_bytes_short; lia.
      * symmetry; exact Hu'.
      * reflexivity.
      * unfold rejected. rewrite Hu', andb_false_r. reflexivity.
    + (* settled by this chunk *)
      rewrite andb_true_r.
      destruct (startsWithFromLine (bs ++ chunk)) eqn:Hs;
        [|destruct strictMode]; proj_simpl; cbn [app].
      * rewrite andb_false_r.
        split; [reflexivity|]. split; [|f_equal; apply open_positions].
        constructor; proj_simpl; try reflexivity.
        -- rewrite length_app; lia.
        -- symmetry; exact Hu'.
        -- unfold rejected. rewrite Hs, andb_false_r. reflexivity.
      * repeat split.
      * split; [reflexivity|]. split; [|apply open_positions].
        constructor; proj_simpl; try reflexivity.
        -- rewrite length_app; lia.
        -- symmetry; exact Hu'.
  - (* steady state *)
    assert (undecided (bs ++ chunk) = false) as Hu'.
    { destruct (undecided (bs ++ chunk)) eqn:E; [|reflexivity].
      apply undecided_app in E; congruence. }
    assert (rejected strictMode (bs ++ chunk) = false) as Hacc'.
    { unfold rejected in *.
      rewrite Hu', startsWithFromLine_app by exact Hu.
      rewrite Hu in Hacc. exact Hacc. }
    rewrite Hacc'. cbn [app]. split; [reflexivity|]. split.
    + constructor; proj_simpl; try reflexivity.
      * rewrite length_app; lia.
      * apply (last_bytes_app 5).
      * symmetry; exact Hu'.
      * exact Hacc'.
    + unfold boundaries.
      rewrite startsWithFromLine_app by exact Hu.
      rewrite <- app_assoc. f_equal.
      rewrite matches_app_tail, map_app. f_equal.
      rewrite search_loop_matches. fold (matches (last_bytes 5 bs ++ chunk)).
      apply push_positions. rewrite length_last_bytes. lia.
Qed.

Lemma rejected_steady strictMode bs c :
  undecided bs = false ->
  rejected strictMode (bs ++ c) = rejected strictMode bs.
Proof.
  intros Hu. unfold rejected.
  rewrite startsWithFromLine_app, Hu by exact Hu.
  destruct (undecided (bs ++ c)) eqn:E; [|reflexivity].
  apply undecided_app in E; congruence.
Qed.

(** A run of [_transform] calls on a parser that has consumed [bs]. *)
Lemma write_all_spec strictMode chunks : forall bs this,
  Inv strictMode bs this ->
  if rejected strictMode (bs ++ concat chunks) then
    failure (write_all this chunks) = Some not_from_line /\
    pushed (write_all this chunks) = [] /\
    isFirstChunk (after (write_all this chunks)) = false /\
    (length (tail (after (write_all this chunks))) < 5)%nat
  else
    failure (write_all this chunks) = None /\
    Inv strictMode (bs ++ concat chunks) (after (write_all this chunks)) /\
    boundaries bs ++ pushed (write_all this chunks) =
      boundaries (bs ++ concat chunks).
Proof.
  induction chunks as [|chunk rest IH]; intros bs this HI.
  - simpl. rewrite !app_nil_r, (inv_accepted _ _ _ HI). auto.
  - cbn [concat write_all]. rewrite app_assoc.
    pose proof (_transform_step _ _ _ chunk HI) as Hstep.
    destruct (rejected strictMode (bs ++ chunk)) eqn:Hr.
    + rewrite (rejected_app _ _ _ Hr).
      destruct Hstep as (Hf & Hp & Hu & Ht). rewrite Hf.
      repeat split; try assumption.
      * unfold _transform in *. rewrite first_check_spec in *.
        destruct (isFirstChunk this && _);
          [destruct (startsWithFromLine _); [discriminate|];
           destruct (strict this); [reflexivity | discriminate]
          | discriminate].
      * rewrite Ht, (inv_tail _ _ _ HI), length_last_bytes.
        apply undecided_length in Hu. lia.
    + destruct Hstep as (Hf & HI' & Hb). rewrite Hf.
      specialize (IH _ _ HI'). proj_simpl.
      destruct (rejected strictMode ((bs ++ chunk) ++ concat rest)) eqn:Hr'.
      * destruct IH as (Hf' & Hp' & Hfirst' & Ht'). rewrite Hp', app_nil_r.
        repeat split; try assumption.
        destruct (undecided (bs ++ chunk)) eqn:Hu.
        -- rewrite (boundaries_undecided _ Hu) in Hb.
           apply app_eq_nil in Hb; tauto.
        -- rewrite rejected_steady in Hr' by exact Hu. congruence.
      * destruct IH as (Hf' & HI'' & Hb').
        split; [assumption|]. split; [assumption|].
        rewrite app_assoc, Hb. exact Hb'.
Qed.

(** The chunked scan of a fresh parser computes [expected] of the bytes. *)
Lemma scan_expected strictMode chunks :
  scan strictMode chunks = expected strictMode (concat chunks).
Proof.
  unfold scan, pipe, expected.
  pose proof (write_all_spec strictMode chunks [] _ (Inv_new strictMode)) as H.
  cbn [app] in H.
  destruct (rejected strictMode (concat chunks)).
  - destruct H as (Hf & Hp & _). rewrite Hf. cbv beta iota zeta.
    rewrite Hf, Hp. reflexivity.
  - destruct H as (Hf & _ & Hb). rewrite Hf. proj_simpl.
    unfold _flush; proj_simpl. rewrite app_nil_r. f_equal.
    rewrite <- Hb. unfold boundaries. reflexivity.
Qed.

(** ** The reference, in the specification's words *)

Lemma startsWithFromLine_iff bs :
  startsWithFromLine bs = true <-> firstn 5 bs = DELIMITER_START.
Proof. rewrite startsWithFromLine_occurs. apply occurs_here_firstn. Qed.

Lemma startsWithFromLine_false bs :
  startsWithFromLine bs = false <-> firstn 5 bs <> DELIMITER_START.
Proof.
  rewrite <- startsWithFromLine_iff.
  destruct (startsWithFromLine bs); split; congruence.
Qed.

Lemma undecided_prefix bs :
  undecided bs = true <->
  (length bs < 5)%nat /\ is_prefix_of bs DELIMITER_START.
Proof.
  rewrite undecided_iff. split; intros [Hlen H]; (split; [exact Hlen|]).
  - exists (skipn (length bs) DELIMITER_START).
    pose proof (firstn_skipn (length bs) DELIMITER_START) as Hfs.
    rewrite H in Hfs. symmetry; exact Hfs.
  - destruct H as [r Hr]. rewrite Hr, firstn_app, Nat.sub_diag, firstn_all.
    apply app_nil_r.
Qed.

Lemma rejected_iff strictMode bs :
  rejected strictMode bs = true <->
  strictMode = true /\ mismatch_evident bs.
Proof.
  unfold rejected, mismatch_evident.
  rewrite !andb_true_iff, !negb_true_iff, startsWithFromLine_false.
  assert (undecided bs = false <->
          (5 <= length bs)%nat \/ ~ is_prefix_of bs DELIMITER_START) as Hu.
  { destruct (undecided bs) eqn:E.
    - apply undecided_prefix in E. split; [discriminate|].
      intros [H|H]; [lia | tauto].
    - split; [intros _|reflexivity].
      destruct (Nat.lt_ge_cases (length bs) 5) as [Hlt|Hge]; [|auto].
      right. intros Hp.
      assert (undecided bs = true) by (apply undecided_prefix; auto).
      congruence. }
  rewrite Hu. tauto.
Qed.

Lemma in_boundaries b bs :
  In b (boundaries bs) <->
  (b = 0 /\ startsWithFromLine bs = true) \/
  (exists p, b = Z.of_nat p + 1 /\ occ bs p = true).
Proof.
  unfold boundaries. rewrite in_app_iff, in_map_iff. split.
  - intros [H|(p & <- & Hp)].
    + destruct (startsWithFromLine bs); [|contradiction].
      destruct H as [<-|[]]. auto.
    + right. exists p. split; [reflexivity|].
      unfold matches, matches_from in Hp. apply filter_In in Hp. tauto.
  - intros [[-> Hs]|(p & -> & Hp)].
    + rewrite Hs. left; left; reflexivity.
    + right. exists p. split; [reflexivity|].
      unfold matches, matches_from. apply filter_In. split; [|exact Hp].
      apply in_seq. unfold occ in Hp. apply occurs_here_length in Hp.
      rewrite length_skipn in Hp. change (length DELIMITER) with 6%nat in Hp.
      lia.
Qed.

(** ** Chunking invariance *)

(** C1. Chunking invariance: two ways of cutting the same bytes into chunks
    (of any sizes, empty ones included), fed to fresh parsers with the same
    strict flag, give the same list of boundary offsets and the same
    outcome, error or success. *)
Theorem chunking_invariance (strictMode : bool)
    (chunks1 chunks2 : list Buffer.t) :
  concat chunks1 = concat chunks2 ->
  scan strictMode chunks1 = scan strictMode chunks2.
Proof.
  intros Hsame. rewrite !scan_expected, Hsame. reflexivity.
Qed.

Lemma chunking_invariance_witness :
  concat (chunks_of 1 100 not_an_mbox) =
    concat ([] :: chunks_of 7 100 not_an_mbox) /\
  scan true (chunks_of 1 100 not_an_mbox) =
    scan true ([] :: chunks_of 7 100 not_an_mbox) /\
  scan false (chunks_of 1 100 not_an_mbox) =
    scan false ([] :: chunks_of 7 100 not_an_mbox).
Proof.
  split; [reflexivity|].
  split; apply chunking_invariance; reflexivity.
Defined.

(** ** The worked example *)

(** C2, as the specification words it, fails: the second boundary of the
    worked example is 35, the length of its first message, and not 41. *)
Lemma worked_example_not_41 :
  concat [worked_example] = worked_example /\
  scan false [worked_example] = ([0; 35], None) /\
  fst (scan false [worked_example]) <> [0; 41].
Proof.
  split; [reflexivity|]. split; [reflexivity|].
  vm_compute. discriminate.
Qed.

(** C2, amended. Scanning the worked example in non-strict mode, under any
    chunking, yields exactly the boundary offsets 0 and 35 and no error; 35
    is the byte length of the first message through the newline that
    precedes the second [From ]. *)
Theorem worked_example_boundaries (chunks : list Buffer.t) :
  concat chunks = worked_example ->
  scan false chunks = ([0; Z.of_nat (length first_message)], None) /\
  Z.of_nat (length first_message) = 35.
Proof.
  intros Hbytes. rewrite scan_expected, Hbytes. split; reflexivity.
Qed.

Lemma worked_example_boundaries_witness :
  concat (chunks_of 4 100 worked_example) = worked_example /\
  scan false (chunks_of 4 100 worked_example) = ([0; 35], None).
Proof.
  split; [reflexivity|].
  apply (worked_example_boundaries (chunks_of 4 100 worked_example)).
  reflexivity.
Defined.

(** ** The boundary at offset 0 *)

(** C3. Offset-zero case: a stream whose first five bytes are [From ] gets a
    boundary at offset 0, the first one emitted, in either mode; a stream of
    at least five bytes that begins otherwise gets no boundary at offset 0 in
    non-strict mode, and the validation error instead in strict mode. *)
Theorem offset_zero_case (strictMode : bool) (chunks : list Buffer.t) :
  (firstn 5 (concat chunks) = Buffer.from "From " ->
     exists later, scan strictMode chunks = (0 :: later, None)) /\
  ((5 <= length (concat chunks))%nat ->
   firstn 5 (concat chunks) <> Buffer.from "From " ->
     ~ In 0 (fst (scan false chunks)) /\
     snd (scan false chunks) = None /\
     scan true chunks = ([], Some not_from_line)).
Proof.
  rewrite !scan_expected. unfold expected, rejected. split.
  - intros Hfrom. apply startsWithFromLine_iff in Hfrom.
    unfold boundaries. rewrite Hfrom, andb_false_r.
    eexists; reflexivity.
  - intros Hlen Hother. apply startsWithFromLine_false in Hother.
    assert (undecided (concat chunks) = false) as Hu.
    { destruct (undecided (concat chunks)) eqn:E; [|reflexivity].
      apply undecided_length in E; lia. }
    rewrite Hu, Hother. cbn [andb negb fst snd].
    split; [|split; reflexivity].
    rewrite in_boundaries. intros [[_ Hs]|(p & Hp & _)]; [congruence | lia].
Qed.

Lemma offset_zero_case_witness :
  (firstn 5 (concat (chunks_of 2 100 worked_example)) = Buffer.from "From " /\
   exists later,
     scan true (chunks_of 2 100 worked_example) = (0 :: later, None)) /\
  ((5 <= length (concat (chunks_of 2 100 not_an_mbox)))%nat /\
   firstn 5 (concat (chunks_of 2 100 not_an_mbox)) <> Buffer.from "From " /\
   ~ In 0 (fst (scan false (chunks_of 2 100 not_an_mbox))) /\
   snd (scan false (chunks_of 2 100 not_an_mbox)) = None /\
   scan true (chunks_of 2 100 not_an_mbox) = ([], Some not_from_line)).
Proof.
  split.
  - split; [reflexivity|].
    apply (offset_zero_case true (chunks_of 2 100 worked_example)).
    reflexivity.
  - assert (5 <= length (concat (chunks_of 2 100 not_an_mbox)))%nat as Hlen
      by (vm_compute; lia).
    assert (firstn 5 (concat (chunks_of 2 100 not_an_mbox)) <>
            Buffer.from "From ") as Hother by (vm_compute; discriminate).
    split; [exact Hlen|]. split; [exact Hother|].
    exact (proj2 (offset_zero_case false (chunks_of 2 100 not_an_mbox))
                 Hlen Hother).
Defined.

(** ** Strict-mode validation *)

(** C4. Strict-mode validation: the scan ends in an error exactly when the
    mode is strict and the leading bytes evidently fail to match [From ];
    the error is the validation error, and no boundary offset comes with
    it; it is called back by the [_transform] call whose chunk makes the
    mismatch evident, every earlier call having succeeded and pushed
    nothing. *)
Theorem strict_validation (strictMode : bool) (chunks : list Buffer.t) :
  (snd (scan strictMode chunks) <> None <->
     strictMode = true /\ mismatch_evident (concat chunks)) /\
  (forall e, snd (scan strictMode chunks) = Some e ->
     e = not_from_line /\ fst (scan strictMode chunks) = []) /\
  (forall before chunk later,
     chunks = before ++ chunk :: later ->
     strictMode = true ->
     ~ mismatch_evident (concat before) ->
     mismatch_evident (concat before ++ chunk) ->
     let r := write_all (new_parser (Some true)) before in
     failure r = None /\ pushed r = [] /\
     failure (_transform (after r) chunk) = Some not_from_line /\
     pushed (_transform (after r) chunk) = []).
Proof.
  split; [|split].
  - rewrite scan_expected, <- rejected_iff. unfold expected.
    destruct (rejected strictMode (concat chunks)); cbn [snd];
      split; congruence.
  - intros e. rewrite scan_expected. unfold expected.
    destruct (rejected strictMode (concat chunks)); cbn [fst snd];
      [|discriminate].
    intros [= <-]. auto.
  - intros before chunk later _ _ Hnot Hev r.
    pose proof (write_all_spec true before [] _ (Inv_new true)) as Hpre.
    cbn [app] in Hpre. fold r in Hpre.
    destruct (rejected true (concat before)) eqn:Hr.
    + apply rejected_iff in Hr. tauto.
    + destruct Hpre as (Hf & HI & Hb).
      pose proof (_transform_step true _ _ chunk HI) as Hstep.
      rewrite (proj2 (rejected_iff true _) (conj eq_refl Hev)) in Hstep.
      destruct Hstep as (Hf' & Hp' & Hu & _).
      rewrite (boundaries_undecided _ Hu) in Hb.
      unfold boundaries in Hb. cbn [app] in Hb.
      rewrite matches_short in Hb by (simpl; lia).
      auto.
Qed.

Lemma strict_validation_witness :
  snd (scan true [Buffer.from "Fr"; Buffer.from "om"; Buffer.from "age"])
    <> None /\
  let r := write_all (new_parser (Some true))
             [Buffer.from "Fr"; Buffer.from "om"] in
  failure r = None /\ pushed r = [] /\
  failure (_transform (after r) (Buffer.from "age")) = Some not_from_line /\
  pushed (_transform (after r) (Buffer.from "age")) = [].
Proof.
  pose proof (strict_validation true
    [Buffer.from "Fr"; Buffer.from "om"; Buffer.from "age"]) as (Hiff & _ & Hcall).
  assert (mismatch_evident (Buffer.from "Fromage")) as Hev.
  { split; [vm_compute; discriminate | left; vm_compute; lia]. }
  split.
  - apply Hiff. split; [reflexivity | exact Hev].
  - apply (Hcall [Buffer.from "Fr"; Buffer.from "om"] (Buffer.from "age") []);
      [reflexivity | reflexivity | | exact Hev].
    intros [_ [Hlen|Hpre]].
    + vm_compute in Hlen. lia.
    + apply Hpre. exists (Buffer.from " "). reflexivity.
Defined.

(** ** Occurrences that are not boundaries *)

Lemma occ_newline bs p :
  occ bs p = true ->
  nth_error bs p = Some nl /\
  firstn 5 (skipn (p + 1) bs) = DELIMITER_START.
Proof.
  unfold occ. rewrite occurs_here_firstn. intros H.
  rewrite <- (Nat.add_0_r p) at 1.
  rewrite <- nth_error_skipn, Nat.add_comm, <- skipn_skipn.
  destruct (skipn p bs) as [|x rest]; [discriminate|].
  change (length DELIMITER) with 6%nat in H.
  rewrite firstn_cons in H. injection H as -> H.
  split; [reflexivity | exact H].
Qed.

Lemma escaped_line_no_occ rest j :
  (j + 1 < length escaped_line)%nat ->
  Buffer.occurs_here DELIMITER (skipn j (escaped_line ++ rest)) = false.
Proof.
  intros Hj. change (length escaped_line) with 14%nat in Hj.
  do 13 (destruct j as [|j]; [reflexivity|]). lia.
Qed.

(** C5. False-positive exclusion: an occurrence of [From ] at a position
    that is not 0 and does not follow a newline byte is never emitted as a
    boundary, in either mode and under any chunking; in particular no
    boundary falls on a byte of an escaped line [>From someone], wherever
    it stands in the stream. *)
Theorem false_positive_exclusion (strictMode : bool)
    (chunks : list Buffer.t) :
  (forall q : nat,
     firstn 5 (skipn q (concat chunks)) = Buffer.from "From " ->
     q <> 0%nat ->
     nth_error (concat chunks) (q - 1) <> Some nl ->
     ~ In (Z.of_nat q) (fst (scan strictMode chunks))) /\
  (forall above below : Buffer.t,
     concat chunks = above ++ escaped_line ++ below ->
     forall b, In b (fst (scan strictMode chunks)) ->
     ~ (Z.of_nat (length above) <= b
        < Z.of_nat (length above) + Z.of_nat (length escaped_line))).
Proof.
  rewrite scan_expected. unfold expected.
  destruct (rejected strictMode (concat chunks)); cbn [fst];
    [split; intros; intros []; contradiction|].
  split.
  - intros q _ Hq Hprev Hin. apply in_boundaries in Hin.
    destruct Hin as [[H0 _]|(p & Hp & Hocc)]; [lia|].
    apply occ_newline in Hocc as [Hnl _].
    replace (q - 1)%nat with p in Hprev by lia. contradiction.
  - intros above below Hbytes b Hin Hrange.
    change (length escaped_line) with 14%nat in Hrange.
    assert (firstn 5 (skipn (length above) (concat chunks))
            <> DELIMITER_START) as Hquote.
    { rewrite Hbytes, skipn_app, skipn_all, Nat.sub_diag. discriminate. }
    apply in_boundaries in Hin.
    destruct Hin as [[H0 Hs]|(p & Hp & Hocc)].
    + apply startsWithFromLine_iff in Hs.
      replace (length above) with 0%nat in Hquote by lia.
      contradiction.
    + destruct (Nat.lt_ge_cases p (length above)) as [Hlt|Hge].
      * apply occ_newline in Hocc as [_ Hfrom].
        replace (p + 1)%nat with (length above) in Hfrom by lia.
        contradiction.
      * unfold occ in Hocc. rewrite Hbytes in Hocc.
        rewrite skipn_app_ge in Hocc by exact Hge.
        rewrite escaped_line_no_occ in Hocc; [discriminate|].
        change (length escaped_line) with 14%nat. lia.
Qed.

Lemma false_positive_exclusion_witness :
  let body := Buffer.from "From a@x" ++ bytes_nl ++
              Buffer.from "Mail From me" ++ bytes_nl ++
              escaped_line ++ Buffer.from "From b@x" ++ bytes_nl in
  ~ In 14 (fst (scan false (chunks_of 3 100 body))) /\
  (forall b, In b (fst (scan false (chunks_of 3 100 body))) ->
     ~ (22 <= b < 22 + 14)).
Proof.
  intros body.
  pose proof (false_positive_exclusion false (chunks_of 3 100 body))
    as [Hmid Hesc].
  split.
  - apply (Hmid 14%nat); [reflexivity | lia | vm_compute; discriminate].
  - apply (Hesc (Buffer.from "From a@x" ++ bytes_nl ++
                 Buffer.from "Mail From me" ++ bytes_nl)
                (Buffer.from "From b@x" ++ bytes_nl)).
    reflexivity.
Defined.

(** ** Concatenated messages *)

Lemma occ_contains m p : occ m p = true -> contains_delimiter m.
Proof.
  unfold occ. rewrite occurs_here_firstn. intros H.
  exists (firstn p m), (skipn (length DELIMITER) (skipn p m)).
  rewrite <- H at 1. rewrite firstn_skipn, firstn_skipn. reflexivity.
Qed.

Lemma contains_occ m pre post :
  m = pre ++ DELIMITER ++ post -> occ m (length pre) = true.
Proof.
  intros ->. unfold occ. rewrite skipn_app, skipn_all, Nat.sub_diag.
  apply occurs_here_firstn. reflexivity.
Qed.

(** A byte string without occurrences holds no delimiter: a check that
    runs. *)
Lemma matches_nil_none m : matches m = [] -> ~ contains_delimiter m.
Proof.
  intros Hnil (pre & post & Hm).
  pose proof (contains_occ _ _ _ Hm) as Hocc.
  assert (In (length pre) (matches m)) as Hin; [|rewrite Hnil in Hin; exact Hin].
  unfold matches, matches_from. apply filter_In. split; [|exact Hocc].
  apply in_seq. rewrite Hm, length_app. simpl. lia.
Qed.

Lemma occurs_here_newline_inside (X Y : Buffer.t) :
  (0 < length X < 6)%nat ->
  Buffer.occurs_here DELIMITER (X ++ nl :: Y) = false.
Proof.
  intros HX.
  pose (D := DELIMITER). change DELIMITER with D.
  vm_compute in D. subst D.
  destruct X as [|x1 [|x2 [|x3 [|x4 [|x5 [|x6 X]]]]]]; simpl in HX; try lia;
    cbn [app Buffer.occurs_here];
    repeat match goal with
           | |- context [Byte.eqb ?a ?b] =>
               let c := eval vm_compute in (Byte.eqb a b) in
               match c with
               | false => change (Byte.eqb a b) with false
               end
           end;
    cbn [andb]; rewrite ?andb_false_r; reflexivity.
Qed.

(** The occurrences in [front ++ [nl] ++ next] when [front ++ [nl]] holds no
    delimiter and [next] begins with the keyword: one at the seam, then
    those of [next]. *)
Lemma matches_app_messages (front next : Buffer.t) :
  ~ contains_delimiter (front ++ bytes_nl) ->
  firstn 5 next = DELIMITER_START ->
  matches ((front ++ bytes_nl) ++ next) =
  length front ::
    map (fun p => (p + length (front ++ bytes_nl))%nat) (matches next).
Proof.
  intros Hnone Hfrom. unfold matches, matches_from. rewrite !Nat.sub_0_r.
  assert (length (front ++ bytes_nl) = S (length front)) as HA
    by (rewrite length_app; simpl; lia).
  assert (forall j, skipn j ((front ++ bytes_nl) ++ next) =
                    skipn j (front ++ nl :: next)) as Hseam
    by (intros j; rewrite <- app_assoc; reflexivity).
  remember (front ++ bytes_nl) as A eqn:EA.
  rewrite length_app, HA.
  replace (S (length front) + length next)%nat
    with (length front + S (length next))%nat by lia.
  rewrite seq_app, filter_app, Nat.add_0_l.
  rewrite (filter_seq_nil _ 0 (length front)).
  - cbn [app seq filter].
    replace (occ (A ++ next) (length front)) with true.
    + f_equal.
      rewrite (seq_shift_by (S (length front))), filter_map_comm.
      f_equal. apply filter_ext. intros m. unfold occ.
      rewrite skipn_app_ge by lia. do 2 f_equal. lia.
    + symmetry. unfold occ.
      rewrite Hseam, skipn_app, skipn_all, Nat.sub_diag.
      cbn [app skipn Buffer.occurs_here DELIMITER].
      rewrite (proj2 (byte_eqb_eq nl nl) eq_refl). cbn [andb].
      apply occurs_here_firstn. exact Hfrom.
  - intros j Hj.
    destruct (occ (A ++ next) j) eqn:E; [|reflexivity].
    exfalso. unfold occ in E.
    destruct (Nat.le_gt_cases (j + 6) (S (length front))) as [Hin|Hout].
    + rewrite skipn_app_le in E by lia.
      rewrite occurs_here_app in E
        by (rewrite length_skipn; change (length DELIMITER) with 6%nat; lia).
      apply Hnone. exact (occ_contains _ j E).
    + rewrite Hseam, skipn_app_le in E by lia.
      rewrite occurs_here_newline_inside in E; [discriminate|].
      rewrite length_skipn. lia.
Qed.

Lemma matches_none m : ~ contains_delimiter m -> matches m = [].
Proof.
  intros Hnone. unfold matches, matches_from. apply filter_seq_nil.
  intros j _. destruct (occ m j) eqn:E; [|reflexivity].
  exfalso. apply Hnone. exact (occ_contains _ _ E).
Qed.

(** C6. Concatenation offset math: for three messages that each begin with
    [From ], each end with a newline and none hold newline, [From ] inside,
    scanning their concatenation, in either mode and under any chunking,
    yields exactly the offsets 0, [len m1] and [len m1 + len m2], in that
    order, and no error. *)
Theorem concatenation_offsets (strictMode : bool) (m1 m2 m3 : Buffer.t)
    (chunks : list Buffer.t) :
  (forall m, In m [m1; m2; m3] ->
     firstn 5 m = Buffer.from "From " /\
     (exists front, m = front ++ bytes_nl) /\
     ~ contains_delimiter m) ->
  concat chunks = m1 ++ m2 ++ m3 ->
  scan strictMode chunks =
    ([0; Z.of_nat (length m1); Z.of_nat (length m1) + Z.of_nat (length m2)],
     None).
Proof.
  intros Hall Hbytes.
  destruct (Hall m1 ltac:(simpl; auto)) as (Hf1 & (f1 & ->) & Hn1).
  destruct (Hall m2 ltac:(simpl; auto)) as (Hf2 & (f2 & ->) & Hn2).
  destruct (Hall m3 ltac:(simpl; auto)) as (Hf3 & _ & Hn3).
  assert (firstn 5 ((f2 ++ bytes_nl) ++ m3) = DELIMITER_START) as Hf23.
  { apply startsWithFromLine_iff. rewrite startsWithFromLine_app.
    - apply startsWithFromLine_iff; exact Hf2.
    - destruct (undecided (f2 ++ bytes_nl)) eqn:E; [|reflexivity].
      apply undecided_not_starts in E.
      apply startsWithFromLine_iff in Hf2. congruence. }
  assert (startsWithFromLine ((f1 ++ bytes_nl) ++ (f2 ++ bytes_nl) ++ m3)
          = true) as Hs.
  { rewrite startsWithFromLine_app.
    - apply startsWithFromLine_iff; exact Hf1.
    - destruct (undecided (f1 ++ bytes_nl)) eqn:E; [|reflexivity].
      apply undecided_not_starts in E.
      apply startsWithFromLine_iff in Hf1. congruence. }
  rewrite scan_expected, Hbytes. unfold expected, rejected, boundaries.
  rewrite Hs, andb_false_r.
  rewrite (matches_app_messages f1) by assumption.
  rewrite (matches_app_messages f2) by assumption.
  rewrite (matches_none m3) by assumption.
  cbn [map app]. rewrite !length_app. cbn [length bytes_nl].
  rewrite !Nat2Z.inj_add. cbn [Z.of_nat Pos.of_succ_nat].
  replace (Z.of_nat (length f2) + (Z.of_nat (length f1) + 1) + 1)
    with (Z.of_nat (length f1) + 1 + (Z.of_nat (length f2) + 1)) by lia.
  reflexivity.
Qed.

Lemma concatenation_offsets_witness :
  scan true (chunks_of 5 100 (first_message ++ second_message ++ first_message))
  = ([0; 35; 35 + 27], None).
Proof.
  apply (concatenation_offsets true first_message second_message first_message).
  - intros m [<-|[<-|[<-|[]]]].
    + split; [reflexivity|]. split; [|apply matches_nil_none; reflexivity].
      exists (firstn 34 first_message). reflexivity.
    + split; [reflexivity|]. split; [|apply matches_nil_none; reflexivity].
      exists (firstn 26 second_message). reflexivity.
    + split; [reflexivity|]. split; [|apply matches_nil_none; reflexivity].
      exists (firstn 34 first_message). reflexivity.
  - reflexivity.
Defined.

(** ** Order of the emitted offsets *)

Lemma sorted_seq a n : StronglySorted lt (seq a n).
Proof.
  revert a; induction n as [|n IH]; intros a; simpl; constructor.
  - apply IH.
  - apply Forall_forall. intros x Hx. apply in_seq in Hx. lia.
Qed.

Lemma sorted_filter {A : Type} (R : A -> A -> Prop) (f : A -> bool) l :
  StronglySorted R l -> StronglySorted R (filter f l).
Proof.
  induction 1 as [|a l Hl IH Ha]; simpl; [constructor|].
  destruct (f a); [|exact IH]. constructor; [exact IH|].
  rewrite Forall_forall in *. intros x Hx.
  apply filter_In in Hx. apply Ha; tauto.
Qed.

Lemma sorted_map {A B : Type} (R : A -> A -> Prop) (Q : B -> B -> Prop)
    (g : A -> B) l :
  (forall x y, R x y -> Q (g x) (g y)) ->
  StronglySorted R l -> StronglySorted Q (map g l).
Proof.
  intros Hg. induction 1 as [|a l Hl IH Ha]; simpl; constructor.
  - exact IH.
  - rewrite Forall_forall in *. intros y Hy.
    apply in_map_iff in Hy as (x & <- & Hx). auto.
Qed.

Lemma sorted_NoDup (l : list Z) : StronglySorted Z.lt l -> NoDup l.
Proof.
  induction 1 as [|a l Hl IH Ha]; constructor; [|exact IH].
  intros Hin. rewrite Forall_forall in Ha. specialize (Ha _ Hin). lia.
Qed.

Lemma boundaries_sorted bs : StronglySorted Z.lt (boundaries bs).
Proof.
  unfold boundaries.
  assert (StronglySorted Z.lt (map (fun p => Z.of_nat p + 1) (matches bs)))
    as Hm.
  { apply (sorted_map lt); [intros x y Hxy; lia|].
    apply sorted_filter, sorted_seq. }
  destruct (startsWithFromLine bs); [|exact Hm].
  cbn [app]. constructor; [exact Hm|].
  apply Forall_forall. intros y Hy.
  apply in_map_iff in Hy as (p & <- & _). lia.
Qed.

(** C7. Strictly increasing, duplicate-free output: under any chunking and
    in either mode, the offsets emitted over all calls are non-negative and
    strictly increasing, so none is emitted twice; and when the scan
    succeeds, every occurrence of the delimiter, also one that straddles
    two chunks, accounts for exactly one emitted offset. *)
Theorem offsets_strictly_increasing (strictMode : bool)
    (chunks : list Buffer.t) :
  StronglySorted Z.lt (fst (scan strictMode chunks)) /\
  Forall (fun b => 0 <= b) (fst (scan strictMode chunks)) /\
  NoDup (fst (scan strictMode chunks)) /\
  (snd (scan strictMode chunks) = None ->
   forall p, occ (concat chunks) p = true ->
     count_occ Z.eq_dec (fst (scan strictMode chunks)) (Z.of_nat p + 1)
     = 1%nat).
Proof.
  rewrite scan_expected. unfold expected.
  destruct (rejected strictMode (concat chunks)); cbn [fst snd].
  - repeat split; try constructor. discriminate.
  - pose proof (boundaries_sorted (concat chunks)) as Hs.
    split; [exact Hs|]. split; [|split].
    + apply Forall_forall. intros b Hb. apply in_boundaries in Hb.
      destruct Hb as [[-> _]|(p & -> & _)]; lia.
    + apply sorted_NoDup; exact Hs.
    + intros _ p Hp.
      apply (proj1 (NoDup_count_occ' Z.eq_dec _) (sorted_NoDup _ Hs)).
      apply in_boundaries. right. exists p. auto.
Qed.

Lemma offsets_strictly_increasing_witness :
  let chunks := [first_message ++ [nl; "F"%byte]; Buffer.from "ro";
                 Buffer.from "m b@x" ++ bytes_nl ++ bytes_nl;
                 Buffer.from "From c" ++ bytes_nl] in
  fst (scan true chunks) = [0; 36; 46] /\
  count_occ Z.eq_dec (fst (scan true chunks)) (Z.of_nat 35 + 1) = 1%nat.
Proof.
  intros chunks. split; [reflexivity|].
  apply (offsets_strictly_increasing true chunks); reflexivity.
Defined.

(** ** Resetting *)







(** ** The carry buffer *)

(** C9. Carry-buffer bound: after any run of [_transform] calls on a fresh
    parser the tail is at most five bytes long, one less than the
    delimiter; while [isFirstChunk] is still true it is the first bytes
    seen so far, fewer than five; and one successful call bounds the tail
    whatever the state it starts from. *)
Theorem carry_buffer_bound (strictMode : bool) (chunks : list Buffer.t) :
  let this := after (write_all (new_parser (Some strictMode)) chunks) in
  (length (tail this) <= length DELIMITER)%nat /\
  (length (tail this) <= length DELIMITER - 1)%nat /\
  (isFirstChunk this = true ->
     tail this = firstn 5 (concat chunks) /\
     tail this = concat chunks /\
     (length (tail this) < 5)%nat) /\
  (forall (any : MboxParserStream) (chunk : Buffer.t),
     failure (_transform any chunk) = None ->
     (length (tail (after (_transform any chunk)))
      <= length DELIMITER - 1)%nat).
Proof.
  intros this. change (length DELIMITER) with 6%nat. cbn [Nat.sub].
  pose proof (write_all_spec strictMode chunks [] _ (Inv_new strictMode)) as H.
  cbn [app] in H. fold this in H.
  assert ((length (tail this) <= 5)%nat /\
          (isFirstChunk this = true ->
           tail this = concat chunks /\ (length (concat chunks) < 5)%nat))
    as [Hle Hopen].
  { destruct (rejected strictMode (concat chunks)).
    - destruct H as (_ & _ & Hfirst & Hlen). split; [lia | congruence].
    - destruct H as (_ & [_ Htail Hfirst _ _] & _).
      rewrite Htail, length_last_bytes. split; [lia|].
      rewrite Hfirst. intros Hu. apply undecided_length in Hu.
      split; [apply last_bytes_short|]; lia. }
  split; [lia|]. split; [exact Hle|]. split.
  - intros Hfirst. destruct (Hopen Hfirst) as [Hall Hlen].
    rewrite Hall. split; [|split; [reflexivity | exact Hlen]].
    symmetry; apply firstn_all2; lia.
  - intros any chunk. unfold _transform.
    destruct (first_check any _) as [that out|that e]; [|discriminate].
    intros _. cbn [after tail].
    destruct (isFirstChunk that).
    + unfold Buffer.slice. rewrite length_firstn.
      change (length DELIMITER_START) with 5%nat. lia.
    + unfold Buffer.slice_from. rewrite length_skipn.
      change (length DELIMITER - 1)%nat with 5%nat. lia.
Qed.

Lemma carry_buffer_bound_witness :
  let this := after (write_all (new_parser (Some false))
                       [Buffer.from "Fr"; Buffer.from "o"]) in
  isFirstChunk this = true /\ tail this = Buffer.from "Fro" /\
  (length (tail (after (_transform this worked_example))) <= 5)%nat.
Proof.
  intros this.
  pose proof (carry_buffer_bound false [Buffer.from "Fr"; Buffer.from "o"])
    as (_ & _ & Hopen & Hcall).
  split; [reflexivity|]. split.
  - apply Hopen. reflexivity.
  - apply Hcall. reflexivity.
Defined.

(** ** Short streams in strict mode *)

(** C10. Strict mode is bypassed for very short streams: when the whole
    content is shorter than five bytes and a prefix of [From ], the empty
    stream included, a strict scan raises no error and yields no boundary;
    every call leaves [isFirstChunk] true, and [_flush] completes without
    looking at it. *)
Theorem short_stream_bypasses_strict (chunks : list Buffer.t) :
  (length (concat chunks) < 5)%nat ->
  is_prefix_of (concat chunks) (Buffer.from "From ") ->
  scan true chunks = ([], None) /\
  (forall before later, chunks = before ++ later ->
     let r := write_all (new_parser (Some true)) before in
     failure r = None /\ pushed r = [] /\ isFirstChunk (after r) = true) /\
  isFirstChunk (after (pipe (new_parser (Some true)) chunks)) = true /\
  (forall this, _flush this =
                {| after := this; pushed := []; failure := None |}).
Proof.
  intros Hlen Hpre.
  assert (undecided (concat chunks) = true) as Hu
    by (apply undecided_prefix; auto).
  assert (forall before later, chunks = before ++ later ->
     let r := write_all (new_parser (Some true)) before in
     failure r = None /\ pushed r = [] /\ isFirstChunk (after r) = true)
    as Hcalls.
  { intros before later -> r. rewrite concat_app in Hu.
    apply undecided_app in Hu.
    pose proof (write_all_spec true before [] _ (Inv_new true)) as H.
    cbn [app] in H. fold r in H. unfold rejected in H.
    rewrite Hu in H. cbn [andb negb] in H.
    destruct H as (Hf & [_ _ Hfirst _ _] & Hb).
    rewrite (boundaries_undecided _ Hu) in Hb.
    unfold boundaries in Hb. cbn [app] in Hb.
    rewrite matches_short in Hb by (simpl; lia).
    split; [exact Hf|]. split; [exact Hb | congruence]. }
  split; [|split; [exact Hcalls|split; [|reflexivity]]].
  - rewrite scan_expected. unfold expected, rejected.
    rewrite Hu, (boundaries_undecided _ Hu). reflexivity.
  - destruct (Hcalls chunks [] (eq_sym (app_nil_r _))) as (Hf & _ & Hfirst).
    unfold pipe. rewrite Hf. exact Hfirst.
Qed.

Lemma short_stream_bypasses_strict_witness :
  scan true [Buffer.from "F"; []; Buffer.from "ro"] = ([], None) /\
  scan true [] = ([], None).
Proof.
  split.
  - apply (short_stream_bypasses_strict [Buffer.from "F"; []; Buffer.from "ro"]).
    + vm_compute; lia.
    + exists (Buffer.from "m "). reflexivity.
  - apply (short_stream_bypasses_strict []).
    + vm_compute; lia.
    + exists (Buffer.from "From "). reflexivity.
Defined.

(** ** Message records *)

Lemma new_valid index offset size deleted :
  0 <= index -> 0 <= offset -> 0 <= size ->
  MboxMessage.new index offset size deleted =
  Ok (MboxMessage.mk index offset size deleted).
Proof.
  intros Hi Ho Hs. unfold MboxMessage.new.
  destruct (Z.ltb_spec index 0); [lia|].
  destruct (Z.ltb_spec offset 0); [lia|].
  destruct (Z.ltb_spec size 0); [lia|]. reflexivity.
Qed.

Lemma new_Ok index offset size deleted msg :
  MboxMessage.new index offset size deleted = Ok msg ->
  msg = MboxMessage.mk index offset size deleted /\
  0 <= index /\ 0 <= offset /\ 0 <= size.
Proof.
  unfold MboxMessage.new.
  destruct (Z.ltb_spec index 0); [discriminate|].
  destruct (Z.ltb_spec offset 0); [discriminate|].
  destruct (Z.ltb_spec size 0); [discriminate|].
  intros [= <-]. auto.
Qed.

Lemma copy_valid msg : valid_message msg -> MboxMessage.copy msg = Ok msg.
Proof.
  intros (Hi & Ho & Hs). unfold MboxMessage.copy, MboxMessage.deleted.
  rewrite new_valid by assumption. destruct msg; reflexivity.
Qed.

Lemma map_throwing_id {A : Type} (f : A -> Result A) l :
  Forall (fun a => f a = Ok a) l -> map_throwing f l = Ok l.
Proof.
  induction 1 as [|a l Ha Hl IH]; simpl; [reflexivity|].
  rewrite Ha, IH. reflexivity.
Qed.

Lemma copy_all_valid ms :
  Forall valid_message ms -> map_throwing MboxMessage.copy ms = Ok ms.
Proof.
  intros H. apply map_throwing_id.
  eapply Forall_impl; [|exact H]. exact copy_valid.
Qed.

(** X1. JSON round trip of a message record: a record that satisfies the
    constructor's checks is restored unchanged from its JSON form; a JSON
    form that [fromJSON] accepts is reproduced by [toJSON]; and
    [fromJSON] throws exactly when a number is negative. *)
Theorem message_json_round_trip (msg : MboxMessage.t)
    (json : MboxMessage.JSON) :
  (valid_message msg ->
     MboxMessage.fromJSON (MboxMessage.toJSON msg) = Ok msg) /\
  (forall restored, MboxMessage.fromJSON json = Ok restored ->
     MboxMessage.toJSON restored = json /\ valid_message restored) /\
  ((exists e, MboxMessage.fromJSON json = Throw e) <->
     MboxMessage.json_index json < 0 \/ MboxMessage.json_offset json < 0 \/
     MboxMessage.json_size json < 0).
Proof.
  split; [|split].
  - intros (Hi & Ho & Hs). unfold MboxMessage.fromJSON, MboxMessage.toJSON.
    cbn [MboxMessage.json_index MboxMessage.json_offset
         MboxMessage.json_size MboxMessage.json_deleted].
    rewrite new_valid by assumption. destruct msg; reflexivity.
  - intros restored H. unfold MboxMessage.fromJSON in H.
    apply new_Ok in H as (-> & Hi & Ho & Hs).
    split; [destruct json; reflexivity|].
    repeat split; assumption.
  - unfold MboxMessage.fromJSON, MboxMessage.new.
    destruct (Z.ltb_spec (MboxMessage.json_index json) 0);
      [split; [lia | eexists; reflexivity]|].
    destruct (Z.ltb_spec (MboxMessage.json_offset json) 0);
      [split; [lia | eexists; reflexivity]|].
    destruct (Z.ltb_spec (MboxMessage.json_size json) 0);
      [split; [lia | eexists; reflexivity]|].
    split; [intros [e He]; discriminate | lia].
Qed.

Lemma message_json_round_trip_witness :
  MboxMessage.fromJSON
    (MboxMessage.toJSON (MboxMessage.mk 2 35 27 true))
  = Ok (MboxMessage.mk 2 35 27 true) /\
  MboxMessage.toJSON (MboxMessage.mk 0 0 35 false)
  = MboxMessage.mkJSON 0 0 35 false.
Proof.
  pose proof (message_json_round_trip (MboxMessage.mk 2 35 27 true)
                (MboxMessage.mkJSON 0 0 35 false)) as (Hto & Hfrom & _).
  split.
  - apply Hto. unfold valid_message; simpl; lia.
  - apply (Hfrom (MboxMessage.mk 0 0 35 false)). reflexivity.
Defined.

(** ** Building the index from the boundaries *)

Lemma index_of_boundaries_snoc i pre b total :
  index_of_boundaries i (pre ++ [b]) total =
  index_of_boundaries i pre b ++
  [MboxMessage.mk (Z.of_nat (i + length pre)) b (total - b) false].
Proof.
  revert i; induction pre as [|a pre IH]; intros i; simpl.
  - rewrite Nat.add_0_r. reflexivity.
  - rewrite IH.
    replace (hd total (pre ++ [b])) with (hd b pre)
      by (destruct pre; reflexivity).
    replace (S i + length pre)%nat with (i + S (length pre))%nat by lia.
    reflexivity.
Qed.

Lemma length_index_of_boundaries i bounds total :
  length (index_of_boundaries i bounds total) = length bounds.
Proof.
  revert i; induction bounds as [|b rest IH]; intros i; simpl;
    [reflexivity | rewrite IH; reflexivity].
Qed.

Lemma last_item_snoc {A : Type} (l : list A) (x : A) :
  Mbox.last_item (l ++ [x]) = Some x.
Proof.
  unfold Mbox.last_item. rewrite length_app. simpl.
  replace (length l + 1 - 1)%nat with (length l) by lia.
  rewrite nth_error_app2, Nat.sub_diag by lia. reflexivity.
Qed.

Lemma set_last_snoc {A : Type} (l : list A) (x y : A) :
  Mbox.set_last (l ++ [x]) y = l ++ [y].
Proof. unfold Mbox.set_last. rewrite removelast_last. reflexivity. Qed.

Lemma sorted_app_lt (pre : list Z) b rest :
  StronglySorted Z.lt (pre ++ b :: rest) -> Forall (fun a => a < b) pre.
Proof.
  induction pre as [|a pre IH]; simpl; intros H; [constructor|].
  apply StronglySorted_inv in H as [Hs Ha]. constructor; [|auto].
  rewrite Forall_forall in Ha. apply Ha, in_elt.
Qed.

Lemma last_cons {A : Type} (l : list A) (a d : A) :
  last (a :: l) d = last l a.
Proof.
  revert a d; induction l as [|c l IH]; intros a d; [reflexivity|].
  change (last (a :: c :: l) d) with (last (c :: l) d).
  rewrite !IH. reflexivity.
Qed.

Ltac op_unfold :=
  unfold with_messages;
  unfold Mbox.on_data, Mbox.on_end, Mbox.close_last, Mbox.backup_messages,
         Mbox.bind, Mbox.self, Mbox.lift, Mbox.ret, Mbox.throw,
         Mbox.assign_messages, Mbox.assign_originalMessages,
         Mbox.assign_state, MboxMessage.withSize;
  cbn [fst snd Mbox.messages Mbox.originalMessages Mbox.state Mbox.options
       MboxMessage.index MboxMessage.offset MboxMessage.size
       MboxMessage._deleted].

(** Closing the last message of an index at a new limit. *)
Lemma close_last_index this pre total limit :
  Mbox.messages this = index_of_boundaries 0 pre total ->
  Forall (fun a => 0 <= a <= limit) pre ->
  Mbox.close_last limit this =
  (with_messages this (index_of_boundaries 0 pre limit), Ok tt).
Proof.
  intros Hm Hpre. op_unfold. rewrite Hm.
  destruct pre as [|a pre _] using rev_ind.
  - simpl. destruct this; simpl in *; subst; reflexivity.
  - rewrite !index_of_boundaries_snoc, length_app.
    cbn [length Nat.add].
    replace (0 <? length (index_of_boundaries 0 pre a) + 1)%nat with true
      by (symmetry; apply Nat.ltb_lt; lia).
    rewrite last_item_snoc. op_unfold.
    apply Forall_app in Hpre as [_ Ha]. apply Forall_inv in Ha.
    rewrite new_valid by lia.
    rewrite set_last_snoc. reflexivity.
Qed.

(** One ['data'] event on an index built so far. *)
Lemma on_data_index this pre total b :
  Mbox.messages this = index_of_boundaries 0 pre total ->
  Forall (fun a => 0 <= a <= b) pre -> 0 <= b ->
  Mbox.on_data b this =
  (with_messages this (index_of_boundaries 0 (pre ++ [b]) b), Ok tt).
Proof.
  intros Hm Hpre Hb. unfold Mbox.on_data.
  unfold Mbox.bind at 1. rewrite (close_last_index _ _ _ _ Hm Hpre).
  op_unfold. rewrite new_valid by lia.
  rewrite length_index_of_boundaries, index_of_boundaries_snoc, Z.sub_diag.
  reflexivity.
Qed.

Lemma with_messages_twice this ms ms' :
  with_messages (with_messages this ms) ms' = with_messages this ms'.
Proof. reflexivity. Qed.

Lemma with_messages_same this :
  with_messages this (Mbox.messages this) = this.
Proof. destruct this; reflexivity. Qed.

(** All the ['data'] events of a scan whose offsets ascend. *)
Lemma on_data_all_index offsets : forall this pre total,
  Mbox.messages this = index_of_boundaries 0 pre total ->
  StronglySorted Z.lt (pre ++ offsets) ->
  Forall (fun a => 0 <= a) (pre ++ offsets) ->
  Mbox.on_data_all offsets this =
  (with_messages this
     (index_of_boundaries 0 (pre ++ offsets) (last offsets total)), Ok tt).
Proof.
  induction offsets as [|b rest IH]; intros this pre total Hm Hs Hpos.
  - simpl. rewrite app_nil_r, <- Hm, with_messages_same. reflexivity.
  - cbn [Mbox.on_data_all]. unfold Mbox.bind at 1.
    assert (Forall (fun a => 0 <= a <= b) pre) as Hpre.
    { pose proof (sorted_app_lt _ _ _ Hs) as Hlt.
      apply Forall_app in Hpos as [Hpos _].
      rewrite Forall_forall in *. intros a Ha.
      specialize (Hlt a Ha). specialize (Hpos a Ha). lia. }
    assert (0 <= b) as Hb.
    { apply Forall_app in Hpos as [_ Hpos]. apply Forall_inv in Hpos.
      exact Hpos. }
    rewrite (on_data_index _ _ _ _ Hm Hpre Hb).
    rewrite (IH _ (pre ++ [b]) b); rewrite <- ?app_assoc; try assumption;
      try reflexivity.
    rewrite with_messages_twice, last_cons. reflexivity.
Qed.

Lemma index_of_boundaries_valid bounds : forall i total,
  StronglySorted Z.lt bounds ->
  Forall (fun a => 0 <= a <= total) bounds ->
  Forall valid_message (index_of_boundaries i bounds total).
Proof.
  induction bounds as [|b rest IH]; intros i total Hs Hb; simpl;
    constructor.
  - apply Forall_inv in Hb as Hb0.
    unfold valid_message; simpl. repeat split; try lia.
    destruct rest as [|c rest]; simpl; [lia|].
    apply StronglySorted_inv in Hs as [_ Hlt].
    apply Forall_inv in Hlt. lia.
  - apply IH.
    + apply StronglySorted_inv in Hs; tauto.
    + apply Forall_inv_tail in Hb; exact Hb.
Qed.

Lemma on_end_index this bounds total stat_size :
  Mbox.messages this = index_of_boundaries 0 bounds total ->
  StronglySorted Z.lt bounds ->
  Forall (fun a => 0 <= a <= stat_size) bounds ->
  Mbox.on_end stat_size this = (scanned this bounds stat_size, Ok tt).
Proof.
  intros Hm Hs Hb. unfold Mbox.on_end. unfold Mbox.bind at 1.
  rewrite (close_last_index _ _ _ _ Hm Hb).
  op_unfold. rewrite copy_all_valid
    by (apply index_of_boundaries_valid; assumption).
  reflexivity.
Qed.

Lemma boundaries_bounds file b :
  In b (boundaries file) -> 0 <= b /\ b + 5 <= Z.of_nat (length file).
Proof.
  intros H. apply in_boundaries in H as [[-> Hs]|(p & -> & Hp)].
  - rewrite startsWithFromLine_occurs in Hs.
    apply occurs_here_length in Hs.
    change (length DELIMITER_START) with 5%nat in Hs. lia.
  - unfold occ in Hp. apply occurs_here_length in Hp.
    rewrite length_skipn in Hp. change (length DELIMITER) with 6%nat in Hp.
    lia.
Qed.

Lemma boundaries_within file :
  Forall (fun a => 0 <= a <= Z.of_nat (length file)) (boundaries file).
Proof.
  apply Forall_forall. intros b Hb. apply boundaries_bounds in Hb. lia.
Qed.

Lemma pipe_expected strictMode chunks :
  pushed (pipe (new_parser (Some strictMode)) chunks) =
    fst (expected strictMode (concat chunks)) /\
  failure (pipe (new_parser (Some strictMode)) chunks) =
    snd (expected strictMode (concat chunks)).
Proof.
  pose proof (scan_expected strictMode chunks) as H. unfold scan in H.
  rewrite <- H. split; reflexivity.
Qed.

(** [scanFile] on a state without messages. *)
Lemma scanFile_index this chunks :
  Mbox.messages this = [] ->
  Mbox.scanFile chunks (Z.of_nat (length (concat chunks))) this =
  if rejected (Mbox.strict (Mbox.options this)) (concat chunks)
  then (this, Throw (ParserError not_from_line))
  else (scanned this (boundaries (concat chunks))
          (Z.of_nat (length (concat chunks))), Ok tt).
Proof.
  intros Hm. unfold Mbox.scanFile.
  unfold Mbox.bind at 1. unfold Mbox.self at 1.
  destruct (pipe_expected (Mbox.strict (Mbox.options this)) chunks)
    as [Hp Hf].
  unfold Mbox.bind at 1. rewrite Hp, Hf. unfold expected.
  destruct (rejected (Mbox.strict (Mbox.options this)) (concat chunks));
    cbn [fst snd].
  - reflexivity.
  - pose proof (boundaries_sorted (concat chunks)) as Hs.
    pose proof (boundaries_within (concat chunks)) as Hw.
    rewrite (on_data_all_index _ this [] 0); cbn [app];
      [|rewrite Hm; reflexivity | exact Hs
       |eapply Forall_impl; [|exact Hw]; cbv beta; intros; lia].
    rewrite (on_end_index _ (boundaries (concat chunks))
               (last (boundaries (concat chunks)) 0));
      [reflexivity | reflexivity | exact Hs | exact Hw].
Qed.

Lemma initialize_scan (Text : Type)
    (opts : Mbox.NormalizedMboxOptions) (file : Buffer.t)
    (chunks : list Buffer.t) (error_listeners : nat) :
  Mbox.savedIndex opts = None ->
  concat chunks = file ->
  @Mbox.initialize Text (Some file) chunks error_listeners (Mbox.new opts) =
  if rejected (Mbox.strict opts) file then
    ({| Mbox.messages := []; Mbox.originalMessages := [];
        Mbox.state := ERROR; Mbox.options := opts |},
     Mbox.init_event false (Some (ParserError not_from_line)) ::
     (if (0 <? error_listeners)%nat
      then [Mbox.error_event (ParserError not_from_line)] else []),
     Throw (ParserError not_from_line))
  else
    (ready_with opts (file_index file) (file_index file),
     [Mbox.init_event true None], Ok tt).
Proof.
  intros Hsaved <-. unfold Mbox.initialize, Mbox.initialize_try.
  unfold Mbox.bind at 1. unfold Mbox.assign_state at 1.
  unfold Mbox.bind at 1. unfold Mbox.self at 1.
  cbn [Mbox.options Mbox.new Mbox.messages Mbox.originalMessages Mbox.state].
  rewrite Hsaved. unfold Mbox.bind at 1.
  rewrite scanFile_index by reflexivity.
  cbn [Mbox.options Mbox.strict].
  destruct (rejected (Mbox.strict opts) (concat chunks)); reflexivity.
Qed.

(** X2. Indexing a file: when no saved index is given, initializing an
    [Mbox] on a readable file either fails in strict mode because the file
    evidently does not begin with [From ] (state [ERROR], no message, an
    ['init'] failure event and, when someone listens, an ['error'] event),
    or leaves it [READY] with one message per boundary of the file,
    numbered from 0, each running to the next boundary and the last one
    to the end of the file, none deleted, and the same list as backup;
    the way the file is cut into chunks makes no difference. *)
Theorem initialize_indexes_file (Text : Type)
    (opts : Mbox.NormalizedMboxOptions) (file : Buffer.t)
    (chunks : list Buffer.t) (error_listeners : nat) :
  Mbox.savedIndex opts = None ->
  concat chunks = file ->
  @Mbox.initialize Text (Some file) chunks error_listeners (Mbox.new opts) =
  if rejected (Mbox.strict opts) file then
    ({| Mbox.messages := []; Mbox.originalMessages := [];
        Mbox.state := ERROR; Mbox.options := opts |},
     Mbox.init_event false (Some (ParserError not_from_line)) ::
     (if (0 <? error_listeners)%nat
      then [Mbox.error_event (ParserError not_from_line)] else []),
     Throw (ParserError not_from_line))
  else
    (ready_with opts (file_index file) (file_index file),
     [Mbox.init_event true None], Ok tt).
Proof.
  apply initialize_scan.
Qed.

Lemma initialize_indexes_file_witness :
  @Mbox.initialize unit (Some worked_example)
     (chunks_of 3 100 worked_example) 0
     (Mbox.new (Mbox.normalize_options None None None None (Some true))) =
  (ready_with (Mbox.normalize_options None None None None (Some true))
     [MboxMessage.mk 0 0 35 false; MboxMessage.mk 1 35 27 false]
     [MboxMessage.mk 0 0 35 false; MboxMessage.mk 1 35 27 false],
   [Mbox.init_event true None], Ok tt).
Proof.
  apply (initialize_indexes_file unit
           (Mbox.normalize_options None None None None (Some true))
           worked_example (chunks_of 3 100 worked_example) 0);
    reflexivity.
Defined.

(** ** Cutting a file at its boundaries *)

Lemma firstn_firstn_skipn {A : Type} (n k : nat) (l : list A) :
  firstn n l ++ firstn k (skipn n l) = firstn (n + k) l.
Proof.
  revert l; induction n as [|n IH]; intros l; [reflexivity|].
  destruct l as [|a l]; simpl.
  - rewrite firstn_nil. reflexivity.
  - rewrite IH. reflexivity.
Qed.

Lemma slice_app (buf : Buffer.t) (a m c : nat) :
  (a <= m <= c)%nat ->
  Buffer.slice buf a m ++ Buffer.slice buf m c = Buffer.slice buf a c.
Proof.
  intros H. unfold Buffer.slice.
  replace (skipn m buf) with (skipn (m - a) (skipn a buf))
    by (rewrite skipn_skipn; f_equal; lia).
  rewrite firstn_firstn_skipn. f_equal. lia.
Qed.

Lemma length_slice (buf : Buffer.t) (a c : nat) :
  (a <= c <= length buf)%nat -> length (Buffer.slice buf a c) = (c - a)%nat.
Proof.
  intros H. unfold Buffer.slice. rewrite length_firstn, length_skipn. lia.
Qed.

Lemma slice_decompose (buf : Buffer.t) (a c : nat) :
  (a <= c)%nat ->
  buf = firstn a buf ++ Buffer.slice buf a c ++ skipn c buf.
Proof.
  intros H. unfold Buffer.slice.
  replace (skipn c buf) with (skipn (c - a) (skipn a buf))
    by (rewrite skipn_skipn; f_equal; lia).
  rewrite firstn_skipn, firstn_skipn. reflexivity.
Qed.

Lemma slice_to_end (buf : Buffer.t) (a : nat) :
  Buffer.slice buf a (length buf) = skipn a buf.
Proof.
  unfold Buffer.slice. apply firstn_all2. rewrite length_skipn. lia.
Qed.

Lemma slice_one (buf : Buffer.t) (p : nat) x :
  nth_error buf p = Some x -> Buffer.slice buf p (S p) = [x].
Proof.
  intros H. unfold Buffer.slice.
  replace (S p - p)%nat with 1%nat by lia.
  rewrite <- (Nat.add_0_r p), <- nth_error_skipn in H.
  destruct (skipn p buf) as [|y rest]; [discriminate|].
  injection H as ->. reflexivity.
Qed.

(** An occurrence inside a piece is an occurrence in the file. *)
Lemma contains_in_slice (buf : Buffer.t) (a c : nat) :
  (a <= c <= length buf)%nat ->
  contains_delimiter (Buffer.slice buf a c) ->
  exists p, (a <= p /\ p + 6 <= c)%nat /\ occ buf p = true.
Proof.
  intros Hac (pre & post & Hs).
  exists (a + length pre)%nat.
  pose proof (length_slice buf a c Hac) as Hlen.
  rewrite Hs, !length_app in Hlen. change (length DELIMITER) with 6%nat in Hlen.
  split; [lia|].
  assert (length (firstn a buf) = a) as Ha
    by (rewrite length_firstn; lia).
  rewrite <- Ha at 1. rewrite <- length_app.
  apply (contains_occ buf (firstn a buf ++ pre) (post ++ skipn c buf)).
  rewrite (slice_decompose buf a c) at 1 by lia.
  rewrite Hs, <- !app_assoc. reflexivity.
Qed.

Lemma boundaries_positions file :
  boundaries file = map Z.of_nat (boundary_positions file).
Proof.
  unfold boundaries, boundary_positions. rewrite map_app, map_map.
  f_equal.
  - destruct (startsWithFromLine file); reflexivity.
  - apply map_ext. intros p. lia.
Qed.

Lemma keyword_no_newline j :
  (j < 5)%nat -> nth_error DELIMITER_START j <> Some nl.
Proof.
  intros Hj. do 5 (destruct j as [|j]; [discriminate|]). lia.
Qed.

Lemma keyword_length file b :
  firstn 5 (skipn b file) = DELIMITER_START -> (b + 5 <= length file)%nat.
Proof.
  intros H. apply (f_equal (@length byte)) in H.
  rewrite length_firstn, length_skipn in H.
  change (length DELIMITER_START) with 5%nat in H. lia.
Qed.

(** After a keyword at [b], the next newline that opens a delimiter is at
    least five bytes on. *)
Lemma keyword_then_delimiter file b p :
  firstn 5 (skipn b file) = DELIMITER_START ->
  occ file p = true -> (b <= p)%nat -> (b + 5 <= p)%nat.
Proof.
  intros Hkey Hocc Hbp.
  destruct (Nat.lt_ge_cases p (b + 5)) as [Hlt|Hge]; [exfalso | exact Hge].
  apply occ_newline in Hocc as [Hnl _].
  apply (keyword_no_newline (p - b)); [lia|].
  rewrite <- Hkey, nth_error_firstn.
  destruct (Nat.ltb_spec (p - b) 5) as [_|Hc]; [|lia].
  rewrite nth_error_skipn. replace (b + (p - b))%nat with p by lia.
  exact Hnl.
Qed.

Lemma Cut_tail file b rest : Cut file (b :: rest) -> Cut file rest.
Proof.
  intros [Hs Hk Hn]. constructor.
  - apply StronglySorted_inv in Hs; tauto.
  - intros c Hc. apply Hk. right; exact Hc.
  - intros c Hc. apply Hn. simpl. destruct rest; [contradiction|].
    right; exact Hc.
Qed.

Lemma complete_from_tail file lo b rest :
  StronglySorted lt (b :: rest) -> (lo <= b)%nat ->
  complete_from file lo (b :: rest) -> complete_from file b rest.
Proof.
  intros Hs Hlo Hc p Hocc Hbp.
  destruct (Hc p Hocc ltac:(lia)) as [Heq|Hin]; [lia | exact Hin].
Qed.

(** The piece that starts at the first position of a cut. *)
Lemma first_piece file lo b rest :
  Cut file (b :: rest) -> (lo <= b)%nat ->
  complete_from file lo (b :: rest) ->
  let next := hd (length file) rest in
  (b + 5 <= next <= length file)%nat /\
  whole_message (Buffer.slice file b next) /\
  (rest <> [] -> ends_with_newline (Buffer.slice file b next)).
Proof.
  intros [Hs Hk Hn] Hlo Hc next.
  pose proof (Hk b (or_introl eq_refl)) as Hkey.
  pose proof (keyword_length _ _ Hkey) as Hlen.
  apply StronglySorted_inv in Hs as [Hs Hlt].
  assert (b + 5 <= next <= length file /\
          (rest <> [] -> exists p, next = S p /\ (b <= p)%nat /\
                                   occ file p = true))%nat
    as [Hnext Hseam].
  { subst next. destruct rest as [|c rest]; simpl.
    - split; [lia | congruence].
    - destruct (Hn c (or_introl eq_refl)) as (p & -> & Hocc).
      apply Forall_inv in Hlt.
      pose proof (keyword_then_delimiter _ _ _ Hkey Hocc ltac:(lia)).
      pose proof (keyword_length _ _ (Hk (S p) (or_intror (or_introl eq_refl)))).
      split; [lia|]. intros _. exists p. repeat split; [lia | exact Hocc]. }
  split; [exact Hnext|]. split; [split|].
  - unfold Buffer.slice. rewrite firstn_firstn.
    replace (Nat.min 5 (next - b)) with 5%nat by lia. exact Hkey.
  - intros Hcont.
    apply contains_in_slice in Hcont as (p & [Hbp Hpn] & Hocc); [|lia].
    destruct (Hc p Hocc ltac:(lia)) as [Heq|Hin]; [lia|].
    rewrite Forall_forall in Hlt. specialize (Hlt _ Hin).
    subst next. destruct rest as [|c rest]; [contradiction|].
    simpl in Hpn. destruct Hin as [Heq|Hin]; [lia|].
    apply StronglySorted_inv in Hs as [_ Hc'].
    rewrite Forall_forall in Hc'. specialize (Hc' _ Hin). lia.
  - intros Hne. destruct (Hseam Hne) as (p & Hp & Hbp & Hocc).
    exists (Buffer.slice file b p). rewrite Hp.
    rewrite <- (slice_app file b p (S p)) by lia. f_equal.
    apply slice_one. apply occ_newline in Hocc. tauto.
Qed.

(** The pieces of a complete cut are whole messages, and all but the last
    end with a newline. *)
Lemma pieces_whole file bounds : forall lo,
  Cut file bounds -> complete_from file lo bounds ->
  Forall (fun b => (lo <= b)%nat) bounds ->
  Forall whole_message (pieces file bounds (length file)) /\
  Forall ends_with_newline (removelast (pieces file bounds (length file))).
Proof.
  induction bounds as [|b rest IH]; intros lo HC Hc Hlo.
  - simpl. split; constructor.
  - apply Forall_inv in Hlo as Hb.
    destruct (first_piece _ _ _ _ HC Hb Hc) as (Hnext & Hwhole & Hnl).
    pose proof (cut_sorted _ _ HC) as Hs.
    destruct (IH b (Cut_tail _ _ _ HC)
                (complete_from_tail _ _ _ _ Hs Hb Hc)) as [IH1 IH2].
    { apply StronglySorted_inv in Hs as [_ Hlt].
      eapply Forall_impl; [|exact Hlt]. cbv beta. intros; lia. }
    cbn [pieces]. split; [constructor; assumption|].
    destruct rest as [|c rest]; [constructor|].
    cbn [pieces removelast] in *.
    constructor; [apply Hnl; discriminate | exact IH2].
Qed.

Lemma boundary_positions_cut file :
  Cut file (boundary_positions file) /\
  complete_from file 0 (boundary_positions file).
Proof.
  assert (StronglySorted lt (map S (matches file))) as Hm.
  { apply (sorted_map lt); [intros; lia|]. apply sorted_filter, sorted_seq. }
  assert (forall b, In b (map S (matches file)) ->
            exists p, b = S p /\ occ file p = true) as Hocc.
  { intros b Hb. apply in_map_iff in Hb as (p & <- & Hp).
    exists p. split; [reflexivity|].
    unfold matches, matches_from in Hp. apply filter_In in Hp. tauto. }
  assert (forall p, occ file p = true -> In (S p) (map S (matches file)))
    as Hall.
  { intros p Hp. apply in_map. unfold matches, matches_from.
    apply filter_In. split; [|exact Hp]. apply in_seq.
    unfold occ in Hp. apply occurs_here_length in Hp.
    rewrite length_skipn in Hp. change (length DELIMITER) with 6%nat in Hp.
    lia. }
  unfold boundary_positions.
  destruct (startsWithFromLine file) eqn:Hs; cbn [app]; split.
  - constructor.
    + constructor; [exact Hm|]. apply Forall_forall. intros b Hb.
      destruct (Hocc b Hb) as (p & -> & _). lia.
    + intros b [<-|Hb].
      * rewrite skipn_O. apply startsWithFromLine_iff. exact Hs.
      * destruct (Hocc b Hb) as (p & -> & Hp).
        apply occ_newline in Hp as [_ Hp].
        rewrite Nat.add_1_r in Hp. exact Hp.
    + exact Hocc.
  - intros p Hp _. right. apply Hall; exact Hp.
  - constructor.
    + exact Hm.
    + intros b Hb. destruct (Hocc b Hb) as (p & -> & Hp).
      apply occ_newline in Hp as [_ Hp].
      rewrite Nat.add_1_r in Hp. exact Hp.
    + intros b Hb. apply Hocc. destruct (map S (matches file));
        [contradiction | right; exact Hb].
  - intros p Hp _. apply Hall; exact Hp.
Qed.

Lemma bytes_of_index file nb : forall i total,
  map (bytes_of file)
      (index_of_boundaries i (map Z.of_nat nb) (Z.of_nat total)) =
  pieces file nb total.
Proof.
  induction nb as [|b rest IH]; intros i total; [reflexivity|].
  cbn [map index_of_boundaries pieces]. rewrite IH. f_equal.
  unfold bytes_of. cbn [MboxMessage.offset MboxMessage.size].
  replace (hd (Z.of_nat total) (map Z.of_nat rest))
    with (Z.of_nat (hd total rest)) by (destruct rest; reflexivity).
  rewrite Nat2Z.id. f_equal. lia.
Qed.

Lemma file_index_pieces file :
  map (bytes_of file) (file_index file) =
  pieces file (boundary_positions file) (length file).
Proof.
  unfold file_index. rewrite boundaries_positions. apply bytes_of_index.
Qed.

Lemma concat_pieces file bounds : forall total,
  StronglySorted lt bounds ->
  Forall (fun b => (b <= total)%nat) bounds ->
  concat (pieces file bounds total) =
  Buffer.slice file (hd total bounds) total.
Proof.
  induction bounds as [|b rest IH]; intros total Hs Hb.
  - simpl. unfold Buffer.slice. rewrite Nat.sub_diag. reflexivity.
  - cbn [pieces concat hd].
    apply StronglySorted_inv in Hs as [Hs Hlt].
    apply Forall_inv in Hb as Hb0. apply Forall_inv_tail in Hb.
    rewrite (IH total Hs Hb). apply slice_app.
    destruct rest as [|c rest]; simpl; [lia|].
    apply Forall_inv in Hlt. apply Forall_inv in Hb. lia.
Qed.

Lemma message_bytes_ok file msg :
  0 < MboxMessage.size msg ->
  Mbox.message_bytes file msg = Ok (bytes_of file msg).
Proof.
  intros Hsize. unfold Mbox.message_bytes, Mbox.read_range, bytes_of.
  destruct (Z.ltb_spec (MboxMessage.offset msg + MboxMessage.size msg - 1)
              (MboxMessage.offset msg)); [lia|].
  do 3 f_equal. lia.
Qed.

Lemma message_bytes_empty file msg :
  MboxMessage.size msg <= 0 ->
  Mbox.message_bytes file msg =
  Throw (RangeOutOfRange (MboxMessage.offset msg)
           (MboxMessage.offset msg + MboxMessage.size msg - 1)).
Proof.
  intros Hsize. unfold Mbox.message_bytes, Mbox.read_range.
  destruct (Z.ltb_spec (MboxMessage.offset msg + MboxMessage.size msg - 1)
              (MboxMessage.offset msg)); [reflexivity | lia].
Qed.

Lemma write_loop_kept file ms : forall written,
  Forall (fun msg => 0 < MboxMessage.size msg) (kept ms) ->
  Mbox.write_loop file ms written =
  (written ++ concat (map (bytes_of file) (kept ms)), Ok tt).
Proof.
  induction ms as [|msg rest IH]; intros written Hsize.
  - simpl. rewrite app_nil_r. reflexivity.
  - cbn [Mbox.write_loop kept filter] in *.
    destruct (MboxMessage.deleted msg); cbn [negb] in *.
    + apply IH; exact Hsize.
    + apply Forall_inv in Hsize as H0. apply Forall_inv_tail in Hsize.
      rewrite (message_bytes_ok _ _ H0), (IH _ Hsize).
      cbn [map concat]. rewrite <- app_assoc. reflexivity.
Qed.

Lemma bytes_of_unmark file msg : bytes_of file (unmark msg) = bytes_of file msg.
Proof. reflexivity. Qed.

Lemma map_bytes_unmark file ms :
  map (bytes_of file) (map unmark ms) = map (bytes_of file) ms.
Proof. rewrite map_map. reflexivity. Qed.

Lemma index_of_boundaries_sizes bounds : forall i total,
  StronglySorted Z.lt bounds ->
  Forall (fun a => a < total) bounds ->
  Forall (fun msg => 0 < MboxMessage.size msg)
         (index_of_boundaries i bounds total).
Proof.
  induction bounds as [|b rest IH]; intros i total Hs Hb; simpl;
    constructor.
  - apply Forall_inv in Hb as Hb0. simpl.
    destruct rest as [|c rest]; simpl; [lia|].
    apply StronglySorted_inv in Hs as [_ Hlt].
    apply Forall_inv in Hlt. lia.
  - apply IH.
    + apply StronglySorted_inv in Hs; tauto.
    + apply Forall_inv_tail in Hb; exact Hb.
Qed.

Lemma file_index_sizes file :
  Forall (fun msg => 0 < MboxMessage.size msg) (file_index file).
Proof.
  apply index_of_boundaries_sizes; [apply boundaries_sorted|].
  apply Forall_forall. intros b Hb. apply boundaries_bounds in Hb. lia.
Qed.

Lemma file_index_valid file : Forall valid_message (file_index file).
Proof.
  apply index_of_boundaries_valid;
    [apply boundaries_sorted | apply boundaries_within].
Qed.

(** The same index up to the deleted flags. *)
Lemma same_ranges_sizes ms ms' :
  map unmark ms = ms' ->
  Forall (fun msg => 0 < MboxMessage.size msg) ms' ->
  Forall (fun msg => 0 < MboxMessage.size msg) ms.
Proof.
  intros <- H. rewrite Forall_map in H. exact H.
Qed.

Lemma Forall_kept (P : MboxMessage.t -> Prop) ms :
  Forall P ms -> Forall P (kept ms).
Proof.
  intros H. apply Forall_forall. intros m Hm.
  apply filter_In in Hm as [Hm _]. rewrite Forall_forall in H. auto.
Qed.

Lemma removelast_filter {A : Type} (f : A -> bool) (l : list A) x :
  In x (removelast (filter f l)) -> In x (removelast l).
Proof.
  induction l as [|a l IH]; [contradiction|].
  assert (In x (removelast l) -> In x (removelast (a :: l))) as Hup.
  { intros H. destruct l; [contradiction | right; exact H]. }
  cbn [filter]. destruct (f a); [|auto].
  destruct (filter f l) as [|b fl] eqn:E; [contradiction|].
  cbn [removelast]. intros [<-|H].
  - destruct l; [discriminate | left; reflexivity].
  - apply Hup, IH. exact H.
Qed.

Lemma map_removelast {A B : Type} (f : A -> B) (l : list A) :
  removelast (map f l) = map f (removelast l).
Proof.
  induction l as [|a l IH]; [reflexivity|].
  destruct l as [|b l]; [reflexivity|].
  cbn [map removelast] in *. rewrite IH. reflexivity.
Qed.

(** ** Messages written one after the other *)

Lemma offsets_of_shift segs : forall from d,
  offsets_of segs (from + d) = map (fun a => a + d) (offsets_of segs from).
Proof.
  induction segs as [|s rest IH]; intros from d; [reflexivity|].
  cbn [offsets_of map]. f_equal.
  replace (from + d + Z.of_nat (length s))
    with (from + Z.of_nat (length s) + d) by lia.
  apply IH.
Qed.

Lemma length_offsets_of segs from :
  length (offsets_of segs from) = length segs.
Proof.
  revert from; induction segs as [|s rest IH]; intros from; simpl;
    [reflexivity | rewrite IH; reflexivity].
Qed.

Lemma whole_message_length m : whole_message m -> (5 <= length m)%nat.
Proof.
  intros [H _]. apply (f_equal (@length byte)) in H.
  rewrite length_firstn in H. change (length DELIMITER_START) with 5%nat in H.
  lia.
Qed.

Lemma whole_message_starts m rest :
  whole_message m -> firstn 5 (m ++ rest) = DELIMITER_START.
Proof.
  intros H. pose proof (whole_message_length _ H) as Hlen.
  destruct H as [H _]. rewrite firstn_app.
  replace (5 - length m)%nat with 0%nat by lia.
  simpl. rewrite app_nil_r. exact H.
Qed.

(** Whole messages, each but the last ending with a newline, written one
    after the other: the boundaries of the result are where the messages
    start. *)
Lemma boundaries_concat segs :
  Forall whole_message segs ->
  Forall ends_with_newline (removelast segs) ->
  boundaries (concat segs) = offsets_of segs 0.
Proof.
  induction segs as [|s rest IH]; intros Hw Hnl; [reflexivity|].
  apply Forall_inv in Hw as Hs. apply Forall_inv_tail in Hw.
  destruct rest as [|s' rest].
  - cbn [concat offsets_of]. rewrite app_nil_r.
    destruct Hs as [Hfrom Hnone]. unfold boundaries.
    rewrite (proj2 (startsWithFromLine_iff s) Hfrom).
    rewrite (matches_none _ Hnone). reflexivity.
  - cbn [removelast] in Hnl.
    apply Forall_inv in Hnl as Hs_nl. apply Forall_inv_tail in Hnl.
    specialize (IH Hw Hnl).
    destruct Hs_nl as [front ->].
    apply Forall_inv in Hw as Hs'.
    set (next := concat (s' :: rest)) in *.
    assert (firstn 5 next = DELIMITER_START) as Hnext
      by (apply whole_message_starts; exact Hs').
    change (concat ((front ++ bytes_nl) :: s' :: rest))
      with ((front ++ bytes_nl) ++ next).
    unfold boundaries in *.
    rewrite (proj2 (startsWithFromLine_iff next) Hnext) in IH.
    rewrite (proj2 (startsWithFromLine_iff _)
               (whole_message_starts _ next Hs)).
    destruct Hs as [_ Hnone].
    rewrite (matches_app_messages front next) by assumption.
    cbn [app map offsets_of] in *. injection IH as IH.
    f_equal. rewrite length_app. cbn [length bytes_nl Z.add].
    f_equal; [lia|].
    rewrite (Z.add_comm (Z.of_nat (length front + 1))).
    rewrite (offsets_of_shift rest (Z.of_nat (length s'))
               (Z.of_nat (length front + 1))).
    rewrite <- IH, !map_map. apply map_ext. intros p. lia.
Qed.

(** Reading the pieces back from the file they were written to. *)
Lemma bytes_of_concat segs : forall pre i,
  map (bytes_of (pre ++ concat segs))
      (index_of_boundaries i
         (offsets_of segs (Z.of_nat (length pre)))
         (Z.of_nat (length (pre ++ concat segs)))) = segs.
Proof.
  induction segs as [|s rest IH]; intros pre i; [reflexivity|].
  cbn [offsets_of index_of_boundaries map concat]. f_equal.
  - unfold bytes_of. cbn [MboxMessage.offset MboxMessage.size].
    replace (hd (Z.of_nat (length (pre ++ s ++ concat rest)))
                (offsets_of rest (Z.of_nat (length pre) + Z.of_nat (length s))))
      with (Z.of_nat (length pre + length s)).
    + replace (Z.of_nat (length pre) +
               (Z.of_nat (length pre + length s) - Z.of_nat (length pre)))
        with (Z.of_nat (length pre + length s)) by lia.
      rewrite !Nat2Z.id. unfold Buffer.slice.
      rewrite skipn_app, skipn_all, Nat.sub_diag. cbn [app skipn].
      rewrite firstn_app.
      replace (length pre + length s - length pre)%nat with (length s) by lia.
      rewrite firstn_all, Nat.sub_diag. simpl. apply app_nil_r.
    + destruct rest as [|s' rest]; cbn [offsets_of hd concat].
      * rewrite app_nil_r, length_app. reflexivity.
      * lia.
  - specialize (IH (pre ++ s) (S i)).
    rewrite <- app_assoc, length_app, Nat2Z.inj_add in IH.
    rewrite length_app in *. exact IH.
Qed.

Lemma file_index_concat segs :
  Forall whole_message segs ->
  Forall ends_with_newline (removelast segs) ->
  length (file_index (concat segs)) = length segs /\
  map (bytes_of (concat segs)) (file_index (concat segs)) = segs.
Proof.
  intros Hw Hnl. unfold file_index.
  rewrite (boundaries_concat _ Hw Hnl). split.
  - rewrite length_index_of_boundaries. apply length_offsets_of.
  - exact (bytes_of_concat segs [] 0).
Qed.

(** ** Reading and writing through the index *)

Lemma kept_index_of_boundaries bounds : forall i total,
  kept (index_of_boundaries i bounds total) =
  index_of_boundaries i bounds total.
Proof.
  induction bounds as [|b rest IH]; intros i total; [reflexivity|].
  cbn [index_of_boundaries kept filter MboxMessage.deleted
       MboxMessage._deleted negb].
  f_equal. apply IH.
Qed.

Lemma hd_boundaries file :
  Z.to_nat (hd (Z.of_nat (length file)) (boundaries file)) =
  hd (length file) (boundary_positions file).
Proof.
  rewrite boundaries_positions.
  destruct (boundary_positions file); simpl; apply Nat2Z.id.
Qed.

Lemma boundary_positions_within file :
  Forall (fun b => (b <= length file)%nat) (boundary_positions file).
Proof.
  apply Forall_forall. intros b Hb.
  destruct (boundary_positions_cut file) as [[_ Hk _] _].
  apply Hk, keyword_length in Hb. lia.
Qed.

(** X3. Writing an index in which nothing is deleted: [write] on a freshly
    indexed file succeeds and writes the file from its first boundary to
    its end; so it copies a file that begins with [From ] byte for byte,
    and writes nothing for a file without boundaries. *)
Theorem write_without_deletions (Text : Type)
    (opts : Mbox.NormalizedMboxOptions) (file : Buffer.t)
    (destination : string) :
  let first := Z.to_nat (hd (Z.of_nat (length file)) (boundaries file)) in
  @Mbox.write Text file destination
     (ready_with opts (file_index file) (file_index file)) =
  (Some (skipn first file),
   [Mbox.write_event true destination], Ok tt) /\
  (firstn 5 file = Buffer.from "From " -> skipn first file = file) /\
  (boundaries file = [] -> skipn first file = []).
Proof.
  intros first. split; [|split].
  - unfold Mbox.write, ready_with, Mbox.require_ready, Mbox.bind, Mbox.self,
      Mbox.ret. cbn [Mbox.state Mbox.messages fst snd].
    rewrite write_loop_kept
      by (apply Forall_kept, file_index_sizes).
    unfold file_index at 1. rewrite kept_index_of_boundaries.
    fold (file_index file). rewrite file_index_pieces.
    destruct (boundary_positions_cut file) as [[Hs _ _] _].
    rewrite (concat_pieces _ _ _ Hs (boundary_positions_within file)).
    rewrite slice_to_end. unfold first. rewrite hd_boundaries.
    reflexivity.
  - intros Hfrom. apply startsWithFromLine_iff in Hfrom.
    unfold first, boundaries. rewrite Hfrom. reflexivity.
  - intros Hnone. unfold first. rewrite Hnone. simpl.
    rewrite Nat2Z.id. apply skipn_all.
Qed.

Lemma write_without_deletions_witness :
  @Mbox.write unit worked_example "copy.mbox"
     (ready_with (Mbox.normalize_options None None None None None)
        (file_index worked_example) (file_index worked_example)) =
  (Some worked_example, [Mbox.write_event true "copy.mbox"], Ok tt) /\
  @Mbox.write unit not_an_mbox "copy.mbox"
     (ready_with (Mbox.normalize_options None None None None None)
        (file_index not_an_mbox) (file_index not_an_mbox)) =
  (Some (Buffer.from "From someone" ++ bytes_nl),
   [Mbox.write_event true "copy.mbox"], Ok tt).
Proof.
  split.
  - destruct (write_without_deletions unit
                (Mbox.normalize_options None None None None None)
                worked_example "copy.mbox") as (Hw & Hsame & _).
    rewrite Hw, Hsame; reflexivity.
  - destruct (write_without_deletions unit
                (Mbox.normalize_options None None None None None)
                not_an_mbox "copy.mbox") as (Hw & _).
    rewrite Hw. reflexivity.
Defined.

Lemma indexes_pieces file ms :
  indexes file ms ->
  map (bytes_of file) ms =
  pieces file (boundary_positions file) (length file).
Proof.
  intros H. rewrite <- map_bytes_unmark, H. apply file_index_pieces.
Qed.

Lemma indexes_sizes file ms :
  indexes file ms -> Forall (fun msg => 0 < MboxMessage.size msg) ms.
Proof.
  intros H. apply (same_ranges_sizes _ _ H), file_index_sizes.
Qed.

Lemma indexes_valid file ms : indexes file ms -> Forall valid_message ms.
Proof.
  intros H. pose proof (file_index_valid file) as Hv.
  rewrite <- H, Forall_map in Hv. exact Hv.
Qed.

Lemma indexes_whole file ms :
  indexes file ms ->
  Forall (fun msg => whole_message (bytes_of file msg)) ms /\
  Forall (fun msg => ends_with_newline (bytes_of file msg)) (removelast ms).
Proof.
  intros H. destruct (boundary_positions_cut file) as [HC Hc].
  destruct (pieces_whole file _ 0%nat HC Hc) as [Hw Hnl].
  { apply Forall_forall. intros; lia. }
  rewrite <- (indexes_pieces _ _ H) in Hw, Hnl.
  rewrite map_removelast in Hnl. rewrite Forall_map in Hw, Hnl.
  split; assumption.
Qed.

Lemma nth_error_index_of_boundaries bounds : forall k total j msg,
  nth_error (index_of_boundaries k bounds total) j = Some msg ->
  MboxMessage.index msg = Z.of_nat (k + j).
Proof.
  induction bounds as [|b rest IH]; intros k total j msg.
  - destruct j; discriminate.
  - destruct j as [|j]; simpl.
    + intros [= <-]. simpl. f_equal. lia.
    + intros H. apply IH in H. rewrite H. f_equal. lia.
Qed.

Lemma indexes_numbering file ms j msg :
  indexes file ms -> nth_error ms j = Some msg ->
  MboxMessage.index msg = Z.of_nat j.
Proof.
  intros H Hj.
  assert (nth_error (file_index file) j = Some (unmark msg)) as Hu
    by (rewrite <- H, nth_error_map, Hj; reflexivity).
  apply nth_error_index_of_boundaries in Hu. exact Hu.
Qed.

Ltac op_run :=
  unfold Mbox.get, Mbox.get_try, Mbox.delete, Mbox.delete_try, Mbox.reset,
         Mbox.reset_try, Mbox.write, Mbox.lookup, Mbox.require_ready,
         Mbox.message_at, ready_with, with_messages;
  unfold Mbox.bind, Mbox.self, Mbox.lift, Mbox.ret, Mbox.throw,
         Mbox.assign_messages, Mbox.assign_originalMessages,
         Mbox.assign_state;
  cbn [fst snd Mbox.messages Mbox.originalMessages Mbox.state Mbox.options].

(** The checks of [get] and [delete] pass on a message that is there and
    not deleted. *)
Lemma lookup_found this index msg :
  Mbox.state this = READY -> 0 <= index ->
  nth_error (Mbox.messages this) (Z.to_nat index) = Some msg ->
  MboxMessage.deleted msg = false ->
  Mbox.lookup index this = (this, Ok msg).
Proof.
  intros Hst Hi Hnth Hdel. op_run. rewrite Hst.
  assert (Z.to_nat index < length (Mbox.messages this))%nat as Hlt
    by (apply nth_error_Some; congruence).
  destruct (Z.ltb_spec index 0); [lia|].
  destruct (Z.leb_spec (Z.of_nat (length (Mbox.messages this))) index);
    [lia|].
  cbn [orb]. rewrite Hnth, Hdel. reflexivity.
Qed.

(** X4. Reading a message: on a ready index of [file], [get] of a message
    that is there and not deleted succeeds, changes nothing, emits one
    successful ['get'] event, and resolves to the bytes of the file from
    the message's offset, [size] of them (as a stream, or decoded with the
    encoding asked for or else the default one); these bytes begin with
    [From ] and hold no further delimiter, and the message's [index] is
    the position asked for. *)
Theorem get_reads_message (Text : Type) (decode : string -> Buffer.t -> Text)
    (opts : Mbox.NormalizedMboxOptions) (file : Buffer.t)
    (ms backup : list MboxMessage.t) (index : Z) (msg : MboxMessage.t)
    (options_encoding : option string) :
  indexes file ms ->
  0 <= index ->
  nth_error ms (Z.to_nat index) = Some msg ->
  MboxMessage.deleted msg = false ->
  let this := ready_with opts ms backup in
  let text := decode (match options_encoding with
                      | Some e => e
                      | None => Mbox.encoding opts
                      end) (bytes_of file msg) in
  Mbox.get Text decode file index true options_encoding this =
    (this, [Mbox.get_event true index None],
     Ok (Mbox.content_stream (bytes_of file msg))) /\
  Mbox.get Text decode file index false options_encoding this =
    (this, [Mbox.get_event true index (Some text)],
     Ok (Mbox.content_string text)) /\
  whole_message (bytes_of file msg) /\
  MboxMessage.index msg = index.
Proof.
  intros Hidx Hi Hnth Hdel this text.
  assert (Mbox.lookup index this = (this, Ok msg)) as Hlook
    by (apply lookup_found; auto).
  assert (Mbox.message_bytes file msg = Ok (bytes_of file msg)) as Hbytes.
  { apply message_bytes_ok.
    pose proof (indexes_sizes _ _ Hidx) as Hs. rewrite Forall_forall in Hs.
    apply Hs. eapply nth_error_In; exact Hnth. }
  split; [|split; [|split]].
  - unfold Mbox.get, Mbox.get_try. unfold Mbox.bind at 1.
    rewrite Hlook. unfold Mbox.bind, Mbox.lift. rewrite Hbytes.
    reflexivity.
  - unfold Mbox.get, Mbox.get_try. unfold Mbox.bind at 1.
    rewrite Hlook. unfold Mbox.bind, Mbox.lift. rewrite Hbytes.
    reflexivity.
  - destruct (indexes_whole _ _ Hidx) as [Hw _].
    rewrite Forall_forall in Hw. apply Hw.
    eapply nth_error_In; exact Hnth.
  - rewrite (indexes_numbering _ _ _ _ Hidx Hnth). lia.
Qed.

Lemma get_reads_message_witness :
  Mbox.get unit (fun _ _ => tt) worked_example 1 true None
    (ready_with (Mbox.normalize_options None None None None None)
       (file_index worked_example) (file_index worked_example)) =
  (ready_with (Mbox.normalize_options None None None None None)
       (file_index worked_example) (file_index worked_example),
   [Mbox.get_event true 1 None],
   Ok (Mbox.content_stream second_message)).
Proof.
  apply (get_reads_message unit (fun _ _ => tt)
           (Mbox.normalize_options None None None None None)
           worked_example (file_index worked_example)
           (file_index worked_example) 1
           (MboxMessage.mk 1 35 27 false) None);
    [reflexivity | lia | reflexivity | reflexivity].
Defined.

Lemma kept_whole file ms :
  indexes file ms ->
  Forall whole_message (map (bytes_of file) (kept ms)) /\
  Forall ends_with_newline (removelast (map (bytes_of file) (kept ms))).
Proof.
  intros H. destruct (indexes_whole _ _ H) as [Hw Hnl]. split.
  - rewrite Forall_map. apply Forall_kept. exact Hw.
  - rewrite map_removelast, Forall_map. apply Forall_forall.
    intros m Hm. apply removelast_filter in Hm.
    rewrite Forall_forall in Hnl. auto.
Qed.

Lemma concat_whole_accepted strictMode segs :
  Forall whole_message segs -> rejected strictMode (concat segs) = false.
Proof.
  intros Hw. unfold rejected. destruct segs as [|s rest].
  - simpl. rewrite andb_false_r. reflexivity.
  - apply Forall_inv in Hw. cbn [concat].
    rewrite (proj2 (startsWithFromLine_iff _)
               (whole_message_starts _ (concat rest) Hw)).
    apply andb_false_r.
Qed.

(** X5. Compaction: on a ready index of [file], with any of its messages
    marked deleted, [write] succeeds and writes the bytes of the messages
    that are not deleted, in order; the file written is again an mbox
    whose boundaries are where these messages start: indexing it, in
    either mode and under any chunking, gives [count()] messages, and
    reading them back gives the bytes of the messages kept. *)
Theorem write_compacts (Text : Type) (opts : Mbox.NormalizedMboxOptions)
    (file : Buffer.t) (ms backup : list MboxMessage.t)
    (destination : string) :
  indexes file ms ->
  let this := ready_with opts ms backup in
  let kept_bytes := map (bytes_of file) (kept ms) in
  let written := concat kept_bytes in
  @Mbox.write Text file destination this =
    (Some written, [Mbox.write_event true destination], Ok tt) /\
  boundaries written = offsets_of kept_bytes 0 /\
  (forall (opts' : Mbox.NormalizedMboxOptions) (chunks : list Buffer.t)
          (error_listeners : nat),
     Mbox.savedIndex opts' = None -> concat chunks = written ->
     @Mbox.initialize Text (Some written) chunks error_listeners
        (Mbox.new opts') =
     (ready_with opts' (file_index written) (file_index written),
      [Mbox.init_event true None], Ok tt)) /\
  length (file_index written) = Mbox.count this /\
  map (bytes_of written) (file_index written) = kept_bytes.
Proof.
  intros Hidx this kept_bytes written.
  destruct (kept_whole _ _ Hidx) as [Hw Hnl].
  fold kept_bytes in Hw, Hnl.
  destruct (file_index_concat _ Hw Hnl) as [Hlen Hback].
  split; [|split; [|split; [|split]]].
  - unfold Mbox.write, this, ready_with, Mbox.require_ready, Mbox.bind,
      Mbox.self, Mbox.ret. cbn [Mbox.state Mbox.messages fst snd].
    rewrite write_loop_kept
      by (apply Forall_kept, (indexes_sizes _ _ Hidx)).
    reflexivity.
  - apply boundaries_concat; assumption.
  - intros opts' chunks error_listeners Hsaved Hchunks.
    pose proof (initialize_scan Text opts' written chunks error_listeners
                  Hsaved Hchunks) as Hinit.
    unfold written in Hinit at 2.
    rewrite (concat_whole_accepted _ _ Hw) in Hinit. exact Hinit.
  - fold written in Hlen. rewrite Hlen. unfold kept_bytes.
    rewrite length_map. reflexivity.
  - exact Hback.
Qed.

Lemma write_compacts_witness :
  let file := first_message ++ second_message ++ first_message in
  let ms := [MboxMessage.mk 0 0 35 false; MboxMessage.mk 1 35 27 true;
             MboxMessage.mk 2 62 35 false] in
  @Mbox.write unit file "out.mbox"
     (ready_with (Mbox.normalize_options None None None None None) ms ms) =
  (Some (first_message ++ first_message),
   [Mbox.write_event true "out.mbox"], Ok tt) /\
  boundaries (first_message ++ first_message) = [0; 35].
Proof.
  intros file ms.
  destruct (write_compacts unit
              (Mbox.normalize_options None None None None None)
              file ms ms "out.mbox") as (Hw & Hb & _).
  { reflexivity. }
  split.
  - rewrite Hw. reflexivity.
  - reflexivity.
Defined.

(** ** Deleting and restoring *)

Lemma nth_error_mark_at ms : forall i j,
  nth_error (Mbox.mark_at ms i) j =
  if Nat.eqb j i then option_map MboxMessage.markDeleted (nth_error ms j)
  else nth_error ms j.
Proof.
  induction ms as [|m rest IH]; intros i j.
  - simpl. destruct i, j; simpl; try reflexivity;
      destruct (Nat.eqb j i); reflexivity.
  - destruct i as [|i], j as [|j]; simpl; try reflexivity.
    apply IH.
Qed.

Lemma length_mark_at ms : forall i, length (Mbox.mark_at ms i) = length ms.
Proof.
  induction ms as [|m rest IH]; intros [|i]; simpl; try reflexivity.
  rewrite IH. reflexivity.
Qed.

Lemma unmark_mark_at ms : forall i,
  map unmark (Mbox.mark_at ms i) = map unmark ms.
Proof.
  induction ms as [|m rest IH]; intros [|i]; simpl; try reflexivity.
  rewrite IH. reflexivity.
Qed.

Lemma kept_mark_at ms : forall i msg,
  nth_error ms i = Some msg -> MboxMessage.deleted msg = false ->
  S (length (kept (Mbox.mark_at ms i))) = length (kept ms).
Proof.
  induction ms as [|m rest IH]; intros [|i] msg; simpl; try discriminate.
  - intros [= ->] Hdel. unfold kept. cbn [filter].
    rewrite Hdel. reflexivity.
  - intros Hnth Hdel. unfold kept in *. cbn [filter].
    destruct (negb (MboxMessage.deleted m)); simpl;
      rewrite <- (IH i msg Hnth Hdel); reflexivity.
Qed.

(** X6. Deleting a message: on a ready index, [delete] of a message that is
    there and not deleted succeeds with one successful ['delete'] event;
    it sets the deleted flag of that message and touches nothing else, so
    [count()] drops by one while [totalCount()], the ranges and the backup
    stay; deleting or getting that message again is refused with
    [MessageNotFoundError] for a deleted message. *)
Theorem delete_marks_message (Text : Type)
    (decode : string -> Buffer.t -> Text) (this : Mbox.t) (index : Z)
    (msg : MboxMessage.t) :
  Mbox.state this = READY ->
  0 <= index ->
  nth_error (Mbox.messages this) (Z.to_nat index) = Some msg ->
  MboxMessage.deleted msg = false ->
  exists this',
    @Mbox.delete Text index this =
      (this', [Mbox.delete_event true index], Ok tt) /\
    nth_error (Mbox.messages this') (Z.to_nat index) =
      Some (MboxMessage.markDeleted msg) /\
    (forall j, j <> Z.to_nat index ->
       nth_error (Mbox.messages this') j = nth_error (Mbox.messages this) j) /\
    S (Mbox.count this') = Mbox.count this /\
    Mbox.totalCount this' = Mbox.totalCount this /\
    map unmark (Mbox.messages this') = map unmark (Mbox.messages this) /\
    Mbox.originalMessages this' = Mbox.originalMessages this /\
    Mbox.state this' = READY /\
    Mbox.options this' = Mbox.options this /\
    @Mbox.delete Text index this' =
      (this', [Mbox.delete_event false index],
       Throw (MessageNotFoundError index deleted_message)) /\
    (forall file asStream enc,
       Mbox.get Text decode file index asStream enc this' =
       (this', [Mbox.get_event false index None],
        Throw (MessageNotFoundError index deleted_message))).
Proof.
  intros Hst Hi Hnth Hdel.
  exists (with_messages this
            (Mbox.mark_at (Mbox.messages this) (Z.to_nat index))).
  assert (nth_error
            (Mbox.mark_at (Mbox.messages this) (Z.to_nat index))
            (Z.to_nat index) = Some (MboxMessage.markDeleted msg)) as Hnew.
  { rewrite nth_error_mark_at, Nat.eqb_refl, Hnth. reflexivity. }
  assert (Mbox.lookup index
            (with_messages this
               (Mbox.mark_at (Mbox.messages this) (Z.to_nat index))) =
          (with_messages this
             (Mbox.mark_at (Mbox.messages this) (Z.to_nat index)),
           Throw (MessageNotFoundError index deleted_message))) as Hgone.
  { op_run. rewrite Hst. cbn [Mbox.messages]. rewrite length_mark_at.
    assert (Z.to_nat index < length (Mbox.messages this))%nat as Hlt
      by (apply nth_error_Some; congruence).
    destruct (Z.ltb_spec index 0); [lia|].
    destruct (Z.leb_spec (Z.of_nat (length (Mbox.messages this))) index);
      [lia|].
    cbn [orb]. rewrite Hnew. reflexivity. }
  repeat split.
  - unfold Mbox.delete, Mbox.delete_try. unfold Mbox.bind at 1.
    rewrite (lookup_found _ _ _ Hst Hi Hnth Hdel). reflexivity.
  - exact Hnew.
  - intros j Hj. unfold with_messages. simpl.
    rewrite nth_error_mark_at.
    destruct (Nat.eqb_spec j (Z.to_nat index)); [contradiction|reflexivity].
  - unfold Mbox.count, with_messages. simpl.
    apply (kept_mark_at _ _ _ Hnth Hdel).
  - unfold Mbox.totalCount, with_messages. simpl. apply length_mark_at.
  - unfold with_messages. simpl. apply unmark_mark_at.
  - exact Hst.
  - unfold Mbox.delete, Mbox.delete_try. unfold Mbox.bind at 1.
    rewrite Hgone. reflexivity.
  - intros file asStream enc.
    unfold Mbox.get, Mbox.get_try. unfold Mbox.bind at 1.
    rewrite Hgone. reflexivity.
Qed.

Lemma delete_marks_message_witness :
  exists this',
    @Mbox.delete unit 1
       (ready_with (Mbox.normalize_options None None None None None)
          (file_index worked_example) (file_index worked_example)) =
    (this', [Mbox.delete_event true 1], Ok tt) /\
    S (Mbox.count this') = 2%nat.
Proof.
  destruct (delete_marks_message unit (fun _ _ => tt)
              (ready_with (Mbox.normalize_options None None None None None)
                 (file_index worked_example) (file_index worked_example))
              1 (MboxMessage.mk 1 35 27 false))
    as (this' & Hdelete & _ & _ & Hcount & _);
    [reflexivity | lia | reflexivity | reflexivity |].
  exists this'. split; [exact Hdelete | exact Hcount].
Defined.

Lemma delete_frame (Text : Type) index this :
  Mbox.state (fst (fst (@Mbox.delete Text index this))) = Mbox.state this /\
  Mbox.options (fst (fst (@Mbox.delete Text index this)))
    = Mbox.options this /\
  Mbox.originalMessages (fst (fst (@Mbox.delete Text index this)))
    = Mbox.originalMessages this /\
  map unmark (Mbox.messages (fst (fst (@Mbox.delete Text index this))))
    = map unmark (Mbox.messages this).
Proof.
  unfold Mbox.delete, Mbox.delete_try, Mbox.lookup, Mbox.require_ready.
  unfold Mbox.bind, Mbox.self, Mbox.ret, Mbox.throw, Mbox.assign_messages.
  destruct (Mbox.state this) eqn:Hst; cbn [fst snd]; auto.
  destruct ((index <? 0) ||
            (Z.of_nat (length (Mbox.messages this)) <=? index));
    cbn [fst snd]; auto.
  destruct (Mbox.message_at this index) as [msg|]; cbn [fst snd]; auto.
  destruct (MboxMessage.deleted msg);
    cbn [fst snd Mbox.state Mbox.options Mbox.originalMessages
         Mbox.messages]; auto.
  repeat split; auto. apply unmark_mark_at.
Qed.

Lemma deletes_frame (Text : Type) indices : forall this,
  Mbox.state (deletes Text indices this) = Mbox.state this /\
  Mbox.options (deletes Text indices this) = Mbox.options this /\
  Mbox.originalMessages (deletes Text indices this)
    = Mbox.originalMessages this /\
  map unmark (Mbox.messages (deletes Text indices this))
    = map unmark (Mbox.messages this).
Proof.
  induction indices as [|index rest IH]; intros this; [auto|].
  cbn [deletes].
  destruct (IH (fst (fst (@Mbox.delete Text index this))))
    as (H1 & H2 & H3 & H4).
  destruct (delete_frame Text index this) as (D1 & D2 & D3 & D4).
  rewrite H1, H2, H3, H4. auto.
Qed.

(** X7. Restoring: on a ready index whose backup satisfies the
    constructor's checks, [reset] after any run of [delete] calls
    succeeds with one successful ['reset'] event and puts the backup back
    as the index, leaving state, options and backup as they were; after a
    scan of a file this is the index of the scan, with nothing deleted. *)
Theorem reset_restores_backup (Text : Type) (this : Mbox.t)
    (indices : list Z) :
  Mbox.state this = READY ->
  Forall valid_message (Mbox.originalMessages this) ->
  @Mbox.reset Text (deletes Text indices this) =
    (with_messages this (Mbox.originalMessages this),
     [Mbox.reset_event true], Ok tt) /\
  (forall opts file,
     this = ready_with opts (file_index file) (file_index file) ->
     with_messages this (Mbox.originalMessages this) = this /\
     Mbox.count this = Mbox.totalCount this).
Proof.
  intros Hst Hvalid. split.
  - destruct (deletes_frame Text indices this) as (H1 & H2 & H3 & _).
    destruct (deletes Text indices this) as [ms' orig' st' opts'].
    cbn [Mbox.state Mbox.options Mbox.originalMessages] in H1, H2, H3.
    subst st' opts' orig'.
    unfold Mbox.reset, Mbox.reset_try, Mbox.require_ready.
    unfold Mbox.bind, Mbox.self, Mbox.ret, Mbox.lift, Mbox.assign_messages.
    cbn [Mbox.state Mbox.originalMessages Mbox.options].
    rewrite Hst.
    cbn [fst snd Mbox.state Mbox.originalMessages Mbox.options].
    rewrite (copy_all_valid _ Hvalid).
    unfold with_messages, Mbox.assign_messages. cbn [fst].
    rewrite Hst. reflexivity.
  - intros opts file ->. split; [reflexivity|].
    unfold Mbox.count, Mbox.totalCount, ready_with. cbn [Mbox.messages].
    fold (kept (file_index file)). unfold file_index.
    rewrite kept_index_of_boundaries. reflexivity.
Qed.

Lemma reset_restores_backup_witness :
  let this := ready_with (Mbox.normalize_options None None None None None)
                (file_index worked_example) (file_index worked_example) in
  @Mbox.reset unit (deletes unit [1; 7; 0; 1] this) =
    (this, [Mbox.reset_event true], Ok tt) /\
  Mbox.count (deletes unit [1; 7; 0; 1] this) = 0%nat /\
  Mbox.count this = 2%nat.
Proof.
  intros this.
  destruct (reset_restores_backup unit this [1; 7; 0; 1]) as [Hreset _];
    [reflexivity | apply file_index_valid |].
  split; [exact Hreset | split; reflexivity].
Defined.

(** ** Saving and restoring the index *)

Lemma fromJSON_toJSON_all ms :
  Forall valid_message ms ->
  map_throwing MboxMessage.fromJSON (map MboxMessage.toJSON ms) = Ok ms.
Proof.
  induction 1 as [|m rest (Hi & Ho & Hs) Hrest IH]; [reflexivity|].
  cbn [map map_throwing]. rewrite IH.
  unfold MboxMessage.fromJSON, MboxMessage.toJSON.
  cbn [MboxMessage.json_index MboxMessage.json_offset
       MboxMessage.json_size MboxMessage.json_deleted].
  rewrite new_valid by assumption. destruct m; reflexivity.
Qed.

(** X8. Saved index round trip: initializing an [Mbox] on a readable file
    with the index that [exportIndex] gave for an [Mbox] whose records
    satisfy the constructor's checks makes it [READY] with the same
    records, deleted flags included, without scanning (the content and the
    chunks of the file play no part); the backup is this restored index,
    so a later [reset] keeps the deletions that were saved. *)
Theorem saved_index_round_trip (Text : Type) (this : Mbox.t)
    (opts : Mbox.NormalizedMboxOptions) (file : Buffer.t)
    (chunks : list Buffer.t) (error_listeners : nat) :
  Forall valid_message (Mbox.messages this) ->
  Mbox.savedIndex opts = Some (Mbox.exportIndex this) ->
  let restored :=
    ready_with opts (Mbox.messages this) (Mbox.messages this) in
  @Mbox.initialize Text (Some file) chunks error_listeners (Mbox.new opts) =
    (restored, [Mbox.init_event true None], Ok tt) /\
  Mbox.exportIndex restored = Mbox.exportIndex this /\
  Mbox.count restored = Mbox.count this /\
  @Mbox.reset Text restored = (restored, [Mbox.reset_event true], Ok tt).
Proof.
  intros Hvalid Hsaved restored. split; [|split; [|split]].
  - unfold Mbox.initialize, Mbox.initialize_try.
    unfold Mbox.bind at 1. unfold Mbox.assign_state at 1.
    unfold Mbox.bind at 1. unfold Mbox.self at 1.
    cbn [Mbox.options Mbox.new]. rewrite Hsaved.
    unfold Mbox.exportIndex, Mbox.backup_messages.
    unfold Mbox.bind, Mbox.lift, Mbox.self, Mbox.assign_messages,
      Mbox.assign_originalMessages, Mbox.assign_state.
    rewrite (fromJSON_toJSON_all _ Hvalid).
    cbn [Mbox.messages]. rewrite (copy_all_valid _ Hvalid).
    reflexivity.
  - reflexivity.
  - reflexivity.
  - unfold Mbox.reset, Mbox.reset_try, Mbox.require_ready, restored,
      ready_with.
    unfold Mbox.bind, Mbox.self, Mbox.ret, Mbox.lift, Mbox.assign_messages.
    cbn [Mbox.state Mbox.originalMessages].
    rewrite (copy_all_valid _ Hvalid). reflexivity.
Qed.

Lemma saved_index_round_trip_witness :
  let saved := [MboxMessage.mkJSON 0 0 35 false;
                MboxMessage.mkJSON 1 35 27 true] in
  let opts := Mbox.normalize_options None None None (Some saved) None in
  @Mbox.initialize unit (Some worked_example) [] 0 (Mbox.new opts) =
  (ready_with opts
     [MboxMessage.mk 0 0 35 false; MboxMessage.mk 1 35 27 true]
     [MboxMessage.mk 0 0 35 false; MboxMessage.mk 1 35 27 true],
   [Mbox.init_event true None], Ok tt).
Proof.
  intros saved opts.
  apply (saved_index_round_trip unit
           (ready_with opts
              [MboxMessage.mk 0 0 35 false; MboxMessage.mk 1 35 27 true] [])
           opts worked_example [] 0).
  - repeat constructor; simpl; lia.
  - reflexivity.
Defined.

(** ** The messages that are visited by default *)

Lemma live_indices_spec ms : forall k,
  let live := filter (fun i => 0 <=? i)
                (Mbox.map_with_index
                   (fun msg i =>
                      if MboxMessage.deleted msg then -1 else Z.of_nat i)
                   ms k) in
  (forall i, In i live <->
     exists j msg, i = Z.of_nat (k + j) /\ nth_error ms j = Some msg /\
                   MboxMessage.deleted msg = false) /\
  length live = length (kept ms) /\
  StronglySorted Z.lt live /\
  Forall (fun i => Z.of_nat k <= i) live.
Proof.
  induction ms as [|m rest IH]; intros k live.
  - subst live. simpl. repeat split; try constructor.
    + contradiction.
    + intros (j & msg & _ & H & _). destruct j; discriminate.
  - destruct (IH (S k)) as (Hin & Hlen & Hsorted & Hge).
    subst live. cbn [Mbox.map_with_index filter kept].
    assert (forall i,
              (exists j msg, i = Z.of_nat (S k + j) /\
                             nth_error rest j = Some msg /\
                             MboxMessage.deleted msg = false) <->
              (exists j msg, i = Z.of_nat (k + S j) /\
                             nth_error (m :: rest) (S j) = Some msg /\
                             MboxMessage.deleted msg = false)) as Hshift.
    { intros i. split; intros (j & msg & -> & H1 & H2);
        exists j, msg; repeat split; auto; lia. }
    destruct (MboxMessage.deleted m) eqn:Hdel; cbn [negb].
    + change (0 <=? -1) with false. cbv iota.
      repeat split.
      * intros Hi. apply Hin, Hshift in Hi.
        destruct Hi as (j & msg & H). exists (S j), msg. exact H.
      * intros (j & msg & -> & Hnth & Hlive). apply Hin.
        destruct j as [|j]; [simpl in Hnth; congruence|].
        apply Hshift. exists j, msg. auto.
      * exact Hlen.
      * exact Hsorted.
      * eapply Forall_impl; [|exact Hge]. cbv beta. intros; lia.
    + replace (0 <=? Z.of_nat k) with true
        by (symmetry; apply Z.leb_le; lia).
      repeat split.
      * intros [<-|Hi].
        -- exists 0%nat, m. rewrite Nat.add_0_r. auto.
        -- apply Hin, Hshift in Hi.
           destruct Hi as (j & msg & H). exists (S j), msg. exact H.
      * intros (j & msg & -> & Hnth & Hlive).
        destruct j as [|j]; [left; f_equal; lia|].
        right. apply Hin, Hshift. exists j, msg. auto.
      * cbn [length]. f_equal. exact Hlen.
      * constructor; [exact Hsorted|].
        eapply Forall_impl; [|exact Hge]. cbv beta. intros; lia.
      * constructor; [lia|].
        eapply Forall_impl; [|exact Hge]. cbv beta. intros; lia.
Qed.

(** X9. The indices visited by default: the list that
    [extractAttachments] computes when no indices are given holds exactly
    the positions of the messages that are not deleted, in ascending
    order and once each, [count()] of them; on a ready index these are
    the positions at which the checks of [get] pass. *)
Theorem default_indices_are_live (this : Mbox.t) :
  (forall i, In i (Mbox.default_indices this) <->
     0 <= i /\
     exists msg, nth_error (Mbox.messages this) (Z.to_nat i) = Some msg /\
                 MboxMessage.deleted msg = false) /\
  length (Mbox.default_indices this) = Mbox.count this /\
  StronglySorted Z.lt (Mbox.default_indices this) /\
  (Mbox.state this = READY ->
   forall i, In i (Mbox.default_indices this) <->
             exists msg, Mbox.lookup i this = (this, Ok msg)).
Proof.
  destruct (live_indices_spec (Mbox.messages this) 0)
    as (Hin & Hlen & Hsorted & _).
  fold (Mbox.default_indices this) in Hin, Hlen, Hsorted.
  assert (forall i, In i (Mbox.default_indices this) <->
     0 <= i /\
     exists msg, nth_error (Mbox.messages this) (Z.to_nat i) = Some msg /\
                 MboxMessage.deleted msg = false) as Hlive.
  { intros i. rewrite Hin. split.
    - intros (j & msg & -> & Hnth & Hdel). split; [lia|].
      exists msg. rewrite Nat2Z.id. auto.
    - intros (Hi & msg & Hnth & Hdel).
      exists (Z.to_nat i), msg. repeat split; auto. simpl. lia. }
  split; [exact Hlive|]. split; [exact Hlen|]. split; [exact Hsorted|].
  intros Hst i. rewrite Hlive. split.
  - intros (Hi & msg & Hnth & Hdel). exists msg.
    apply lookup_found; assumption.
  - intros (msg & Hlook). revert Hlook. op_run. rewrite Hst.
    destruct (Z.ltb_spec i 0); cbn [orb]; [discriminate|].
    destruct (Z.of_nat (length (Mbox.messages this)) <=? i);
      [discriminate|].
    destruct (nth_error (Mbox.messages this) (Z.to_nat i)) as [m|] eqn:Hnth;
      [|discriminate].
    destruct (MboxMessage.deleted m) eqn:Hdel; [discriminate|].
    intros [= <-]. split; [lia|]. exists m. auto.
Qed.

Lemma default_indices_are_live_witness :
  let this := ready_with (Mbox.normalize_options None None None None None)
                [MboxMessage.mk 0 0 35 true; MboxMessage.mk 1 35 27 false;
                 MboxMessage.mk 2 62 35 false] [] in
  Mbox.default_indices this = [1; 2] /\
  exists msg, Mbox.lookup 2 this = (this, Ok msg).
Proof.
  intros this. split; [reflexivity|].
  destruct (default_indices_are_live this) as (_ & _ & _ & Hready).
  apply (Hready eq_refl 2). right; left; reflexivity.
Defined.

(** ** Before the index is ready *)

(** X10. Not ready: while the state of an [Mbox] is not [READY] (before
    initialization has finished, or after it has failed), [get], [delete],
    [reset] and [write] all throw [MboxNotReadyError] carrying the current
    state, emit the failure event of the operation, change nothing and
    open no destination; an unreadable file leaves the state [ERROR], so
    this is what follows a failed initialization. *)
Theorem not_ready_refuses (Text : Type) (decode : string -> Buffer.t -> Text)
    (this : Mbox.t) (file : Buffer.t) (index : Z) (asStream : bool)
    (enc : option string) (destination : string) :
  Mbox.state this <> READY ->
  Mbox.get Text decode file index asStream enc this =
    (this, [Mbox.get_event false index None],
     Throw (MboxNotReadyError (Mbox.state this))) /\
  @Mbox.delete Text index this =
    (this, [Mbox.delete_event false index],
     Throw (MboxNotReadyError (Mbox.state this))) /\
  @Mbox.reset Text this =
    (this, [Mbox.reset_event false],
     Throw (MboxNotReadyError (Mbox.state this))) /\
  @Mbox.write Text file destination this =
    (None, [Mbox.write_event false destination],
     Throw (MboxNotReadyError (Mbox.state this))) /\
  (forall opts chunks error_listeners,
     Mbox.state
       (fst (fst (@Mbox.initialize Text None chunks error_listeners
                    (Mbox.new opts)))) = ERROR /\
     snd (@Mbox.initialize Text None chunks error_listeners (Mbox.new opts))
       = Throw FileNotReadable).
Proof.
  intros Hst. op_run.
  destruct (Mbox.state this) eqn:E; try congruence;
    repeat split; reflexivity.
Qed.

Lemma not_ready_refuses_witness :
  let failed :=
    fst (fst (@Mbox.initialize unit (Some not_an_mbox) [not_an_mbox] 0
                (Mbox.new (Mbox.normalize_options None None None None
                             (Some true))))) in
  Mbox.get unit (fun _ _ => tt) not_an_mbox 0 false None failed =
    (failed, [Mbox.get_event false 0 None],
     Throw (MboxNotReadyError ERROR)).
Proof.
  intros failed.
  apply (not_ready_refuses unit (fun _ _ => tt) failed not_an_mbox 0 false
           None "x").
  discriminate.
Defined.

(** ** The chunked streams of the tests *)

Lemma createChunkedStream_chunks buffer chunkSize offset :
  concat (createChunkedStream buffer chunkSize offset) = skipn offset buffer /\
  Forall (fun chunk => (0 < length chunk <= Pos.to_nat chunkSize)%nat)
         (createChunkedStream buffer chunkSize offset).
Proof.
  funelim (createChunkedStream buffer chunkSize offset).
  - match goal with H : (_ <=? _)%nat = true |- _ =>
      pose proof (proj1 (Nat.leb_le _ _) H) as Hle end.
    split; [|constructor].
    simpl. symmetry. apply skipn_all2. exact Hle.
  - match goal with H : (_ <=? _)%nat = false |- _ =>
      pose proof (proj1 (Nat.leb_gt _ _) H) as Hlt end.
    match goal with IH : _ /\ _ |- _ => destruct IH as [IHc IHf] end.
    split.
    + cbn [concat]. rewrite IHc. unfold Buffer.slice.
      replace (offset + Pos.to_nat chunkSize - offset)%nat
        with (Pos.to_nat chunkSize) by lia.
      rewrite Nat.add_comm, <- skipn_skipn. apply firstn_skipn.
    + constructor; [|exact IHf].
      unfold Buffer.slice. rewrite length_firstn, length_skipn. lia.
Qed.

(** X11. The test helper is independent of the chunk size: the chunks of
    [createChunkedStream] are non-empty, at most [chunkSize] bytes long,
    and make up the content; and [parseBoundaries] resolves, for every
    content and every chunk size, given or not, to the same list: the
    boundaries of the content. *)
Theorem parseBoundaries_any_chunk_size (content : Buffer.t)
    (chunkSize : option N) :
  parseBoundaries content chunkSize = inl (boundaries content) /\
  (forall size : positive,
     concat (createChunkedStream content size 0) = content /\
     Forall (fun chunk => (0 < length chunk <= Pos.to_nat size)%nat)
            (createChunkedStream content size 0)).
Proof.
  split.
  - unfold parseBoundaries.
    set (stream := match chunkSize with
                   | Some (Npos size) => createChunkedStream content size 0
                   | _ => createReadableStream content
                   end).
    assert (concat stream = content) as Hstream.
    { subst stream. destruct chunkSize as [[|size]|];
        try (destruct content; simpl; rewrite ?app_nil_r; reflexivity).
      apply (createChunkedStream_chunks content size 0). }
    destruct (pipe_expected false stream) as [Hp Hf].
    change (new_parser None) with (new_parser (Some false)).
    rewrite Hp, Hf, Hstream. reflexivity.
  - intros size. exact (createChunkedStream_chunks content size 0).
Qed.

(** ** The line-based parser *)

Lemma split_nonempty s : MboxParser.split s <> [].
Proof.
  destruct s as [|c rest]; simpl; [discriminate|].
  destruct (Ascii.eqb c MboxParser.newline); [discriminate|].
  destruct (MboxParser.split rest); discriminate.
Qed.

Lemma with_newlines_cons l rest :
  rest <> [] ->
  with_newlines (l :: rest) = (l ++ [MboxParser.newline]) :: with_newlines rest.
Proof. destruct rest; [congruence | reflexivity]. Qed.

(** Joining the lines gives the text back. *)
Lemma concat_lines_of s : concat (lines_of s) = s.
Proof.
  unfold lines_of. induction s as [|c rest IH]; [reflexivity|].
  cbn [MboxParser.split].
  destruct (Ascii.eqb_spec c MboxParser.newline) as [->|Hc].
  - rewrite with_newlines_cons by apply split_nonempty.
    cbn [concat app]. rewrite IH. reflexivity.
  - destruct (MboxParser.split rest) as [|piece pieces] eqn:E.
    + exfalso. exact (split_nonempty rest E).
    + destruct pieces as [|p pieces].
      * simpl in *. rewrite app_nil_r in *. congruence.
      * cbn [with_newlines concat] in *. rewrite <- IH. reflexivity.
Qed.

Lemma startsWith_iff prefix s :
  MboxParser.startsWith prefix s = true <-> exists rest, s = prefix ++ rest.
Proof.
  revert s; induction prefix as [|p prefix IH]; intros s; simpl.
  - split; [intros _; exists s; reflexivity | reflexivity].
  - destruct s as [|c s].
    + split; [discriminate | intros [rest H]; discriminate].
    + rewrite andb_true_iff, Ascii.eqb_eq, IH. split.
      * intros [-> [rest ->]]. exists rest. reflexivity.
      * intros [rest [= -> ->]]. split; [reflexivity|].
        exists rest. reflexivity.
Qed.

Lemma startsWith_app prefix s t :
  MboxParser.startsWith prefix s = true ->
  MboxParser.startsWith prefix (s ++ t) = true.
Proof.
  rewrite !startsWith_iff. intros [rest ->]. exists (rest ++ t).
  rewrite app_assoc. reflexivity.
Qed.

(** The first line of a text that begins with the keyword begins with
    it. *)
Lemma lines_of_From rest :
  exists l ls,
    lines_of (MboxParser.From_ ++ rest) = l :: ls /\
    MboxParser.startsWith MboxParser.From_ l = true.
Proof.
  unfold lines_of.
  destruct (MboxParser.split rest) as [|piece pieces] eqn:E;
    [exfalso; exact (split_nonempty rest E)|].
  assert (MboxParser.split (MboxParser.From_ ++ rest) =
          (MboxParser.From_ ++ piece) :: pieces) as Hs
    by (cbn; rewrite E; reflexivity).
  rewrite Hs. destruct pieces as [|p pieces].
  - exists (MboxParser.From_ ++ piece), []. split; [reflexivity|].
    apply startsWith_iff. exists piece. reflexivity.
  - eexists _, _. split; [reflexivity|].
    apply startsWith_iff. exists (piece ++ [MboxParser.newline]).
    rewrite app_assoc. reflexivity.
Qed.

Lemma content_loop_run strict pieces : forall st,
  MboxParser.content_loop strict pieces st =
  run_lines strict (with_newlines pieces) st.
Proof.
  induction pieces as [|l rest IH]; intros st; [reflexivity|].
  cbn [MboxParser.content_loop]. destruct rest as [|l' rest].
  - cbn [with_newlines run_lines]. destruct l; reflexivity.
  - rewrite with_newlines_cons by discriminate.
    cbn [run_lines].
    destruct (l ++ [MboxParser.newline]) as [|c line] eqn:E.
    + destruct l; discriminate.
    + destruct (MboxParser.body strict st (c :: line)); [apply IH|].
      reflexivity.
Qed.

Lemma concat_ends_with c (ls : list MboxParser.text) :
  ls <> [] -> Forall (ends_with c) ls -> ends_with c (concat ls).
Proof.
  intros Hne Hall. destruct (exists_last Hne) as (init & x & ->).
  apply Forall_app in Hall as [_ Hx]. apply Forall_inv in Hx.
  destruct Hx as [front ->]. exists (concat init ++ front).
  rewrite concat_app. simpl. rewrite app_nil_r, app_assoc. reflexivity.
Qed.

Lemma finish_in_message st :
  in_message st ->
  MboxParser.finish st =
  MboxParser.messages st ++ [concat (MboxParser.currentMessage st)].
Proof.
  intros (_ & _ & Hcur). unfold MboxParser.finish.
  destruct (MboxParser.currentMessage st); [congruence | reflexivity].
Qed.

Lemma Forall_removelast {A : Type} (P : A -> Prop) (l : list A) :
  Forall P l -> Forall P (removelast l).
Proof.
  induction 1 as [|a l Ha Hl IH]; [constructor|].
  destruct l; [constructor|]. cbn [removelast]. constructor; assumption.
Qed.

(** The loop over the lines that follow the first, in a valid mbox. *)
Lemma run_in_message strict ls : forall st,
  in_message st ->
  Forall (ends_with MboxParser.newline)
         (removelast (MboxParser.currentMessage st ++ ls)) ->
  Forall (ends_with MboxParser.newline) (MboxParser.messages st) ->
  Forall (fun m => MboxParser.startsWith MboxParser.From_ m = true)
         (MboxParser.messages st) ->
  MboxParser.startsWith MboxParser.From_
    (concat (MboxParser.currentMessage st)) = true ->
  exists st',
    run_lines strict ls st = inl st' /\ in_message st' /\
    concat (MboxParser.messages st') ++ concat (MboxParser.currentMessage st')
      = concat (MboxParser.messages st)
        ++ concat (MboxParser.currentMessage st) ++ concat ls /\
    Forall (ends_with MboxParser.newline) (MboxParser.messages st') /\
    Forall (fun m => MboxParser.startsWith MboxParser.From_ m = true)
           (MboxParser.messages st') /\
    MboxParser.startsWith MboxParser.From_
      (concat (MboxParser.currentMessage st')) = true /\
    length (MboxParser.messages st') =
      (length (MboxParser.messages st) +
       length (filter (MboxParser.startsWith MboxParser.From_) ls))%nat.
Proof.
  induction ls as [|l rest IH]; intros st Hin Hnl Hmnl Hmfrom Hcfrom.
  - exists st. simpl. rewrite app_nil_r, Nat.add_0_r. auto 10.
  - destruct Hin as (Hfirst & Hvalid & Hcur).
    destruct l as [|c l].
    + (* an empty line is skipped; it can only be the last one *)
      assert (Forall (ends_with MboxParser.newline)
                (removelast (MboxParser.currentMessage st ++ rest))) as Hnl'.
      { destruct rest as [|l' rest].
        - rewrite app_nil_r. apply Forall_removelast.
          rewrite removelast_last in Hnl. exact Hnl.
        - rewrite removelast_app in Hnl by discriminate.
          apply Forall_app in Hnl as [_ Hnl]. cbn [removelast] in Hnl.
          apply Forall_inv in Hnl. destruct Hnl as [front Hf].
          destruct front; discriminate. }
      destruct (IH st (conj Hfirst (conj Hvalid Hcur)) Hnl' Hmnl Hmfrom Hcfrom)
        as (st' & Hrun & Hin' & Hcat & H1 & H2 & H3 & Hlen).
      exists st'. cbn [run_lines concat filter MboxParser.startsWith app].
      auto 10.
    + cbn [run_lines]. unfold MboxParser.body. rewrite Hfirst.
      unfold MboxParser.take_line. rewrite Hvalid. cbn [negb].
      assert ((0 <? length (MboxParser.currentMessage st))%nat = true)
        as Hpos.
      { apply Nat.ltb_lt. destruct (MboxParser.currentMessage st);
          [congruence | simpl; lia]. }
      rewrite Hpos, andb_true_r.
      destruct (MboxParser.startsWith MboxParser.From_ (c :: l)) eqn:Hfrom;
        cbn [MboxParser.messages MboxParser.currentMessage
             MboxParser.isFirstLine MboxParser.isValidMbox app].
      * (* a [From ] line closes the current message *)
        assert (Forall (ends_with MboxParser.newline)
                  (MboxParser.currentMessage st)) as Hcnl.
        { rewrite removelast_app in Hnl by discriminate.
          apply Forall_app in Hnl; tauto. }
        match goal with |- context [run_lines _ _ ?s] =>
          destruct (IH s) as (st' & Hrun & Hin' & Hcat & H1 & H2 & H3 & Hlen)
        end; cbn [MboxParser.messages MboxParser.currentMessage
                  MboxParser.isFirstLine MboxParser.isValidMbox].
        -- unfold in_message. cbn [MboxParser.currentMessage
             MboxParser.isFirstLine MboxParser.isValidMbox].
           repeat split; try assumption; discriminate.
        -- rewrite removelast_app in Hnl by discriminate.
           apply Forall_app in Hnl as [_ Hnl]. exact Hnl.
        -- apply Forall_app. split; [exact Hmnl|].
           constructor; [|constructor].
           apply concat_ends_with; assumption.
        -- apply Forall_app. split; [exact Hmfrom|].
           constructor; [exact Hcfrom | constructor].
        -- simpl. rewrite app_nil_r. exact Hfrom.
        -- cbn [MboxParser.messages MboxParser.currentMessage] in Hcat, Hlen.
           exists st'. split; [exact Hrun|]. split; [exact Hin'|].
           split; [|split; [exact H1|split; [exact H2|split; [exact H3|]]]].
           ++ rewrite Hcat, concat_app. cbn [concat].
              rewrite !app_nil_r, <- !app_assoc. reflexivity.
           ++ rewrite Hlen, length_app. cbn [filter length].
              rewrite Hfrom. cbn [length]. lia.
      * (* any other line joins the current message *)
        match goal with |- context [run_lines _ _ ?s] =>
          destruct (IH s) as (st' & Hrun & Hin' & Hcat & H1 & H2 & H3 & Hlen)
        end; cbn [MboxParser.messages MboxParser.currentMessage
                  MboxParser.isFirstLine MboxParser.isValidMbox].
        -- unfold in_message. cbn [MboxParser.currentMessage
             MboxParser.isFirstLine MboxParser.isValidMbox].
           repeat split; try assumption.
           destruct (MboxParser.currentMessage st); discriminate.
        -- rewrite <- app_assoc. exact Hnl.
        -- exact Hmnl.
        -- exact Hmfrom.
        -- rewrite concat_app. apply startsWith_app. exact Hcfrom.
        -- cbn [MboxParser.messages MboxParser.currentMessage] in Hcat, Hlen.
           exists st'. split; [exact Hrun|]. split; [exact Hin'|].
           split; [|split; [exact H1|split; [exact H2|split; [exact H3|]]]].
           ++ rewrite Hcat, concat_app. cbn [concat].
              rewrite !app_nil_r, <- !app_assoc. reflexivity.
           ++ rewrite Hlen. cbn [filter]. rewrite Hfrom. reflexivity.
Qed.

Lemma removelast_with_newlines pieces :
  Forall (ends_with MboxParser.newline) (removelast (with_newlines pieces)).
Proof.
  induction pieces as [|l rest IH]; [constructor|].
  destruct rest as [|l' rest]; [constructor|].
  rewrite with_newlines_cons by discriminate.
  change (removelast ((l ++ [MboxParser.newline])
                      :: with_newlines (l' :: rest)))
    with (match with_newlines (l' :: rest) with
          | [] => []
          | _ :: _ => (l ++ [MboxParser.newline])
                      :: removelast (with_newlines (l' :: rest))
          end).
  destruct (with_newlines (l' :: rest)) eqn:E; [constructor|].
  constructor; [exists l; reflexivity | exact IH].
Qed.

Lemma parseText_run strict s :
  MboxParser.parseText strict s =
  match run_lines strict (lines_of s) MboxParser.initial with
  | inl st => inl (MboxParser.finish st)
  | inr e => inr e
  end.
Proof.
  unfold MboxParser.parseText. rewrite content_loop_run. reflexivity.
Qed.

(** The state after a first line that begins with the keyword. *)
Lemma first_line_From strict l :
  MboxParser.startsWith MboxParser.From_ l = true ->
  MboxParser.body strict MboxParser.initial l =
  Some {| MboxParser.messages := []; MboxParser.currentMessage := [l];
          MboxParser.isFirstLine := false;
          MboxParser.isValidMbox := true |}.
Proof.
  intros H. unfold MboxParser.body.
  cbn [MboxParser.isFirstLine MboxParser.initial]. rewrite H.
  reflexivity.
Qed.

Lemma startsWith_nonempty l :
  MboxParser.startsWith MboxParser.From_ l = true -> l <> [].
Proof. intros H ->. discriminate. Qed.

(** The text begins with the keyword: what the loop of [parseContent]
    ends with. *)
Lemma parseText_valid strict s :
  MboxParser.startsWith MboxParser.From_ s = true ->
  exists msgs,
    MboxParser.parseText strict s = inl msgs /\
    concat msgs = s /\
    Forall (fun m => MboxParser.startsWith MboxParser.From_ m = true) msgs /\
    Forall (ends_with MboxParser.newline) (removelast msgs) /\
    length msgs = length (From_lines s) /\
    msgs <> [].
Proof.
  intros Hs. apply startsWith_iff in Hs as [rest ->].
  destruct (lines_of_From rest) as (l & ls & Hlines & Hl).
  pose proof (concat_lines_of (MboxParser.From_ ++ rest)) as Hjoin.
  pose proof (removelast_with_newlines
                (MboxParser.split (MboxParser.From_ ++ rest))) as Hnl.
  fold (lines_of (MboxParser.From_ ++ rest)) in Hnl.
  rewrite parseText_run. unfold From_lines. rewrite Hlines in *.
  pose proof (startsWith_nonempty _ Hl) as Hne.
  destruct l as [|c l]; [congruence|].
  cbn [run_lines]. rewrite (first_line_From strict _ Hl).
  match goal with |- context [run_lines _ _ ?s] =>
    destruct (run_in_message strict ls s)
      as (st' & Hrun & Hin' & Hcat & H1 & H2 & H3 & Hlen)
  end; cbn [MboxParser.messages MboxParser.currentMessage
            MboxParser.isFirstLine MboxParser.isValidMbox].
  - unfold in_message. simpl. repeat split; discriminate.
  - exact Hnl.
  - constructor.
  - constructor.
  - simpl. rewrite app_nil_r. exact Hl.
  - cbn [MboxParser.messages MboxParser.currentMessage concat app length]
      in Hcat, Hlen.
    rewrite app_nil_r in Hcat.
    rewrite Hrun, (finish_in_message _ Hin').
    eexists. split; [reflexivity|].
    split; [|split; [|split; [|split]]].
    + rewrite concat_app. cbn [concat]. rewrite app_nil_r, Hcat.
      exact Hjoin.
    + apply Forall_app. split; [exact H2|].
      constructor; [exact H3 | constructor].
    + rewrite removelast_last. exact H1.
    + rewrite length_app, Hlen. cbn [filter length]. rewrite Hl.
      cbn [length]. lia.
    + intros H. apply app_eq_nil in H as [_ H]. discriminate.
Qed.

(** X12. [parseContent] on a text that begins with [From ]: in either
    mode it returns messages that, joined, give the text back; each
    begins with [From ], each but the last ends with a newline, and
    there is one message per line that begins with [From ]; so
    [getMessageCount] of such a file counts these lines. *)
Theorem parseContent_valid_mbox (toString : Buffer.t -> MboxParser.text)
    (strict : bool) (content : MboxParser.text + Buffer.t) :
  MboxParser.startsWith MboxParser.From_ (text_of toString content) = true ->
  exists msgs,
    MboxParser.parseContent toString strict content = inl msgs /\
    concat msgs = text_of toString content /\
    Forall (fun m => MboxParser.startsWith MboxParser.From_ m = true) msgs /\
    Forall (ends_with MboxParser.newline) (removelast msgs) /\
    length msgs = length (From_lines (text_of toString content)) /\
    (forall file, content = inr file ->
       MboxParser.getMessageCount toString strict (Some file) =
       inl (length (From_lines (toString file)))).
Proof.
  intros Hs.
  destruct (parseText_valid strict _ Hs)
    as (msgs & Hparse & Hcat & Hfrom & Hnl & Hlen & _).
  exists msgs. repeat split; try assumption.
  intros file ->. unfold MboxParser.getMessageCount, MboxParser.parseFile,
    MboxParser.parseContent.
  cbn [text_of] in Hparse, Hlen. rewrite Hparse, Hlen. reflexivity.
Qed.

Lemma parseContent_valid_mbox_witness :
  let s := list_ascii_of_string "From a" ++ [MboxParser.newline] ++
           list_ascii_of_string "Hi From b" ++ [MboxParser.newline] ++
           list_ascii_of_string "From c" in
  exists msgs,
    MboxParser.parseContent (fun _ => []) true (inl s) = inl msgs /\
    concat msgs = s /\ length msgs = 2%nat.
Proof.
  intros s.
  destruct (parseContent_valid_mbox (fun _ => []) true (inl s))
    as (msgs & Hparse & Hcat & _ & _ & Hlen & _); [reflexivity|].
  exists msgs. split; [exact Hparse|]. split; [exact Hcat | exact Hlen].
Defined.

Lemma run_invalid strict ls : forall st,
  MboxParser.isFirstLine st = false -> MboxParser.isValidMbox st = false ->
  run_lines strict ls st = inl st.
Proof.
  induction ls as [|l rest IH]; intros st Hfirst Hvalid; [reflexivity|].
  destruct l as [|c l]; cbn [run_lines]; [apply IH; assumption|].
  unfold MboxParser.body, MboxParser.take_line.
  rewrite Hfirst, Hvalid. cbn [negb]. apply IH; assumption.
Qed.

Lemma lines_of_first s :
  s <> [] -> exists l ls, lines_of s = l :: ls /\ l <> [].
Proof.
  intros Hs. unfold lines_of.
  destruct (MboxParser.split s) as [|piece pieces] eqn:E;
    [exfalso; exact (split_nonempty s E)|].
  destruct pieces as [|p pieces].
  - exists piece, []. split; [reflexivity|].
    pose proof (concat_lines_of s) as Hj. unfold lines_of in Hj.
    rewrite E in Hj. simpl in Hj. rewrite app_nil_r in Hj. congruence.
  - eexists _, _. split; [reflexivity|]. destruct piece; discriminate.
Qed.

(** X13. [parseContent] on a text that does not begin with [From ]: in
    non-strict mode it returns no message at all, whatever [From ] lines
    follow; in strict mode it throws, except on the empty text, for which
    it returns no message. *)
Theorem parseContent_not_mbox (toString : Buffer.t -> MboxParser.text)
    (content : MboxParser.text + Buffer.t) :
  MboxParser.startsWith MboxParser.From_ (text_of toString content) = false ->
  MboxParser.parseContent toString false content = inl [] /\
  MboxParser.parseContent toString true content =
    match text_of toString content with
    | [] => inl []
    | _ :: _ => inr MboxParser.NOT_AN_MBOX_FILE_file
    end.
Proof.
  unfold MboxParser.parseContent. fold (text_of toString content).
  generalize (text_of toString content) as s. intros s Hs.
  rewrite !parseText_run.
  destruct s as [|c s]; [split; reflexivity|].
  destruct (lines_of_first (c :: s)) as (l & ls & Hlines & Hl);
    [discriminate|].
  assert (MboxParser.startsWith MboxParser.From_ l = false) as Hfrom.
  { destruct (MboxParser.startsWith MboxParser.From_ l) eqn:E;
      [|reflexivity].
    pose proof (concat_lines_of (c :: s)) as Hj. rewrite Hlines in Hj.
    cbn [concat] in Hj.
    rewrite <- Hj, (startsWith_app _ _ _ E) in Hs. discriminate. }
  rewrite Hlines. destruct l as [|c' l]; [congruence|].
  cbn [run_lines]. unfold MboxParser.body. cbn [MboxParser.isFirstLine
    MboxParser.initial]. rewrite Hfrom. split; [|reflexivity].
  rewrite run_invalid by reflexivity. reflexivity.
Qed.

Lemma parseContent_not_mbox_witness :
  let s := list_ascii_of_string "Not an mbox" ++ [MboxParser.newline] ++
           list_ascii_of_string "From someone" ++ [MboxParser.newline] in
  MboxParser.parseContent (fun _ => []) false (inl s) = inl [] /\
  MboxParser.parseContent (fun _ => []) true (inl s) =
    inr MboxParser.NOT_AN_MBOX_FILE_file.
Proof.
  intros s.
  apply (parseContent_not_mbox (fun _ => []) (inl s)). reflexivity.
Defined.

(** ** The line-based parser on a stream *)

Lemma last_app_nonempty {A : Type} (l l' : list A) d :
  l' <> [] -> last (l ++ l') d = last l' d.
Proof.
  intros Hne. induction l as [|a l IH]; [reflexivity|].
  cbn [app]. destruct (l ++ l') eqn:E.
  - apply app_eq_nil in E as [_ E]. congruence.
  - rewrite <- E in *. rewrite <- IH. rewrite E. reflexivity.
Qed.

(** Cutting a text that grows: the complete lines stay, the rest is cut
    again with what is added. *)
Lemma split_app a b :
  MboxParser.split (a ++ b) =
  removelast (MboxParser.split a) ++
  MboxParser.split (last (MboxParser.split a) [] ++ b).
Proof.
  induction a as [|c a IH]; [reflexivity|].
  cbn [app MboxParser.split].
  destruct (Ascii.eqb c MboxParser.newline) eqn:Ec.
  - pose proof (split_nonempty a) as Hne.
    destruct (MboxParser.split a) as [|p ps] eqn:E; [congruence|].
    rewrite IH. reflexivity.
  - rewrite IH. pose proof (split_nonempty a) as Hne.
    destruct (MboxParser.split a) as [|p ps] eqn:E; [congruence|].
    destruct ps as [|p' ps].
    + cbn [removelast last app MboxParser.split].
      rewrite Ec. reflexivity.
    + reflexivity.
Qed.

Lemma body_not_first strict st line st' :
  MboxParser.body strict st line = Some st' ->
  MboxParser.isFirstLine st' = false.
Proof.
  unfold MboxParser.body, MboxParser.take_line.
  destruct (MboxParser.isFirstLine st) eqn:Hfirst.
  - destruct (MboxParser.startsWith MboxParser.From_ line).
    + cbn [negb MboxParser.isValidMbox MboxParser.currentMessage].
      intros [= <-].
      match goal with |- context [if ?b then _ else _] => destruct b end;
        reflexivity.
    + destruct strict; [discriminate|]. intros [= <-]. reflexivity.
  - intros [= <-]. destruct (negb (MboxParser.isValidMbox st)); [exact Hfirst|].
    match goal with |- context [if ?b then _ else _] => destruct b end;
      first [exact Hfirst | reflexivity].
Qed.

(** Once the first line is past, the ['data'] loop refuses nothing; in a
    text that is not an mbox it changes nothing either. *)
Lemma data_loop_settled strict ls : forall st,
  MboxParser.isFirstLine st = false ->
  snd (MboxParser.data_loop strict ls st) = false /\
  MboxParser.isFirstLine (fst (MboxParser.data_loop strict ls st)) = false /\
  (MboxParser.isValidMbox st = false ->
   fst (MboxParser.data_loop strict ls st) = st).
Proof.
  induction ls as [|l rest IH]; intros st Hfirst; [auto|].
  cbn [MboxParser.data_loop].
  destruct (MboxParser.body strict st (l ++ [MboxParser.newline]))
    as [st'|] eqn:Hbody.
  - pose proof (body_not_first _ _ _ _ Hbody) as Hfirst'.
    destruct (IH st' Hfirst') as (H1 & H2 & H3).
    split; [exact H1|]. split; [exact H2|].
    intros Hvalid. unfold MboxParser.body, MboxParser.take_line in Hbody.
    rewrite Hfirst, Hvalid in Hbody. cbn [negb] in Hbody.
    injection Hbody as <-. auto.
  - unfold MboxParser.body in Hbody. rewrite Hfirst in Hbody. discriminate.
Qed.

Lemma data_loop_first strict ls st :
  snd (MboxParser.data_loop strict ls st) = true ->
  MboxParser.isFirstLine (fst (MboxParser.data_loop strict ls st)) = false /\
  MboxParser.isValidMbox (fst (MboxParser.data_loop strict ls st)) =
    MboxParser.isValidMbox st.
Proof.
  destruct ls as [|l rest]; cbn [MboxParser.data_loop]; [discriminate|].
  destruct (MboxParser.body strict st (l ++ [MboxParser.newline]))
    as [st'|] eqn:Hbody.
  - pose proof (body_not_first _ _ _ _ Hbody) as Hfirst'.
    destruct (data_loop_settled strict rest st' Hfirst') as (H1 & _).
    rewrite H1. discriminate.
  - intros _. split; reflexivity.
Qed.

Lemma data_loop_app strict l1 l2 st :
  MboxParser.data_loop strict (l1 ++ l2) st =
  if snd (MboxParser.data_loop strict l1 st)
  then MboxParser.data_loop strict l1 st
  else MboxParser.data_loop strict l2
         (fst (MboxParser.data_loop strict l1 st)).
Proof.
  revert st; induction l1 as [|l rest IH]; intros st; [reflexivity|].
  cbn [app MboxParser.data_loop].
  destruct (MboxParser.body strict st (l ++ [MboxParser.newline]));
    [apply IH | reflexivity].
Qed.

Lemma Streamed_start strict :
  Streamed strict []
    {| MboxParser.vars := MboxParser.initial; MboxParser.buffer := [];
       MboxParser.rejected_with := None |}.
Proof. repeat split. Qed.

(** One ['data'] event. *)
Lemma on_data_Streamed toString strict s state chunk :
  Streamed strict s state ->
  Streamed strict (s ++ toString chunk)
    (MboxParser.on_data toString strict state chunk).
Proof.
  intros (Hbuf & Hvars & Hrej). unfold Streamed, MboxParser.on_data.
  rewrite Hbuf, Hvars, Hrej. rewrite (split_app s (toString chunk)).
  set (lines := MboxParser.split (last (MboxParser.split s) []
                                  ++ toString chunk)).
  assert (lines <> []) as Hne by apply split_nonempty.
  rewrite removelast_app, last_app_nonempty by exact Hne.
  rewrite data_loop_app.
  set (before := MboxParser.data_loop strict
                   (removelast (MboxParser.split s)) MboxParser.initial).
  destruct (snd before) eqn:Hr.
  - (* already rejected: the lines change nothing *)
    destruct (data_loop_first _ _ _ Hr) as [Hfirst Hvalid].
    fold before in Hfirst, Hvalid.
    destruct (data_loop_settled strict (removelast lines) (fst before) Hfirst)
      as (H1 & _ & H3).
    specialize (H3 Hvalid).
    destruct (MboxParser.data_loop strict (removelast lines) (fst before))
      as [after r]. cbn [fst snd] in *. subst.
    cbn [MboxParser.buffer MboxParser.vars MboxParser.rejected_with].
    rewrite Hr. auto.
  - destruct (MboxParser.data_loop strict (removelast lines) (fst before))
      as [after r].
    cbn [MboxParser.buffer MboxParser.vars MboxParser.rejected_with fst snd].
    auto.
Qed.

Lemma fold_Streamed toString strict chunks : forall s state,
  Streamed strict s state ->
  Streamed strict (s ++ decoded toString chunks)
    (fold_left (MboxParser.on_data toString strict) chunks state).
Proof.
  induction chunks as [|chunk rest IH]; intros s state H.
  - unfold decoded. simpl. rewrite app_nil_r. exact H.
  - cbn [fold_left]. unfold decoded. cbn [map concat].
    rewrite app_assoc. apply IH, on_data_Streamed, H.
Qed.

(** [parseStream] settles to a function of the decoded text. *)
Lemma parseStream_settles toString strict chunks :
  MboxParser.parseStream toString strict chunks =
  stream_settles strict (decoded toString chunks).
Proof.
  unfold MboxParser.parseStream, stream_settles.
  destruct (fold_Streamed toString strict chunks [] _ (Streamed_start strict))
    as (Hbuf & Hvars & Hrej).
  cbn [app] in *. rewrite Hrej.
  destruct (MboxParser.data_loop strict
              (removelast (MboxParser.split (decoded toString chunks)))
              MboxParser.initial) as [st r].
  cbn [fst snd] in *. destruct r; [reflexivity|].
  unfold MboxParser.on_end. rewrite Hbuf, Hvars. reflexivity.
Qed.

(** X14. Chunking invariance of [parseStream]: two streams whose chunks
    decode to the same text, however it is cut, settle alike, in
    messages or in the rejection, in either mode. *)
Theorem parseStream_chunking_invariance
    (toString : Buffer.t -> MboxParser.text) (strict : bool)
    (chunks1 chunks2 : list Buffer.t) :
  decoded toString chunks1 = decoded toString chunks2 ->
  MboxParser.parseStream toString strict chunks1 =
  MboxParser.parseStream toString strict chunks2.
Proof.
  intros Hsame. rewrite !parseStream_settles, Hsame. reflexivity.
Qed.

Lemma parseStream_chunking_invariance_witness :
  MboxParser.parseStream toString_ascii true
    [Buffer.from "From a"; Buffer.from "b"] =
  MboxParser.parseStream toString_ascii true
    [Buffer.from "Fr"; Buffer.from "om "; Buffer.from "ab"].
Proof.
  apply (parseStream_chunking_invariance toString_ascii true). reflexivity.
Defined.

Lemma with_newlines_split pieces :
  pieces <> [] ->
  with_newlines pieces =
  map (fun l => l ++ [MboxParser.newline]) (removelast pieces)
  ++ [last pieces []].
Proof.
  induction pieces as [|l rest IH]; [congruence|]. intros _.
  destruct rest as [|l' rest]; [reflexivity|].
  rewrite with_newlines_cons by discriminate.
  rewrite IH by discriminate. reflexivity.
Qed.

Lemma run_lines_app strict l1 l2 : forall st,
  run_lines strict (l1 ++ l2) st =
  match run_lines strict l1 st with
  | inl st' => run_lines strict l2 st'
  | inr e => inr e
  end.
Proof.
  induction l1 as [|l rest IH]; intros st; [reflexivity|].
  cbn [app]. destruct l as [|c l]; cbn [run_lines]; [apply IH|].
  destruct (MboxParser.body strict st (c :: l)); [apply IH | reflexivity].
Qed.

(** The ['data'] loop over complete lines and the loop of
    [parseContent] over the same lines with their newlines. *)
Lemma data_loop_run strict ls : forall st,
  match run_lines strict (map (fun l => l ++ [MboxParser.newline]) ls) st with
  | inl st' => MboxParser.data_loop strict ls st = (st', false)
  | inr _ => snd (MboxParser.data_loop strict ls st) = true
  end.
Proof.
  induction ls as [|l rest IH]; intros st; [reflexivity|].
  cbn [map MboxParser.data_loop].
  destruct (l ++ [MboxParser.newline]) as [|c line] eqn:E;
    [apply app_eq_nil in E as [_ E]; discriminate|].
  cbn [run_lines].
  destruct (MboxParser.body strict st (c :: line)); [apply IH | reflexivity].
Qed.

(** The ['end'] handler in a valid mbox does what one more turn of the
    loop of [parseContent] does. *)
Lemma on_end_run strict st tail rejected :
  MboxParser.isFirstLine st = false ->
  MboxParser.isValidMbox st = true ->
  inl (MboxParser.on_end
         {| MboxParser.vars := st; MboxParser.buffer := tail;
            MboxParser.rejected_with := rejected |}) =
  match run_lines strict [tail] st with
  | inl st' => inl (MboxParser.finish st')
  | inr e => inr e
  end.
Proof.
  intros Hfirst Hvalid. unfold MboxParser.on_end.
  cbn [MboxParser.vars MboxParser.buffer].
  destruct tail as [|c tail]; [reflexivity|].
  cbn [run_lines]. unfold MboxParser.body, MboxParser.take_line.
  rewrite Hfirst, Hvalid. reflexivity.
Qed.

Lemma lines_of_split s :
  lines_of s =
  map (fun l => l ++ [MboxParser.newline]) (removelast (MboxParser.split s))
  ++ [last (MboxParser.split s) []].
Proof. apply with_newlines_split, split_nonempty. Qed.

(** On a text that begins with the keyword the stream and the content
    parsers end alike. *)
Lemma stream_settles_valid strict s :
  MboxParser.startsWith MboxParser.From_ s = true ->
  stream_settles strict s = MboxParser.parseText strict s.
Proof.
  intros Hs. pose proof Hs as Hs'.
  apply startsWith_iff in Hs' as [rest Hrest].
  destruct (lines_of_From rest) as (l & ls & Hlines & Hl).
  rewrite <- Hrest in Hlines.
  pose proof (concat_lines_of s) as Hjoin.
  pose proof (removelast_with_newlines (MboxParser.split s)) as Hnl.
  fold (lines_of s) in Hnl.
  rewrite parseText_run. unfold stream_settles.
  rewrite lines_of_split in Hlines, Hjoin, Hnl |- *.
  destruct (removelast (MboxParser.split s)) as [|a complete].
  - (* no newline in the text *)
    cbn [map app concat] in Hjoin, Hlines |- *. rewrite app_nil_r in Hjoin.
    rewrite Hjoin. cbn [MboxParser.data_loop].
    destruct s as [|c s]; [discriminate|].
    cbn [run_lines]. rewrite (first_line_From strict _ Hs).
    unfold MboxParser.on_end.
    cbn [MboxParser.vars MboxParser.buffer MboxParser.initial
         MboxParser.currentMessage MboxParser.messages length Nat.ltb
         Nat.leb andb].
    rewrite Bool.andb_false_r. reflexivity.
  - cbn [map app] in Hlines, Hnl |- *. injection Hlines as Hl' Hls.
    rewrite <- Hl' in Hl.
    cbn [MboxParser.data_loop]. rewrite (first_line_From strict _ Hl).
    destruct (a ++ [MboxParser.newline]) as [|c line] eqn:E;
      [apply app_eq_nil in E as [_ E]; discriminate|].
    cbn [run_lines]. rewrite (first_line_From strict _ Hl).
    rewrite run_lines_app.
    match goal with |- context [MboxParser.data_loop _ _ ?s1] =>
      destruct (run_in_message strict
                  (map (fun l => l ++ [MboxParser.newline]) complete) s1)
        as (st' & Hrun & (Hfirst & Hvalid & _) & _);
      [ unfold in_message; cbn; repeat split; discriminate
      | cbn [MboxParser.currentMessage]
      | constructor
      | constructor
      | cbn [MboxParser.currentMessage concat]; rewrite app_nil_r; exact Hl
      | pose proof (data_loop_run strict complete s1) as Hloop ]
    end.
    + cbn [app]. apply Forall_removelast.
      rewrite app_comm_cons, removelast_last in Hnl.
      exact Hnl.
    + rewrite Hrun in Hloop |- *. rewrite Hloop.
      apply on_end_run; assumption.
Qed.

(** X15. [parseStream] and [parseContent] agree on an mbox: when the
    decoded text of the stream begins with [From ], then however the
    stream is chunked and in either mode, [parseStream] resolves with
    the messages that [parseContent] returns for that text. *)
Theorem parseStream_agrees_with_parseContent
    (toString : Buffer.t -> MboxParser.text) (strict : bool)
    (chunks : list Buffer.t) :
  MboxParser.startsWith MboxParser.From_ (decoded toString chunks) = true ->
  MboxParser.parseStream toString strict chunks =
  MboxParser.parseContent toString strict (inl (decoded toString chunks)).
Proof.
  intros Hs. rewrite parseStream_settles. apply stream_settles_valid, Hs.
Qed.

Lemma parseStream_agrees_with_parseContent_witness :
  MboxParser.parseStream toString_ascii true
    [Buffer.from "From a"; [Byte.x0a]; Buffer.from "Fr";
     Buffer.from "om b"] =
  MboxParser.parseContent toString_ascii true
    (inl (decoded toString_ascii
            [Buffer.from "From a"; [Byte.x0a]; Buffer.from "Fr";
             Buffer.from "om b"])).
Proof.
  apply (parseStream_agrees_with_parseContent toString_ascii true).
  reflexivity.
Defined.

Lemma split_without_newline s :
  has_newline s = false -> MboxParser.split s = [s].
Proof.
  unfold has_newline. induction s as [|c s IH]; [reflexivity|].
  cbn [existsb MboxParser.split].
  destruct (Ascii.eqb c MboxParser.newline); [discriminate|].
  cbn [orb]. intros H. rewrite (IH H). reflexivity.
Qed.

Lemma split_with_newline s :
  has_newline s = true -> removelast (MboxParser.split s) <> [].
Proof.
  unfold has_newline. induction s as [|c s IH]; [discriminate|].
  cbn [existsb MboxParser.split].
  pose proof (split_nonempty s) as Hne.
  destruct (Ascii.eqb c MboxParser.newline).
  - intros _. destruct (MboxParser.split s); [congruence | discriminate].
  - cbn [orb]. intros H. specialize (IH H).
    destruct (MboxParser.split s) as [|p ps]; [congruence|].
    destruct ps; [exact IH | discriminate].
Qed.

(** The ['end'] handler when no message was ever begun. *)
Lemma on_end_unbegun s first valid :
  MboxParser.on_end
    {| MboxParser.vars :=
         {| MboxParser.messages := []; MboxParser.currentMessage := [];
            MboxParser.isFirstLine := first;
            MboxParser.isValidMbox := valid |};
       MboxParser.buffer := last (MboxParser.split s) [];
       MboxParser.rejected_with := None |} =
  unterminated_tail s.
Proof.
  unfold MboxParser.on_end, unterminated_tail.
  cbn [MboxParser.vars MboxParser.buffer].
  destruct (last (MboxParser.split s) []) as [|c tail]; [reflexivity|].
  cbn [MboxParser.currentMessage MboxParser.messages length Nat.ltb Nat.leb].
  rewrite Bool.andb_false_r.
  unfold MboxParser.finish.
  cbn [MboxParser.currentMessage MboxParser.messages length Nat.ltb Nat.leb
       app concat].
  rewrite app_nil_r. reflexivity.
Qed.

Lemma stream_settles_not_mbox s :
  MboxParser.startsWith MboxParser.From_ s = false ->
  stream_settles false s = inl (unterminated_tail s) /\
  stream_settles true s =
    if has_newline s then inr MboxParser.NOT_AN_MBOX_FILE_stream
    else inl (unterminated_tail s).
Proof.
  intros Hs. unfold stream_settles.
  destruct (has_newline s) eqn:Hnl.
  - pose proof (split_with_newline s Hnl) as Hne.
    pose proof (concat_lines_of s) as Hjoin.
    rewrite lines_of_split in Hjoin.
    destruct (removelast (MboxParser.split s)) as [|a complete];
      [congruence|].
    cbn [map app concat] in Hjoin.
    assert (MboxParser.startsWith MboxParser.From_
              (a ++ [MboxParser.newline]) = false) as Hfrom.
    { destruct (MboxParser.startsWith MboxParser.From_
                  (a ++ [MboxParser.newline])) eqn:E; [|reflexivity].
      rewrite <- Hjoin, (startsWith_app _ _ _ E) in Hs. discriminate. }
    cbn [MboxParser.data_loop]. unfold MboxParser.body.
    cbn [MboxParser.isFirstLine MboxParser.initial]. rewrite Hfrom.
    split; [|reflexivity].
    match goal with |- context [MboxParser.data_loop _ _ ?s0] =>
      destruct (data_loop_settled false complete s0 eq_refl)
        as (Hsnd & _ & Hfst);
      specialize (Hfst eq_refl);
      destruct (MboxParser.data_loop false complete s0) as [st r]
    end.
    cbn [fst snd] in Hsnd, Hfst. subst st r.
    cbn [MboxParser.messages MboxParser.currentMessage MboxParser.initial].
    rewrite on_end_unbegun. reflexivity.
  - rewrite (split_without_newline s Hnl).
    cbn [removelast MboxParser.data_loop].
    unfold MboxParser.initial.
    rewrite <- (split_without_newline s Hnl), on_end_unbegun.
    split; reflexivity.
Qed.

(** X16. [parseStream] on a text that does not begin with [From ]: in
    non-strict mode it resolves with what follows the last newline as a
    single message (with nothing when the text ends with a newline or is
    empty); strict mode rejects only when the text holds a newline, and
    otherwise resolves in the same way. *)
Theorem parseStream_not_mbox (toString : Buffer.t -> MboxParser.text)
    (chunks : list Buffer.t) :
  MboxParser.startsWith MboxParser.From_ (decoded toString chunks) = false ->
  MboxParser.parseStream toString false chunks =
    inl (unterminated_tail (decoded toString chunks)) /\
  MboxParser.parseStream toString true chunks =
    if has_newline (decoded toString chunks)
    then inr MboxParser.NOT_AN_MBOX_FILE_stream
    else inl (unterminated_tail (decoded toString chunks)).
Proof.
  intros Hs. rewrite !parseStream_settles.
  apply stream_settles_not_mbox, Hs.
Qed.

Lemma parseStream_not_mbox_witness :
  MboxParser.parseStream toString_ascii false
    [Buffer.from "junk"; [Byte.x0a]; Buffer.from "more"] =
    inl [list_ascii_of_string "more"] /\
  MboxParser.parseStream toString_ascii true
    [Buffer.from "junk"; [Byte.x0a]; Buffer.from "more"] =
    inr MboxParser.NOT_AN_MBOX_FILE_stream.
Proof.
  apply (parseStream_not_mbox toString_ascii
           [Buffer.from "junk"; [Byte.x0a]; Buffer.from "more"]).
  reflexivity.
Defined.

(** ** No boundary is missed *)

Lemma newline_occ bs p :
  nth_error bs p = Some nl ->
  firstn 5 (skipn (p + 1) bs) = DELIMITER_START ->
  occ bs p = true.
Proof.
  intros Hnl Hfrom. unfold occ. rewrite occurs_here_firstn.
  rewrite Nat.add_comm, <- skipn_skipn in Hfrom.
  rewrite <- (Nat.add_0_r p), <- nth_error_skipn in Hnl.
  destruct (skipn p bs) as [|x rest]; [discriminate|].
  injection Hnl as ->. cbn [skipn] in Hfrom.
  change (length DELIMITER) with 6%nat. rewrite firstn_cons, Hfrom.
  reflexivity.
Qed.

(** X17. No boundary is missed: when the scan ends without the
    validation error, every place of the stream where a newline byte is
    followed by [From ] gets its boundary, the offset of the [F], however
    the stream is chunked and wherever the chunks cut the six bytes. *)
Theorem no_boundary_missed (strictMode : bool) (chunks : list Buffer.t)
    (q : nat) :
  snd (scan strictMode chunks) = None ->
  nth_error (concat chunks) q = Some nl ->
  firstn 5 (skipn (q + 1) (concat chunks)) = Buffer.from "From " ->
  In (Z.of_nat q + 1) (fst (scan strictMode chunks)).
Proof.
  rewrite scan_expected. unfold expected.
  destruct (rejected strictMode (concat chunks)); cbn [fst snd];
    [discriminate|].
  intros _ Hnl Hfrom. apply in_boundaries. right. exists q.
  split; [reflexivity|]. apply newline_occ; assumption.
Qed.

Lemma no_boundary_missed_witness :
  let body := Buffer.from "From a" ++ bytes_nl ++ Buffer.from "From b@x" in
  In 7 (fst (scan true (chunks_of 4 100 body))).
Proof.
  intros body.
  apply (no_boundary_missed true (chunks_of 4 100 body) 6).
  - rewrite scan_expected. reflexivity.
  - reflexivity.
  - reflexivity.
Defined.
